(** * Job orchestration of the audio speaker-separation service

    A shallow embedding of [audio_separator/processor/services.py]
    (class [AudioProcessingService] and the module-level functions), of the
    forms of [forms.py], of the views of [views.py] other than [index] and
    [download_audio], of the model properties of [models.py] and of the signal handler of [apps.py], followed by the
    properties of the job status protocol, of the pipeline, of the views and
    of the upload path.

    The three module-level dictionaries ([job_statuses], [job_cancellations],
    [job_threads]), the two database tables and the file system are the
    fields of one [World]; every method is a computation in a state and
    exception monad over it, so that a mutation made before an exception is
    raised is still there when the exception is caught.

    The times of a transcript and the duration of a track are Python
    floats: they are binary64 numbers here, and the subtraction, the
    comparison, the product and the quotient of the code are those of
    binary64 arithmetic. A Python [str] is the string of its code
    points, one character for each, so the text that is represented is the
    text whose code points are below 256; the content of a file is a string
    of bytes. *)

From Stdlib Require Import PrimFloat.
From Stdlib Require FloatOps SpecFloat FloatAxioms.
From Stdlib Require Import ZArith Lia Ascii.
From stdpp Require Import base option list gmap strings pretty sorting.

Local Open Scope string_scope.
Local Open Scope Z_scope.
Local Open Scope list_scope.

(** ** Audio (pydub's [AudioSegment], one sample per millisecond) *)

Module AudioSegment.

Definition t := list Z.

Definition empty : t := [].

Definition len (a : t) : Z := Z.of_nat (length a).

(** [AudioSegment.silent(duration=d)] *)
Definition silent (duration : Z) : t := replicate (Z.to_nat duration) 0.

(** [a + b] *)
Definition add (a b : t) : t := a ++ b.

(** [a[start:stop]]: both ends are clamped to the length, a negative
    position counts from the end. *)
Definition parse_position (a : t) (v : Z) : Z :=
  if v <? 0 then len a - Z.abs v else v.

Definition slice (a : t) (start stop : Z) : t :=
  let start := parse_position a (Z.min start (len a)) in
  let stop := parse_position a (Z.min stop (len a)) in
  take (Z.to_nat (stop - start)) (drop (Z.to_nat start) a).

End AudioSegment.

(** ** Data model *)

(** The status dictionary kept in [job_statuses] and returned to pollers. *)
Record Snapshot := mkSnapshot {
  snap_status : string;
  snap_step : string;
  snap_progress : Z;
  snap_message : string
}.

(** [models.ProcessingJob]; timestamps are seconds. *)
Record ProcessingJob := mkJob {
  uploaded_file_path : string;
  job_status : string;
  current_step : string;
  progress_percentage : Z;
  speaker_count : option Z;
  output_directory : option string;
  error_message : option string;
  started_at : option Z;
  completed_at : option Z
}.

(** [models.SpeakerTrack]; the pair (job, speaker_id) is its unique key. *)
Record SpeakerTrack := mkTrack {
  speaker_label : string;
  audio_file_path : string;
  duration_seconds : float;
  word_count : Z
}.

(** A transcript segment: a dictionary whose keys may be missing; the times
    are floats. *)
Record Segment := mkSegment {
  seg_start : option float;
  seg_end : option float;
  seg_text : option string;
  seg_speaker : option string
}.

Record World := mkWorld {
  job_statuses : gmap string Snapshot;
  job_cancellations : gmap string bool;
  job_threads : gset string;
  db_jobs : gmap string ProcessingJob;
  db_tracks : gmap (string * string) SpeakerTrack;
  files : gmap string AudioSegment.t;
  (** the lines "UPDATING JOB STATUS: ..." written by [update_job_status],
      oldest first *)
  status_log : list (string * Snapshot);
  (** [timezone.now()] *)
  clock : Z
}.

Definition with_job_statuses (f : gmap string Snapshot → gmap string Snapshot) (w : World) : World :=
  mkWorld (f (job_statuses w)) (job_cancellations w) (job_threads w) (db_jobs w)
          (db_tracks w) (files w) (status_log w) (clock w).

Definition with_job_cancellations (f : gmap string bool → gmap string bool) (w : World) : World :=
  mkWorld (job_statuses w) (f (job_cancellations w)) (job_threads w) (db_jobs w)
          (db_tracks w) (files w) (status_log w) (clock w).

Definition with_job_threads (f : gset string → gset string) (w : World) : World :=
  mkWorld (job_statuses w) (job_cancellations w) (f (job_threads w)) (db_jobs w)
          (db_tracks w) (files w) (status_log w) (clock w).

Definition with_db_jobs (f : gmap string ProcessingJob → gmap string ProcessingJob) (w : World) : World :=
  mkWorld (job_statuses w) (job_cancellations w) (job_threads w) (f (db_jobs w))
          (db_tracks w) (files w) (status_log w) (clock w).

Definition with_db_tracks
    (f : gmap (string * string) SpeakerTrack → gmap (string * string) SpeakerTrack)
    (w : World) : World :=
  mkWorld (job_statuses w) (job_cancellations w) (job_threads w) (db_jobs w)
          (f (db_tracks w)) (files w) (status_log w) (clock w).

Definition with_files (f : gmap string AudioSegment.t → gmap string AudioSegment.t) (w : World) : World :=
  mkWorld (job_statuses w) (job_cancellations w) (job_threads w) (db_jobs w)
          (db_tracks w) (f (files w)) (status_log w) (clock w).

Definition with_status_log (f : list (string * Snapshot) → list (string * Snapshot)) (w : World) : World :=
  mkWorld (job_statuses w) (job_cancellations w) (job_threads w) (db_jobs w)
          (db_tracks w) (files w) (f (status_log w)) (clock w).

(** ** Exceptions and the monad *)

Inductive Exn :=
  | DoesNotExist
  | IntegrityError
  | KeyError (key : string)
  | IndexError
  | FileNotFoundError (msg : string)
  | CouldntDecodeError
  | ExportError
  | EngineError
  | ValueError (msg : string)
  | OverflowError (msg : string)
  | Exception (msg : string).

(** [str(e)] *)
Definition exn_str (e : Exn) : string :=
  match e with
  | DoesNotExist => "ProcessingJob matching query does not exist."
  | IntegrityError => "UNIQUE constraint failed"
  | KeyError key => "'" +:+ key +:+ "'"
  | IndexError => "list index out of range"
  | FileNotFoundError msg => msg
  | CouldntDecodeError => "Decoding failed"
  | ExportError => "Encoding failed"
  | EngineError => "engine failure"
  | ValueError msg => msg
  | OverflowError msg => msg
  | Exception msg => msg
  end.

(** How a call ends: it returns a value or raises. *)
Inductive Res (A : Type) :=
  | Val (a : A)
  | Raise (e : Exn).
Arguments Val {A} a.
Arguments Raise {A} e.

(** A method: from a world to the world it leaves and how it ended. *)
Definition M (A : Type) : Type := World → World * Res A.

Definition ret {A} (a : A) : M A := λ w, (w, Val a).

Definition raise {A} (e : Exn) : M A := λ w, (w, Raise e).

Definition bind {A B} (m : M A) (k : A → M B) : M B :=
  λ w, match m w with
       | (w', Val a) => k a w'
       | (w', Raise e) => (w', Raise e)
       end.

(** [try: m  except Exception as e: h e] *)
Definition try_except {A} (m : M A) (h : Exn → M A) : M A :=
  λ w, match m w with
       | (w', Val a) => (w', Val a)
       | (w', Raise e) => h e w'
       end.

(** [try: m  finally: f] *)
Definition try_finally {A} (m : M A) (f : M unit) : M A :=
  λ w, match m w with
       | (w', r) => match f w' with
                    | (w'', Val _) => (w'', r)
                    | (w'', Raise e) => (w'', Raise e)
                    end
       end.

Definition gets {A} (f : World → A) : M A := λ w, (w, Val (f w)).

Definition modify (f : World → World) : M unit := λ w, (f w, Val tt).

#[global] Instance M_ret : MRet M := @ret.
#[global] Instance M_bind : MBind M := λ A B k m, bind m k.

(** [for x in xs: body x] *)
Fixpoint for_each {A} (xs : list A) (body : A → M unit) : M unit :=
  match xs with
  | [] => ret tt
  | x :: rest => body x;; for_each rest body
  end.

(** [for i, x in enumerate(xs): body i x], counting from [i] *)
Fixpoint for_enumerate {A} (i : Z) (xs : list A) (body : Z → A → M unit) : M unit :=
  match xs with
  | [] => ret tt
  | x :: rest => body i x;; for_enumerate (i + 1) rest body
  end.

(** The world after a computation, and its result. *)
Definition exec {A} (m : M A) (w : World) : World := (m w).1.
Definition result {A} (m : M A) (w : World) : Res A := (m w).2.

(** ** The ORM *)

(** [ProcessingJob.objects.get(job_id=job_id)] *)
Definition objects_get (job_id : string) : M ProcessingJob :=
  λ w, match db_jobs w !! job_id with
       | Some job => (w, Val job)
       | None => (w, Raise DoesNotExist)
       end.

(** [job.save()] *)
Definition save (job_id : string) (job : ProcessingJob) : M unit :=
  modify (with_db_jobs (insert job_id job)).

(** [SpeakerTrack.objects.get(job=job, speaker_id=speaker_id)] *)
Definition track_get (job_id speaker_id : string) : M SpeakerTrack :=
  λ w, match db_tracks w !! (job_id, speaker_id) with
       | Some t => (w, Val t)
       | None => (w, Raise DoesNotExist)
       end.


(** [SpeakerTrack.objects.create(...)]: [unique_together] refuses a second
    track of the same job and speaker. *)
Definition track_create (job_id speaker_id : string) (t : SpeakerTrack) : M unit :=
  λ w, match db_tracks w !! (job_id, speaker_id) with
       | Some _ => (w, Raise IntegrityError)
       | None => (with_db_tracks (insert (job_id, speaker_id) t) w, Val tt)
       end.

(** ** Status cache, cancellation, status writes *)

Definition String_eqb (a b : string) : bool := bool_decide (a = b).

Definition in_list (x : string) (l : list string) : bool := bool_decide (x ∈ l).

(** [check_job_cancelled]: [job_cancellations.get(job_id, False)] *)
Definition check_job_cancelled (job_id : string) : M bool :=
  gets (λ w, default false (job_cancellations w !! job_id)).

Definition set_status (status step : string) (progress : Z) (job : ProcessingJob) : ProcessingJob :=
  mkJob (uploaded_file_path job) status step progress (speaker_count job)
        (output_directory job) (error_message job) (started_at job) (completed_at job).

Definition set_error_message (msg : string) (job : ProcessingJob) : ProcessingJob :=
  mkJob (uploaded_file_path job) (job_status job) (current_step job) (progress_percentage job)
        (speaker_count job) (output_directory job) (Some msg) (started_at job) (completed_at job).

Definition set_started_at (t : Z) (job : ProcessingJob) : ProcessingJob :=
  mkJob (uploaded_file_path job) (job_status job) (current_step job) (progress_percentage job)
        (speaker_count job) (output_directory job) (error_message job) (Some t) (completed_at job).

Definition set_completed_at (t : Z) (job : ProcessingJob) : ProcessingJob :=
  mkJob (uploaded_file_path job) (job_status job) (current_step job) (progress_percentage job)
        (speaker_count job) (output_directory job) (error_message job) (started_at job) (Some t).

Definition set_results (n : Z) (dir : string) (job : ProcessingJob) : ProcessingJob :=
  mkJob (uploaded_file_path job) (job_status job) (current_step job) (progress_percentage job)
        (Some n) (Some dir) (error_message job) (started_at job) (completed_at job).

(** The fields [update_job_status] assigns before [job.save()]. *)
Definition updated_job (now : Z) (status step : string) (progress : Z) (job : ProcessingJob)
    : ProcessingJob :=
  let job := set_status status step progress job in
  let job :=
    if String_eqb status "failed" && String_eqb step "cancelled"
    then set_error_message "Job cancelled by user" job else job in
  if String_eqb status "processing" && bool_decide (started_at job = None)
  then set_started_at now job
  else if in_list status ["completed"; "failed"]
  then set_completed_at now job
  else job.

Definition update_job_status (job_id status step : string) (progress : Z) (message : string)
    : M unit :=
  try_except
    (cancelled ← check_job_cancelled job_id;
     if cancelled && negb (in_list status ["failed"; "cancelled"])
     then ret tt
     else
       let snapshot := mkSnapshot status step progress message in
       modify (with_status_log (λ l, l ++ [(job_id, snapshot)]));;
       modify (with_job_statuses (insert job_id snapshot));;
       job ← objects_get job_id;
       now ← gets clock;
       save job_id (updated_job now status step progress job))
    (λ _, ret tt).

Definition cancel_job (job_id : string) : M bool :=
  try_except
    (modify (with_job_cancellations (insert job_id true));;
     update_job_status job_id "failed" "cancelled" 0 "Job cancelled by user";;
     modify (with_job_statuses (delete job_id));;
     modify (with_job_threads (λ s, s ∖ {[job_id]}));;
     ret true)
    (λ _, ret false).

(** ** External collaborators *)

(** Alignment replaces the segments, or times out or raises and leaves them
    as they are. *)
Inductive AlignOutcome :=
  | AlignOk (aligned : list Segment)
  | AlignTimeout
  | AlignError.

(** Diarization either assigns speakers, or times out or raises; in the two
    last cases [announced] is the number of speakers found when the failure
    came after the line that publishes 58. *)
Inductive DiarizeOutcome :=
  | DiarizeOk (unique_speakers : nat) (assigned : list Segment)
  | DiarizeTimeout (announced : option nat)
  | DiarizeError (announced : option nat).

(** What the WhisperX engine does in one run. A transcription result is the
    list under its key 'segments'. *)
Inductive Engine :=
  | ImportFails
  | LoadModelFails
  | TranscribeFails
  | Transcribes (segments : list Segment) (align : AlignOutcome) (diarize : DiarizeOutcome).

(** The settings and the behaviour of the codec and of the engine in one
    run. *)
Record Env := mkEnv {
  temp_dir : string;
  output_dir : string;
  (** [AudioSegment.from_file(input_path)] decodes *)
  from_file_ok : bool;
  (** the loader picked from the file extension: [None] when the extension is
      none of .mp3, .wav, .flac, .m4a, else whether it decodes *)
  from_format_ok : option bool;
  (** [export(path, format="wav")] succeeds *)
  export_ok : string → bool;
  engine : Engine;
  (** [f"{x:.1f}"] of a duration given in milliseconds *)
  fmt_duration : Z → string
}.

(** [os.path.exists(path)] *)
Definition path_exists (path : string) : M bool :=
  gets (λ w, bool_decide (is_Some (files w !! path))).

(** Decoding a file that is there, as [AudioSegment.from_wav(path)]. *)
Definition read_audio (path : string) : M AudioSegment.t :=
  λ w, match files w !! path with
       | Some a => (w, Val a)
       | None => (w, Raise (FileNotFoundError path))
       end.

(** [a.export(path, format="wav")] *)
Definition export (env : Env) (path : string) (a : AudioSegment.t) : M unit :=
  if export_ok env path then modify (with_files (insert path a)) else raise ExportError.

Definition cancelled_error : Exn := Exception "Job cancelled by user".

(** [if self.check_job_cancelled(job_id): raise Exception(...)] *)
Definition raise_if_cancelled (job_id : string) : M unit :=
  cancelled ← check_job_cancelled job_id;
  if cancelled : bool then raise cancelled_error else mret tt.

(** ** Converting *)

(** Loading the upload: [AudioSegment.from_file], and when it raises, the
    loader of the format named by the file extension. *)
Definition load_input (env : Env) (input_path : string) : M AudioSegment.t :=
  try_except
    (if from_file_ok env then read_audio input_path else raise CouldntDecodeError)
    (λ load_error,
       match from_format_ok env with
       | Some true => read_audio input_path
       | Some false => raise CouldntDecodeError
       | None => raise load_error
       end).

Definition convert_to_wav (env : Env) (input_path job_id : string) : M string :=
  try_except
    (raise_if_cancelled job_id;;
     update_job_status job_id "processing" "converting" 10
       "Starting audio conversion to WAV format...";;
     found ← path_exists input_path;
     if negb found then raise (FileNotFoundError ("Input file not found: " +:+ input_path))
     else
       update_job_status job_id "processing" "converting" 15 "Loading audio file...";;
       raise_if_cancelled job_id;;
       audio ← load_input env input_path;
       update_job_status job_id "processing" "converting" 20
         ("Audio loaded (" +:+ fmt_duration env (AudioSegment.len audio)
            +:+ "s). Exporting to WAV...");;
       let output_path := temp_dir env +:+ "/" +:+ job_id +:+ "_converted.wav" in
       raise_if_cancelled job_id;;
       export env output_path audio;;
       written ← path_exists output_path;
       if negb written
       then raise (FileNotFoundError ("Output file was not created: " +:+ output_path))
       else
         update_job_status job_id "processing" "converting" 25
           "Audio converted to WAV format successfully";;
         mret output_path)
    (λ e, raise e).

(** ** Transcribing *)

(** [f"{n:02d}"] *)
Definition fmt_02d (n : Z) : string :=
  let s := pretty n in
  if (String.length s <? 2)%nat then "0" +:+ s else s.

Definition with_speaker (speaker : string) (segment : Segment) : Segment :=
  mkSegment (seg_start segment) (seg_end segment) (seg_text segment) (Some speaker).

(** [f"SPEAKER_{current_speaker:02d}"] *)
Definition speaker_tag (current_speaker : Z) : string := "SPEAKER_" +:+ fmt_02d current_speaker.

(** [segment.get('start', 0)] and [segment.get('end', start_time)]. The
    default 0 is an int, and so is the first [last_end_time]: an int operand
    of a float subtraction is converted to the float of the same value, so
    the int 0 is read as the float 0.0 (two ints 0 give the int 0, and
    0.0 - 0.0 is 0.0 as well). *)
Definition start_time (segment : Segment) : float := default 0%float (seg_start segment).

Definition end_time (segment : Segment) : float :=
  default (start_time segment) (seg_end segment).

(** [a > b] on floats; it is false when [a] or [b] is NaN. *)
Definition gtb (a b : float) : bool := PrimFloat.ltb b a.

(** The loop of the fallback speaker assignment: [current_speaker] and
    [last_end_time] are its two variables; [start_time - last_end_time] is
    the rounded difference of binary64. *)
Fixpoint fallback_loop (current_speaker : Z) (last_end_time : float)
    (segments : list Segment) : list Segment :=
  match segments with
  | [] => []
  | segment :: rest =>
      let current_speaker :=
        if gtb (PrimFloat.sub (start_time segment) last_end_time) 2 then 1 - current_speaker
        else current_speaker in
      with_speaker (speaker_tag current_speaker) segment
        :: fallback_loop current_speaker (end_time segment) rest
  end.

(** The speaker assignment used when diarization raised or timed out. *)
Definition fallback_speaker_assignment (segments : list Segment) : list Segment :=
  if (1 <? length segments)%nat
  then fallback_loop 0 0%float segments
  else with_speaker "SPEAKER_00" <$> segments.

Definition mock_segment (start end_ : float) (text speaker : string) : Segment :=
  mkSegment (Some start) (Some end_) (Some text) (Some speaker).

Definition mock_result : list Segment :=
  [ mock_segment 0.0 3.0 "Hello, welcome to our podcast." "SPEAKER_00";
    mock_segment 3.5 7.0 "Thank you for having me." "SPEAKER_01";
    mock_segment 7.5 11.0 "Let's talk about the topic." "SPEAKER_00";
    mock_segment 11.5 15.0 "That sounds interesting." "SPEAKER_01";
    mock_segment 15.5 19.0 "I think we should discuss this further." "SPEAKER_00";
    mock_segment 19.5 23.0 "Absolutely, I agree with that point." "SPEAKER_01" ].

Definition _run_mock_whisperx (job_id : string) : M (list Segment) :=
  update_job_status job_id "processing" "transcribing" 35
    "Processing audio with mock WhisperX...";;
  for_each [0; 1; 2; 3; 4] (λ i,
    let progress := 35 + (i + 1) * 5 in
    update_job_status job_id "processing" "transcribing" progress
      ("Mock WhisperX processing... " +:+ pretty (i + 1) +:+ "/5"));;
  mret mock_result.

(** Steps 3 and 4 of [run_whisperx_transcription], after a transcription
    gave [segments]. *)
Definition align_and_diarize (job_id : string) (segments : list Segment)
    (align : AlignOutcome) (diarize : DiarizeOutcome) : M (list Segment) :=
  raise_if_cancelled job_id;;
  update_job_status job_id "processing" "transcribing" 50 "Aligning transcription...";;
  let result :=
    match align with
    | AlignOk aligned => aligned
    | AlignTimeout | AlignError => segments
    end in
  raise_if_cancelled job_id;;
  update_job_status job_id "processing" "transcribing" 55
    "Performing speaker diarization...";;
  match diarize with
  | DiarizeOk unique_speakers assigned =>
      update_job_status job_id "processing" "transcribing" 58
        ("Assigning " +:+ pretty unique_speakers +:+ " speakers to segments...");;
      mret assigned
  | DiarizeTimeout announced | DiarizeError announced =>
      match announced with
      | Some unique_speakers =>
          update_job_status job_id "processing" "transcribing" 58
            ("Assigning " +:+ pretty unique_speakers +:+ " speakers to segments...")
      | None => mret tt
      end;;
      mret (fallback_speaker_assignment result)
  end.

Definition run_whisperx_transcription (env : Env) (wav_path job_id : string)
    : M (list Segment) :=
  try_except
    (raise_if_cancelled job_id;;
     update_job_status job_id "processing" "transcribing" 30
       "Transcribing audio and identifying speakers...";;
     found ← path_exists wav_path;
     if negb found then raise (FileNotFoundError ("WAV file not found: " +:+ wav_path))
     else
       match engine env with
       | ImportFails => _run_mock_whisperx job_id
       | LoadModelFails =>
           update_job_status job_id "processing" "transcribing" 35
             "Loading WhisperX model...";;
           raise EngineError
       | TranscribeFails =>
           update_job_status job_id "processing" "transcribing" 35
             "Loading WhisperX model...";;
           raise_if_cancelled job_id;;
           update_job_status job_id "processing" "transcribing" 40
             "Transcribing audio...";;
           raise EngineError
       | Transcribes segments align diarize =>
           update_job_status job_id "processing" "transcribing" 35
             "Loading WhisperX model...";;
           raise_if_cancelled job_id;;
           update_job_status job_id "processing" "transcribing" 40
             "Transcribing audio...";;
           align_and_diarize job_id segments align diarize
       end)
    (λ _, _run_mock_whisperx job_id).

(** ** Separating *)

(** [speaker_segments]: a dictionary in insertion order. *)
Definition SpeakerSegments := list (string * list Segment).

Definition has_key (speaker : string) (d : SpeakerSegments) : bool :=
  bool_decide (speaker ∈ d.*1).

(** [if speaker not in d: d[speaker] = []] then [d[speaker].append(segment)] *)
Definition append_segment (d : SpeakerSegments) (segment : Segment) : SpeakerSegments :=
  let speaker := default "UNKNOWN" (seg_speaker segment) in
  if has_key speaker d
  then (λ kv, if String_eqb kv.1 speaker then (kv.1, kv.2 ++ [segment]) else kv) <$> d
  else d ++ [(speaker, [segment])].

Definition group_by_speaker (segments : list Segment) : SpeakerSegments :=
  foldl append_segment [] segments.

(** [d.get(speaker_id, [])] *)
Definition segments_of (d : SpeakerSegments) (speaker_id : string) : list Segment :=
  default [] (snd <$> List.find (λ kv, String_eqb kv.1 speaker_id) d).

(** [float(n)] for an int: the binary64 number nearest to it. *)
Definition float_of_int (n : Z) : float :=
  FloatOps.SF2Prim (SpecFloat.binary_normalize FloatOps.prec FloatOps.emax n 0 false).

(** [int(x)] on a float: the float is [m * 2 ^ e], negated when [s], and
    [int] truncates it towards zero; an infinity raises OverflowError and NaN
    raises ValueError. *)
Definition int_of_float (x : float) : Res Z :=
  match FloatOps.Prim2SF x with
  | SpecFloat.S754_zero _ => Val 0
  | SpecFloat.S754_finite s m e =>
      let n := Z.shiftl (Zpos m) e in
      Val (if s then - n else n)
  | SpecFloat.S754_infinity _ => Raise (OverflowError "cannot convert float infinity to integer")
  | SpecFloat.S754_nan => Raise (ValueError "cannot convert float NaN to integer")
  end.

(** [int(x * 1000)] *)
Definition milliseconds (x : float) : Res Z := int_of_float (PrimFloat.mul x 1000).

Definition field {A} (key : string) (v : option A) : Res A :=
  match v with
  | Some a => Val a
  | None => Raise (KeyError key)
  end.

Definition lift {A} (r : Res A) : M A := λ w, (w, r).

(** The inner loop of [separate_speakers] over one speaker's segments. *)
Fixpoint speaker_track_audio (audio speaker_audio : AudioSegment.t) (segments : list Segment)
    : Res AudioSegment.t :=
  match segments with
  | [] => Val speaker_audio
  | segment :: rest =>
      match field "start" (seg_start segment) with
      | Raise e => Raise e
      | Val start =>
          match milliseconds start with
          | Raise e => Raise e
          | Val start_ms =>
              match field "end" (seg_end segment) with
              | Raise e => Raise e
              | Val end_ =>
                  match milliseconds end_ with
                  | Raise e => Raise e
                  | Val end_ms =>
                      let segment_audio := AudioSegment.slice audio start_ms end_ms in
                      let speaker_audio := AudioSegment.add speaker_audio segment_audio in
                      let speaker_audio :=
                        AudioSegment.add speaker_audio (AudioSegment.silent 500) in
                      speaker_track_audio audio speaker_audio rest
                  end
              end
          end
      end
  end.

(** The loop of [separate_speakers] over the speakers, from index
    [speaker_idx], with the files written so far. *)
Fixpoint separate_loop (env : Env) (job_id : string) (audio : AudioSegment.t)
    (job_output_dir : string) (total_speakers speaker_idx : Z)
    (items : SpeakerSegments) (speaker_files : list string) : M (list string) :=
  match items with
  | [] => mret speaker_files
  | (speaker_id, segments) :: rest =>
      raise_if_cancelled job_id;;
      let speaker_progress := 65 + (speaker_idx * 20) `div` total_speakers in
      update_job_status job_id "processing" "separating" speaker_progress
        ("Processing speaker " +:+ pretty (speaker_idx + 1) +:+ "/" +:+ pretty total_speakers
           +:+ ": " +:+ speaker_id);;
      speaker_audio ← lift (speaker_track_audio audio AudioSegment.empty segments);
      let speaker_path := job_output_dir +:+ "/" +:+ speaker_id +:+ ".wav" in
      export env speaker_path speaker_audio;;
      separate_loop env job_id audio job_output_dir total_speakers (speaker_idx + 1) rest
        (speaker_files ++ [speaker_path])
  end.

Definition separate_speakers (env : Env) (wav_path : string)
    (transcription_result : list Segment) (job_id : string) : M (list string) :=
  try_except
    (raise_if_cancelled job_id;;
     update_job_status job_id "processing" "separating" 60
       "Separating speakers into individual tracks...";;
     found ← path_exists wav_path;
     if negb found then raise (FileNotFoundError ("WAV file not found: " +:+ wav_path))
     else
       audio ← read_audio wav_path;
       let speaker_segments := group_by_speaker transcription_result in
       let job_output_dir := output_dir env +:+ "/" +:+ job_id in
       let total_speakers := Z.of_nat (length speaker_segments) in
       separate_loop env job_id audio job_output_dir total_speakers 0 speaker_segments [])
    (λ e, raise e).

(** ** Finalizing *)

(** Split at the last occurrence of [c]. *)
Fixpoint rsplit (c : ascii) (s : string) : option (string * string) :=
  match s with
  | EmptyString => None
  | String a s' =>
      match rsplit c s' with
      | Some (l, r) => Some (String a l, r)
      | None => if bool_decide (a = c) then Some (EmptyString, s') else None
      end
  end.

(** [str(Path(p).parent)] *)
Definition path_parent (p : string) : string :=
  match rsplit "/"%char p with
  | Some (dir, _) => if String_eqb dir "" then "/" else dir
  | None => "."
  end.

(** [Path(p).stem] *)
Definition path_stem (p : string) : string :=
  let name := match rsplit "/"%char p with Some (_, n) => n | None => p end in
  match rsplit "."%char name with
  | Some (stem, suffix) =>
      if String_eqb stem "" || String_eqb suffix "" then name else stem
  | None => name
  end.

(** White space of [str.split()], of [str.strip()] and of the class [\s] of
    a pattern on [str]: of the code points below 256 these are 9 to 13, 28
    to 32, 133 (next line) and 160 (no-break space). *)
Definition is_space (c : ascii) : bool :=
  let n := Ascii.N_of_ascii c in
  ((9 <=? n) && (n <=? 13) || (28 <=? n) && (n <=? 32) || (n =? 133) || (n =? 160))%N.

(** [len(text.split())] *)
Fixpoint count_words_from (in_word : bool) (text : string) : Z :=
  match text with
  | EmptyString => 0
  | String c rest =>
      if is_space c then count_words_from false rest
      else (if in_word then 0 else 1) + count_words_from true rest
  end.

Definition count_words (text : string) : Z := count_words_from false text.

Definition sum_Z (l : list Z) : Z := foldr Z.add 0 l.

Definition finalize_processing (job_id : string) (speaker_files : list string)
    (transcription_result : list Segment) : M unit :=
  try_except
    (update_job_status job_id "processing" "finalizing" 90 "Finalizing results...";;
     job ← objects_get job_id;
     let n := Z.of_nat (length speaker_files) in
     first ← lift (match speaker_files with f :: _ => Val f | [] => Raise IndexError end);
     save job_id (set_results n (path_parent first) job);;
     let speaker_segments := group_by_speaker transcription_result in
     for_enumerate 0 speaker_files (λ i speaker_file,
       let speaker_id := path_stem speaker_file in
       audio ← read_audio speaker_file;
       let duration_seconds := PrimFloat.div (float_of_int (AudioSegment.len audio)) 1000 in
       let segments := segments_of speaker_segments speaker_id in
       let word_count :=
         sum_Z ((λ segment, count_words (default "" (seg_text segment))) <$> segments) in
       track_create job_id speaker_id (mkTrack "" speaker_file duration_seconds word_count);;
       let progress := 92 + (i * 6) `div` n in
       update_job_status job_id "processing" "finalizing" progress
         ("Created track record for " +:+ speaker_id));;
     update_job_status job_id "completed" "completed" 100
       ("Processing complete! Identified " +:+ pretty n +:+ " speakers."))
    (λ e, raise e).

(** ** The pipeline *)

Inductive Stage := Converting | Transcribing | Separating | Finalizing.

#[global] Instance Stage_eq_dec : EqDecision Stage.
Proof. solve_decision. Defined.

(** The [try] block of [run_separation_pipeline]. [between s] is what the
    other threads do while this one is about to enter stage [s]. *)
Definition pipeline_stages (env : Env) (between : Stage → M unit) (job_id : string) : M unit :=
  job ← objects_get job_id;
  update_job_status job_id "processing" "initializing" 5
    "Starting audio processing pipeline...";;
  between Converting;;
  wav_path ← convert_to_wav env (uploaded_file_path job) job_id;
  between Transcribing;;
  transcription_result ← run_whisperx_transcription env wav_path job_id;
  between Separating;;
  speaker_files ← separate_speakers env wav_path transcription_result job_id;
  between Finalizing;;
  finalize_processing job_id speaker_files transcription_result;;
  try_except
    (found ← path_exists wav_path;
     if found : bool then modify (with_files (delete wav_path)) else mret tt)
    (λ _, mret tt).

(** The [except] block of [run_separation_pipeline]. *)
Definition pipeline_failed (job_id : string) (e : Exn) : M unit :=
  update_job_status job_id "failed" "error" 0 ("Processing failed: " +:+ exn_str e);;
  try_except
    (job ← objects_get job_id;
     save job_id (set_error_message (exn_str e) job))
    (λ _, mret tt).

Definition run_separation_pipeline_with (env : Env) (between : Stage → M unit)
    (job_id : string) : M unit :=
  try_except (pipeline_stages env between job_id) (pipeline_failed job_id).

Definition run_separation_pipeline (env : Env) (job_id : string) : M unit :=
  run_separation_pipeline_with env (λ _, mret tt) job_id.

(** A cancel request served while the pipeline is about to enter [stage]. *)
Definition cancel_before (stage : Stage) (job_id : string) : Stage → M unit :=
  λ s, if bool_decide (s = stage) then cancel_job job_id;; mret tt else mret tt.

(** The thread body [run_job] of [start_processing_job]. *)
Definition run_job (env : Env) (between : Stage → M unit) (job_id : string) : M unit :=
  try_finally
    (try_except (run_separation_pipeline_with env between job_id) (λ _, mret tt))
    (modify (with_job_threads (λ s, s ∖ {[job_id]}));;
     modify (with_job_cancellations (delete job_id))).

(** ** Stale entries and status reads *)

(** [timedelta(minutes=30)], in seconds *)
Definition stale_after : Z := 30 * 60.

(** The test of [clean_stale_cache_entries] on a job record. *)
Definition is_stuck (now : Z) (job : ProcessingJob) : bool :=
  String_eqb (job_status job) "processing"
  && match started_at job with
     | Some started => bool_decide (stale_after < now - started)
     | None => false
     end.

(** The fields [clean_stale_cache_entries] assigns to a stuck job. *)
Definition timed_out (now : Z) (job : ProcessingJob) : ProcessingJob :=
  set_completed_at now
    (set_error_message "Processing timed out after 30 minutes"
       (set_status "failed" "failed" 0 job)).

(** The first loop of [clean_stale_cache_entries], over the cached ids. *)
Fixpoint scan_cache (job_ids : list string) (stale_jobs : list string) : M (list string) :=
  match job_ids with
  | [] => mret stale_jobs
  | job_id :: rest =>
      stale_jobs ←
        try_except
          (job ← objects_get job_id;
           now ← gets clock;
           if is_stuck now job
           then save job_id (timed_out now job);; mret (stale_jobs ++ [job_id])
           else mret stale_jobs)
          (λ e, match e with
                | DoesNotExist => mret (stale_jobs ++ [job_id])
                | _ => raise e
                end);
      scan_cache rest stale_jobs
  end.

Definition clean_stale_cache_entries : M unit :=
  cached ← gets (λ w, (map_to_list (job_statuses w)).*1);
  stale_jobs ← scan_cache cached [];
  for_each stale_jobs (λ job_id,
    present ← gets (λ w, bool_decide (is_Some (job_statuses w !! job_id)));
    if present : bool then modify (with_job_statuses (delete job_id)) else mret tt).

Definition STEP_CHOICES : list (string * string) :=
  [ ("uploaded", "File Uploaded");
    ("converting", "Converting Audio Format");
    ("transcribing", "Transcribing with WhisperX");
    ("separating", "Separating Speakers");
    ("finalizing", "Finalizing Output");
    ("completed", "Processing Complete") ].

(** [job.get_current_step_display()]: the label of the choice, or the value
    itself when it is not one of the choices. *)
Definition get_current_step_display (step : string) : string :=
  default step (snd <$> List.find (λ kv, String_eqb kv.1 step) STEP_CHOICES).

(** The status dictionary built from a job record. *)
Definition database_status (job : ProcessingJob) : Snapshot :=
  mkSnapshot (job_status job) (current_step job) (progress_percentage job)
    ("Current step: " +:+ get_current_step_display (current_step job)).

Definition not_found_status : Snapshot := mkSnapshot "not_found" "error" 0 "Job not found".

Definition error_status : Snapshot := mkSnapshot "error" "error" 0 "Error retrieving status".

(** [get_job_status]; [clean] is the outcome of [random.random() < 0.1]. *)
Definition get_job_status (clean : bool) (job_id : string) : M Snapshot :=
  try_except
    ((if clean then clean_stale_cache_entries else mret tt);;
     job ← objects_get job_id;
     if in_list (job_status job) ["completed"; "failed"]
     then
       let status := database_status job in
       modify (with_job_statuses (insert job_id status));;
       mret status
     else
       cached ← gets (λ w, job_statuses w !! job_id);
       match cached with
       | Some memory_status => mret memory_status
       | None =>
           let status := database_status job in
           modify (with_job_statuses (insert job_id status));;
           mret status
       end)
    (λ e, match e with
          | DoesNotExist => mret not_found_status
          | _ => mret error_status
          end).

(** ** Speaker labels *)






Fixpoint string_forallb (p : ascii → bool) (s : string) : bool :=
  match s with
  | EmptyString => true
  | String c rest => p c && string_forallb p rest
  end.

(** Text of ASCII characters: every code point is below 128. On such text
    the classes of this file are those of Python whatever the encoding in
    which the text is held. *)
Definition ascii_text (s : string) : Prop :=
  string_forallb (λ c, (Ascii.N_of_ascii c <? 128)%N) s = true.


Definition has_null (s : string) : bool := negb (string_forallb (λ c, negb (Ascii.N_of_ascii c =? 0)%N) s).






(** ** Vocabulary of the properties *)

(** The world after a status write that was not discarded, for a job with
    durable record [job]: the log line, the cache entry, then the record. *)
Definition written (job_id status step : string) (progress : Z) (message : string)
    (job : ProcessingJob) (w : World) : World :=
  with_db_jobs (insert job_id (updated_job (clock w) status step progress job))
    (with_job_statuses (insert job_id (mkSnapshot status step progress message))
       (with_status_log (λ l, l ++ [(job_id, mkSnapshot status step progress message)]) w)).

(** The same without durable record: the cache entry is written all the
    same. *)
Definition written_cache_only (job_id status step : string) (progress : Z) (message : string)
    (w : World) : World :=
  with_job_statuses (insert job_id (mkSnapshot status step progress message))
    (with_status_log (λ l, l ++ [(job_id, mkSnapshot status step progress message)]) w).

Definition discarded (w : World) (job_id status : string) : bool :=
  default false (job_cancellations w !! job_id) && negb (in_list status ["failed"; "cancelled"]).

(** ** Statements that the code does not satisfy *)


(** ** Sample worlds *)

Definition sample_job : ProcessingJob :=
  mkJob "/uploads/job-1.mp3" "pending" "uploaded" 0 None None None None None.

(** One pending job, just uploaded: a record, a cache entry and the file. *)
Definition sample_world : World :=
  mkWorld {["job-1" := mkSnapshot "pending" "uploaded" 0 "File uploaded successfully"]}
          ∅ {["job-1"]} {["job-1" := sample_job]} ∅
          {["/uploads/job-1.mp3" := replicate 2000%nat 7]} [] 1000.

(** The same after a cancel request. *)
Definition cancelled_world : World := exec (cancel_job "job-1") sample_world.

(** A world that knows no job at all. *)
Definition empty_world : World := mkWorld ∅ ∅ ∅ ∅ ∅ ∅ [] 1000.

(** What one pass of the reaper does to a job record it looks at. *)
Definition reaped (now : Z) (job : ProcessingJob) : ProcessingJob :=
  if is_stuck now job then timed_out now job else job.

(** A job that entered Processing at time 0 and never finished. *)
Definition stuck_job : ProcessingJob :=
  mkJob "/uploads/job-9.mp3" "processing" "transcribing" 40 None None None (Some 0) None.

(** The stuck job an hour later, with its cache entry... *)
Definition stale_world : World :=
  mkWorld {["job-9" := mkSnapshot "processing" "transcribing" 40 "Transcribing audio..."]}
          ∅ {["job-9"]} {["job-9" := stuck_job]} ∅ ∅ [] 3600.



(** The silence between the end of [prev] and the start of [cur], as the
    loop computes it: the binary64 difference of the two times. *)
Definition gap (prev cur : Segment) : float := PrimFloat.sub (start_time cur) (end_time prev).

(** The speaker the loop moves to when it meets a segment. *)
Definition next_speaker (current_speaker : Z) (last_end_time : float) (segment : Segment) : Z :=
  if gtb (PrimFloat.sub (start_time segment) last_end_time) 2
  then 1 - current_speaker else current_speaker.

(** The speaker given to the [i]-th segment of an assignment. *)
Definition speaker_at (segments : list Segment) (i : nat) : option string :=
  segments !! i ≫= seg_speaker.





(** Two segments whose times are no binary64 numbers as decimals, each being
    read as the nearest one: the second starts 2.1 s in, the first ends
    0.1 s in. *)
#[warnings="-inexact-float"] Definition rounded_gap_segments : list Segment :=
  [ mkSegment (Some 0.0%float) (Some 0.1%float) (Some "Yes.") None;
    mkSegment (Some 2.1%float) (Some 3.0%float) (Some "No.") None ].

(** The settings of the sample runs: every codec call succeeds, the engine
    cannot be imported. *)
Definition sample_env : Env :=
  mkEnv "/tmp" "/out" true None (λ _, true) ImportFails (λ _, "2.0").

(** A job in its Separating stage, with its converted file. *)
Definition separating_world : World :=
  mkWorld ∅ ∅ {["job-1"]}
          {["job-1" := mkJob "/uploads/job-1.mp3" "processing" "transcribing" 58 None None None
                         (Some 1000) None]}
          ∅ {["/tmp/job-1_converted.wav" := replicate 2000%nat 7]} [] 1000.

(** A transcript of one segment, the first second of the audio. *)
Definition one_segment : list Segment :=
  [ mkSegment (Some 0.0%float) (Some 1.0%float) (Some "Hello.") (Some "SPEAKER_00") ].

(** The integer of [int(x * 1000)] where it has one. *)
Definition ms (x : float) : Z :=
  match milliseconds x with
  | Val n => n
  | Raise _ => 0
  end.

(** The audio span of a segment: [audio[int(start * 1000):int(end * 1000)]]. *)
Definition span (audio : AudioSegment.t) (segment : Segment) : AudioSegment.t :=
  AudioSegment.slice audio (ms (start_time segment)) (ms (default 0%float (seg_end segment))).

(** What the Separating stage is said to write for a speaker: the spans with
    the silence between two of them, and only there. *)
Fixpoint spans_with_gaps_between (audio : AudioSegment.t) (segments : list Segment)
    : AudioSegment.t :=
  match segments with
  | [] => []
  | [segment] => span audio segment
  | segment :: rest =>
      span audio segment ++ AudioSegment.silent 500 ++ spans_with_gaps_between audio rest
  end.

(** What it writes: every span followed by the silence. *)
Definition spans_each_followed_by_gap (audio : AudioSegment.t) (segments : list Segment)
    : AudioSegment.t :=
  mjoin ((λ segment, span audio segment ++ AudioSegment.silent 500) <$> segments).

(** Whether [int(x)] has a value: [x] is neither NaN nor an infinity. *)
Definition finite (x : float) : bool :=
  match FloatOps.Prim2SF x with
  | SpecFloat.S754_zero _ | SpecFloat.S754_finite _ _ _ => true
  | SpecFloat.S754_infinity _ | SpecFloat.S754_nan => false
  end.

(** The segment has a start and an end, and both are still finite once they
    are multiplied by 1000. *)
Definition has_times (segment : Segment) : Prop :=
  ∃ start end_,
    seg_start segment = Some start ∧ seg_end segment = Some end_
    ∧ finite (PrimFloat.mul start 1000) = true ∧ finite (PrimFloat.mul end_ 1000) = true.



(** The sample job cancelled while the pipeline was about to finalize: its
    status is 'failed', its tracks are there. *)
Definition cancelled_late_world : World :=
  exec (run_job sample_env (cancel_before Finalizing "job-1") "job-1") sample_world.


(** ** Runs that are not cancelled *)

(** The job is not cancelled and has a durable record. *)
Definition live (job_id : string) (w : World) : Prop :=
  job_cancellations w !! job_id = None ∧ is_Some (db_jobs w !! job_id).

(** The files and the tracks of a world. *)
Definition stores (w : World) : gmap string AudioSegment.t * gmap (string * string) SpeakerTrack :=
  (files w, db_tracks w).

(** From [w] to [w'] the flags and the clock are the same, and the record of
    the job, if any, keeps its file path and its results. *)
Definition same_job_data (job_id : string) (w w' : World) : Prop :=
  job_cancellations w' = job_cancellations w
  ∧ clock w' = clock w
  ∧ ∀ job, db_jobs w !! job_id = Some job →
      ∃ job', db_jobs w' !! job_id = Some job'
              ∧ uploaded_file_path job' = uploaded_file_path job
              ∧ speaker_count job' = speaker_count job
              ∧ output_directory job' = output_directory job.

(** The input decodes, at once or with the format taken from the
    extension. *)
Definition decodes (env : Env) : Prop :=
  from_file_ok env = true ∨ from_format_ok env = Some true.

(** The engine is unavailable or fails for good. *)
Definition engine_fails (env : Env) : Prop :=
  engine env = ImportFails ∨ engine env = LoadModelFails ∨ engine env = TranscribeFails.

Definition converted_path (env : Env) (job_id : string) : string :=
  temp_dir env +:+ "/" +:+ job_id +:+ "_converted.wav".

Definition speaker_path (env : Env) (job_id speaker_id : string) : string :=
  (output_dir env +:+ "/" +:+ job_id) +:+ "/" +:+ speaker_id +:+ ".wav".

(** ** Published progress *)

(** The progress values of the status writes made with status 'processing',
    in the order of the log lines. *)
Definition processing_progress (entries : list (string * Snapshot)) : list Z :=
  snap_progress <$> filter (λ s, snap_status s = "processing") entries.*2.

(** The log lines a computation adds to those of the world it starts in. *)
Definition logged {A} (m : M A) (w : World) : list (string * Snapshot) :=
  drop (length (status_log w)) (status_log (exec m w)).

Fixpoint nondecreasing (l : list Z) : Prop :=
  match l with
  | [] => True
  | x :: rest =>
      match rest with
      | [] => True
      | y :: _ => x ≤ y ∧ nondecreasing rest
      end
  end.

(** A log line is a progress report, the completion at 100, or a failure at
    0. *)
Definition entry_ok (entry : string * Snapshot) : Prop :=
  snap_status entry.2 = "processing"
  ∨ (snap_status entry.2 = "completed" ∧ snap_progress entry.2 = 100)
  ∨ (snap_status entry.2 = "failed" ∧ snap_progress entry.2 = 0).

Definition cancelled (job_id : string) (w : World) : bool :=
  default false (job_cancellations w !! job_id).

(** The level reached by a computation that ends with [res]: [b] when it
    returns, [r] when it raises, if it may raise. *)
Definition level {A} (res : Res A) (b : Z) (r : option Z) : option Z :=
  match res with
  | Val _ => Some b
  | Raise _ => r
  end.

(** [emits job_id mono a m b r]: from every world, [m] only appends log
    lines, leaves the cancellation flags alone, and, unless the job is
    cancelled (then it publishes no progress at all), the progress values it
    publishes lie between [a] and the level it reaches, in nondecreasing
    order when [mono] is set. *)
Definition emits (job_id : string) (mono : bool) (a : Z) {A} (m : M A) (b : Z) (r : option Z)
    : Prop :=
  ∀ w, ∃ new,
    status_log (exec m w) = status_log w ++ new
    ∧ job_cancellations (exec m w) = job_cancellations w
    ∧ Forall entry_ok new
    ∧ if cancelled job_id w then processing_progress new = []
      else ∃ top, level (result m w) b r = Some top
                  ∧ a ≤ top
                  ∧ Forall (λ p, a ≤ p ≤ top) (processing_progress new)
                  ∧ (mono = true → nondecreasing (processing_progress new)).

(** [r'] is a raise level at least as high as [r]. *)
Definition covers (r r' : option Z) : Prop :=
  match r with
  | None => True
  | Some x => ∃ y, r' = Some y ∧ x ≤ y
  end.

(** A computation that writes neither log lines nor cancellation flags. *)
Definition silent {A} (m : M A) : Prop :=
  ∀ w, status_log (exec m w) = status_log w
       ∧ job_cancellations (exec m w) = job_cancellations w.

(** A computation that returns in every world. *)
Definition total {A} (m : M A) : Prop := ∀ w, ∃ a, result m w = Val a.

(** Progress read as "the values published while Processing never decrease
    and lie between 0 and 100", for every run. *)
Definition progress_never_decreases : Prop :=
  ∀ (env : Env) (w : World) (job_id : string),
    nondecreasing (processing_progress (logged (run_separation_pipeline env job_id) w))
    ∧ Forall (λ p, 0 ≤ p ≤ 100)
        (processing_progress (logged (run_separation_pipeline env job_id) w)).

(** The sample settings with an engine that loads and then fails while it
    transcribes. *)
Definition failing_env : Env :=
  mkEnv "/tmp" "/out" true None (λ _, true) TranscribeFails (λ _, "2.0").

(** [segment.get('speaker', 'UNKNOWN')] *)
Definition speaker_of (segment : Segment) : string := default "UNKNOWN" (seg_speaker segment).

(** ** Cancelling every running job *)

(** [[job_id for job_id, status in job_statuses.items()
      if status.get('status') == 'processing']] *)
Definition running_jobs (w : World) : list string :=
  (filter (λ kv, snap_status kv.2 = "processing") (map_to_list (job_statuses w))).*1.

(** The loop of [cancel_all_jobs], with its counter. *)
Fixpoint cancel_loop (job_ids : list string) (cancelled_count : Z) : M Z :=
  match job_ids with
  | [] => mret cancelled_count
  | job_id :: rest =>
      cancelled_count ←
        try_except
          (success ← cancel_job job_id;
           if success : bool then mret (cancelled_count + 1) else mret cancelled_count)
          (λ _, mret cancelled_count);
      cancel_loop rest cancelled_count
  end.

Definition cancel_all_jobs : M Z :=
  running ← gets running_jobs;
  cancel_loop running 0.

(** How a handler ends: it returns, it raises an [Exception], or it raises
    the SystemExit of [sys.exit(code)], which is no [Exception] and which no
    [except Exception] catches. *)
Inductive Ending :=
  | Returned
  | Raised (e : Exn)
  | SystemExit (code : Z).

(** [m] followed by [sys.exit(code)] *)
Definition then_exit (m : M unit) (code : Z) : World → World * Ending :=
  λ w, match m w with
       | (w', Val _) => (w', SystemExit code)
       | (w', Raise e) => (w', Raised e)
       end.

(** The handler of SIGINT and SIGTERM of [apps.py]: the [try] block that
    cancels the running jobs, then [sys.exit(0)]. *)
Definition signal_handler : World → World * Ending :=
  then_exit
    (try_except
       (running ← gets running_jobs;
        match running with
        | [] => mret tt
        | _ :: _ =>
            for_each running (λ job_id,
              try_except (cancel_job job_id;; mret tt) (λ _, mret tt))
        end)
       (λ _, mret tt))
    0.

(** [start_processing_job], on the side of the caller: the thread whose body
    is [run_job] is started and then tracked. *)
Definition start_processing_job (job_id : string) : M unit :=
  modify (with_job_threads (λ s, s ∪ {[job_id]})).

(** ** The model properties *)


(** [ProcessingJob.duration], in seconds, at time [now]. *)
Definition duration (now : Z) (job : ProcessingJob) : option Z :=
  match started_at job, completed_at job with
  | Some started, Some completed => Some (completed - started)
  | Some started, None => Some (now - started)
  | None, _ => None
  end.

(** ** The other views *)

(** [Http404] is an [Exception]: the handlers of the views catch it with the
    others, and a view that lets it out is answered with status 404. *)
Definition Http404 (msg : string) : Exn := Exception msg.

(** [get_object_or_404(ProcessingJob, job_id=job_id)] *)
Definition get_object_or_404 (job_id : string) : M ProcessingJob :=
  try_except (objects_get job_id)
    (λ _, raise (Http404 "No ProcessingJob matches the given query.")).

(** [get_object_or_404(SpeakerTrack, job=job, speaker_id=speaker_id)] *)
Definition get_track_or_404 (job_id speaker_id : string) : M SpeakerTrack :=
  try_except (track_get job_id speaker_id)
    (λ _, raise (Http404 "No SpeakerTrack matches the given query.")).

(** The JSON answers of [cancel_job_view], with their HTTP status. *)
Inductive CancelResponse :=
  | CancelDone                           (* 200, 'Job cancelled successfully' *)
  | NotCancellable (status : string)     (* 400, 'Job cannot be cancelled. Current status: ...' *)
  | CancelFailed                         (* 500, 'Failed to cancel job' *)
  | CancelUnexpected.                    (* 500, 'An unexpected error occurred' *)

Definition cancel_job_view (job_id : string) : M CancelResponse :=
  try_except
    (job ← get_object_or_404 job_id;
     if negb (in_list (job_status job) ["pending"; "processing"])
     then mret (NotCancellable (job_status job))
     else
       success ← cancel_job job_id;
       if success : bool then mret CancelDone else mret CancelFailed)
    (λ _, mret CancelUnexpected).

(** The answers of [status_api]: the status dictionary, with the key
    'redirect_url' when it was added, and status 200; or the error dictionary
    and status 500. *)
Inductive StatusResponse :=
  | StatusOk (status_info : Snapshot) (redirect_url : option string)
  | StatusError.

(** [status_api]; [reverse_results job_id] is
    [reverse('processor:results', kwargs={'job_id': job_id})]. The key is
    added to the dictionary [get_job_status] returned, which is the one the
    cache holds; a reader of the cache looks at its four other keys only.
    [job_id] is the key the view is given and hands to [get_job_status].
    Through the route of [urls.py] that key is the [uuid.UUID] of the path
    converter: the record of the job is found with it as with its string,
    but as a key of the cache it is another key than the string under which
    the pipeline, the upload and [cancel_job] write, so the entries those
    have written are not the entry this view reads through that route. *)
Definition status_api (reverse_results : string → string) (clean : bool) (job_id : string)
    : M StatusResponse :=
  try_except
    (status_info ← get_job_status clean job_id;
     if String_eqb (snap_status status_info) "completed"
     then mret (StatusOk status_info (Some (reverse_results job_id)))
     else mret (StatusOk status_info None))
    (λ _, mret StatusError).

(** The order of [order_by('speaker_id')]. *)
Definition by_speaker_id (a b : string * SpeakerTrack) : Prop := String.leb a.1 b.1 = true.

#[global] Instance by_speaker_id_dec a b : Decision (by_speaker_id a b).
Proof. unfold by_speaker_id. apply _. Defined.

(** The tracks of a job, each with its speaker id. *)
Definition job_tracks (job_id : string) (tracks : gmap (string * string) SpeakerTrack)
    : list (string * SpeakerTrack) :=
  omap (λ kv : (string * string) * SpeakerTrack,
          if String_eqb kv.1.1 job_id then Some (kv.1.2, kv.2) else None)
       (map_to_list tracks).

(** [SpeakerTrack.objects.filter(job=job).order_by('speaker_id')] *)
Definition tracks_of (job_id : string) (tracks : gmap (string * string) SpeakerTrack)
    : list (string * SpeakerTrack) :=
  merge_sort by_speaker_id (job_tracks job_id tracks).

(** The pages the views render: the template and its context. *)
Inductive Page :=
  | StatusPage (job : ProcessingJob)
  | ResultsPage (job : ProcessingJob) (speaker_tracks : list (string * SpeakerTrack))
  | ErrorPage (error_message : string).

(** The view [status] *)
Definition status (job_id : string) : M Page :=
  try_except
    (job ← get_object_or_404 job_id;
     mret (StatusPage job))
    (λ _, mret (ErrorPage "Job not found or an error occurred.")).

(** The view [results] *)
Definition results (job_id : string) : M Page :=
  try_except
    (job ← get_object_or_404 job_id;
     if negb (String_eqb (job_status job) "completed")
     then mret (ErrorPage "Processing not completed yet or failed.")
     else
       speaker_tracks ← gets (λ w, tracks_of job_id (db_tracks w));
       mret (ResultsPage job speaker_tracks))
    (λ _, mret (ErrorPage "Error loading results.")).

(** The view [serve_audio]: the content of the file is the answer; an
    [Http404] that leaves the view is the answer 404. *)
Definition serve_audio (job_id speaker_id : string) : M AudioSegment.t :=
  try_except
    (job ← get_object_or_404 job_id;
     speaker_track ← get_track_or_404 job_id speaker_id;
     found ← path_exists (audio_file_path speaker_track);
     if negb found then raise (Http404 "Audio file not found")
     else read_audio (audio_file_path speaker_track))
    (λ _, raise (Http404 "Audio file not found")).

(** ** Vocabulary of the further properties *)

(** The record of a job after a cancel request served at time [now]. *)
Definition cancelled_job (now : Z) (job : ProcessingJob) : ProcessingJob :=
  mkJob (uploaded_file_path job) "failed" "cancelled" 0 (speaker_count job)
        (output_directory job) (Some "Job cancelled by user") (started_at job) (Some now).

(** The world after [cancel_job job_id]. *)
Definition after_cancel (job_id : string) (w : World) : World :=
  mkWorld (delete job_id (job_statuses w))
          (<[job_id := true]> (job_cancellations w))
          (job_threads w ∖ {[job_id]})
          (match db_jobs w !! job_id with
           | Some job => <[job_id := cancelled_job (clock w) job]> (db_jobs w)
           | None => db_jobs w
           end)
          (db_tracks w) (files w)
          (status_log w ++ [(job_id, mkSnapshot "failed" "cancelled" 0 "Job cancelled by user")])
          (clock w).


(** The world after the cancel requests for [job_ids], in that order. *)
Definition after_cancel_all (job_ids : list string) (w : World) : World :=
  foldl (λ w job_id, after_cancel job_id w) w job_ids.

(** The reaper evicts the cache entry of a job that has no record or whose
    record is stuck. *)
Definition evictable (w : World) (job_id : string) : bool :=
  match db_jobs w !! job_id with
  | None => true
  | Some job => is_stuck (clock w) job
  end.

(** ** Invariants of a run *)

(** [preserves I P m Q]: from a world that satisfies the invariant [I] and
    [P], the computation [m] leaves a world that satisfies [I], whether it
    returns or raises, and [Q a] when it returns [a]. *)
Definition preserves (I : World → Prop) {A} (P : World → Prop) (m : M A)
    (Q : A → World → Prop) : Prop :=
  ∀ w, I w → P w → I (exec m w) ∧ ∀ a, result m w = Val a → Q a (exec m w).

(** What a run of the pipeline for [job_id], started in [w0], may have
    changed when it has reached [w]: nothing of the flags, the thread
    entries and the clock; no record, cache entry or track of another job;
    no track that was there; no file but the converted file and the speaker
    files of the job; and of the record of the job neither the upload path
    nor a start time that was set. It creates no record. *)
Definition run_footprint (env : Env) (job_id : string) (w0 w : World) : Prop :=
  job_cancellations w = job_cancellations w0
  ∧ job_threads w = job_threads w0
  ∧ clock w = clock w0
  ∧ (∀ other, other ≠ job_id →
       db_jobs w !! other = db_jobs w0 !! other
       ∧ job_statuses w !! other = job_statuses w0 !! other)
  ∧ (∀ other speaker_id, other ≠ job_id →
       db_tracks w !! (other, speaker_id) = db_tracks w0 !! (other, speaker_id))
  ∧ (∀ speaker_id track,
       db_tracks w0 !! (job_id, speaker_id) = Some track →
       db_tracks w !! (job_id, speaker_id) = Some track)
  ∧ (∀ path,
       path ≠ converted_path env job_id →
       (∀ speaker_id, path ≠ speaker_path env job_id speaker_id) →
       files w !! path = files w0 !! path)
  ∧ match db_jobs w0 !! job_id with
    | None => db_jobs w !! job_id = None
    | Some job =>
        ∃ job', db_jobs w !! job_id = Some job'
                ∧ uploaded_file_path job' = uploaded_file_path job
                ∧ ∀ t, started_at job = Some t → started_at job' = Some t
    end.

Definition anywhere : World → Prop := λ _, True.
Definition anything {A} : A → World → Prop := λ _ _, True.

(** The status writes of the pipeline: progress reports, the completion, and
    failures at progress 0. *)
Definition pipeline_write (status : string) (progress : Z) : Prop :=
  status = "processing" ∨ status = "completed" ∨ (status = "failed" ∧ progress = 0).

(** What Transcribing returns when the engine transcribes: the segments
    with the speakers of the diarization, or, when the diarization fails,
    the fallback assignment on the aligned segments (on the segments as
    transcribed when the alignment failed too). *)
Definition transcript_of (segments : list Segment) (align : AlignOutcome)
    (diarize : DiarizeOutcome) : list Segment :=
  match diarize with
  | DiarizeOk _ assigned => assigned
  | DiarizeTimeout _ | DiarizeError _ =>
      fallback_speaker_assignment
        match align with
        | AlignOk aligned => aligned
        | AlignTimeout | AlignError => segments
        end
  end.

(** The sample world without the upload. *)
Definition lost_upload_world : World :=
  with_files (delete "/uploads/job-1.mp3") sample_world.

(** The sample settings with an engine that hears nothing. *)
Definition silent_env : Env :=
  mkEnv "/tmp" "/out" true None (λ _, true) (Transcribes [] AlignError (DiarizeOk 0 []))
        (λ _, "2.0").

(** The distinct elements of [l] that are not in [seen], in the order of
    their first occurrence. *)
Fixpoint first_occurrences (seen l : list string) : list string :=
  match l with
  | [] => []
  | x :: rest =>
      if decide (x ∈ seen) then first_occurrences seen rest
      else x :: first_occurrences (seen ++ [x]) rest
  end.

(** What the fallback does to one segment: it sets the speaker to one of
    the two tags and nothing else. *)
Definition relabelled (segment out : Segment) : Prop :=
  out = with_speaker "SPEAKER_00" segment ∨ out = with_speaker "SPEAKER_01" segment.

(** The exceptions of the inner loop of Separating: a missing key, or a time
    that [int] refuses once it is multiplied by 1000. *)
Definition time_error (e : Exn) : Prop :=
  e = KeyError "start" ∨ e = KeyError "end"
  ∨ e = OverflowError "cannot convert float infinity to integer"
  ∨ e = ValueError "cannot convert float NaN to integer".

(** A start of 0.009 s, read as the nearest binary64 number. *)
#[warnings="-inexact-float"] Definition nine_thousandths : float := 0.009.

(** From [w] to [w'] only the status of jobs has changed: the flags, the
    files and the tracks are the same. *)
Definition status_only (w w' : World) : Prop :=
  job_cancellations w' = job_cancellations w
  ∧ files w' = files w
  ∧ db_tracks w' = db_tracks w.

(** The transcript Transcribing returns, from what it finds. *)
Definition transcript_for (env : Env) (job_id wav_path : string) (w : World) : list Segment :=
  if cancelled job_id w then mock_result
  else match files w !! wav_path with
       | None => mock_result
       | Some _ =>
           match engine env with
           | Transcribes segments align diarize => transcript_of segments align diarize
           | ImportFails | LoadModelFails | TranscribeFails => mock_result
           end
       end.

(** When the cancellation flag of the job is set, its record, if it has one,
    is 'failed' with progress 0. *)
Definition failed_once_cancelled (job_id : string) (w : World) : Prop :=
  job_cancellations w !! job_id = Some true →
  ∀ job, db_jobs w !! job_id = Some job →
         job_status job = "failed" ∧ progress_percentage job = 0.

(** The sample world when the pipeline of job-1 is about to separate and a
    cancel request is served. *)
Definition cancelled_run : M unit :=
  run_separation_pipeline_with sample_env (cancel_before Separating "job-1") "job-1".




(** The files after the exports of Separating for [items]. *)
Definition with_speaker_files (env : Env) (job_id : string) (audio : AudioSegment.t)
    (items : SpeakerSegments) (fs : gmap string AudioSegment.t) : gmap string AudioSegment.t :=
  foldl (λ fs kv, <[speaker_path env job_id kv.1 := spans_each_followed_by_gap audio kv.2]> fs)
    fs items.




(** ** Uploads *)

(** An uploaded file: its name, its bytes, and the audio these bytes decode
    to, which is what the file system of this model keeps for a path. *)
Record UploadedFile := mkUpload {
  upload_name : string;
  upload_content : string;
  upload_audio : AudioSegment.t
}.

(** [uploaded_file.size] *)
Definition upload_size (f : UploadedFile) : Z := Z.of_nat (String.length (upload_content f)).

(** The settings the upload path reads. *)
Record Settings := mkSettings {
  MAX_UPLOAD_SIZE : Z;
  AUDIO_UPLOAD_PATH : string
}.

Definition ALLOWED_AUDIO_FORMATS : list string :=
  [".mp3"; ".wav"; ".flac"; ".m4a"; ".aac"; ".ogg"].

(** The class [\w] of a pattern on [str]: the underscore and the code points
    that [str.isalnum] accepts. Below 128 these are the letters and the
    digits; from 128 to 255 they are 170, 178, 179, 181, 185, 186, 188 to
    190, 192 to 214, 216 to 246 and 248 to 255. *)
Definition word_char (c : ascii) : bool :=
  let n := Ascii.N_of_ascii c in
  ((97 <=? n) && (n <=? 122) || (65 <=? n) && (n <=? 90) || (48 <=? n) && (n <=? 57)
   || (n =? 95)
   || (n =? 170) || (n =? 178) || (n =? 179) || (n =? 181) || (n =? 185) || (n =? 186)
   || (188 <=? n) && (n <=? 190) || (192 <=? n) && (n <=? 214)
   || (216 <=? n) && (n <=? 246) || (248 <=? n) && (n <=? 255))%N.

(** The class [[\w\-_\.]] of [clean_audio_file], which is also the class
    [[\w.-]] of [save_uploaded_file]. *)
Definition filename_char (c : ascii) : bool :=
  let n := Ascii.N_of_ascii c in
  (word_char c || (n =? 45) || (n =? 46))%N.

(** [re.sub(r'[^...]', '', s)] for a class of characters: the characters of
    the class are kept. *)
Fixpoint string_filter (keep : ascii → bool) (s : string) : string :=
  match s with
  | EmptyString => EmptyString
  | String c rest => if keep c then String c (string_filter keep rest) else string_filter keep rest
  end.

(** [os.path.splitext(p)[1]]: from the last dot of the last component, unless
    only dots come before it. *)
Definition splitext_ext (p : string) : string :=
  let name := match rsplit "/"%char p with Some (_, n) => n | None => p end in
  match rsplit "."%char name with
  | Some (stem, suffix) =>
      if string_forallb (λ c, bool_decide (c = "."%char)) stem then "" else "." +:+ suffix
  | None => ""
  end.

(** [s.lower()]: of the code points below 256 the capital letters are 65
    to 90, 192 to 214 and 216 to 222, and the small letter of each is 32
    further. *)
Definition lower_char (c : ascii) : ascii :=
  let n := Ascii.N_of_ascii c in
  if ((65 <=? n) && (n <=? 90) || (192 <=? n) && (n <=? 214) || (216 <=? n) && (n <=? 222))%N
  then Ascii.ascii_of_N (n + 32) else c.

Fixpoint lower (s : string) : string :=
  match s with
  | EmptyString => EmptyString
  | String c rest => String (lower_char c) (lower rest)
  end.

(** [s[:n]] *)
Fixpoint string_take (n : nat) (s : string) : string :=
  match n, s with
  | S n', String c rest => String c (string_take n' rest)
  | _, _ => EmptyString
  end.

(** [s[n:]] *)
Fixpoint string_drop (n : nat) (s : string) : string :=
  match n, s with
  | S n', String _ rest => string_drop n' rest
  | _, _ => s
  end.

(** A byte string from the values of its bytes. *)
Definition bytes (l : list N) : string :=
  foldr (λ n s, String (Ascii.ascii_of_N n) s) EmptyString l.

(** [magic_numbers.get(file_extension, [])] *)
Definition magic_numbers (file_extension : string) : list string :=
  if String_eqb file_extension ".mp3"
  then ["ID3"; bytes [255; 251]; bytes [255; 243]; bytes [255; 242]]%N
  else if String_eqb file_extension ".wav" then ["RIFF"]
  else if String_eqb file_extension ".flac" then ["fLaC"]
  else if String_eqb file_extension ".m4a" then [bytes [0; 0; 0]; "ftyp"]%N
  else if String_eqb file_extension ".aac" then [bytes [255; 241]; bytes [255; 249]]%N
  else if String_eqb file_extension ".ogg" then ["OggS"]
  else [].

(** The validation errors of the upload form, by their messages: the first
    three are those of [forms.FileField], the others those of
    [clean_audio_file]. *)
Inductive UploadError :=
  | Required          (* "This field is required." *)
  | InvalidUpload     (* "No file was submitted. ..." *)
  | EmptyUpload       (* "The submitted file is empty." *)
  | NoFile            (* "Please select an audio file." *)
  | TooLarge          (* "File size must be less than ...MB. Your file is ...MB." *)
  | TooSmall          (* "File is too small to be a valid audio file." *)
  | BadFilename       (* "Filename contains invalid characters. ..." *)
  | BadFormat         (* "File format not supported. Supported formats: ..." *)
  | BadContent (file_extension : string)
                      (* "File content does not match the ... format. ..." *)
  | BadWav.           (* "Invalid WAV file format." *)

(** A required [forms.FileField]: a request without the file, a file without
    name and a file without content are refused. *)
Definition clean_file_field (data : option UploadedFile) : UploadError + UploadedFile :=
  match data with
  | None => inl Required
  | Some f =>
      if String_eqb (upload_name f) "" then inl InvalidUpload
      else if bool_decide (upload_size f = 0) then inl EmptyUpload
      else inr f
  end.

(** [audio_file.read(16)] from the start of the file *)
Definition header (f : UploadedFile) : string := string_take 16 (upload_content f).

(** [FileUploadForm.clean_audio_file]; a file without name is false. *)
Definition clean_audio_file (settings : Settings) (audio_file : option UploadedFile)
    : UploadError + UploadedFile :=
  match audio_file with
  | None => inl NoFile
  | Some f =>
      if String_eqb (upload_name f) "" then inl NoFile
      else if bool_decide (MAX_UPLOAD_SIZE settings < upload_size f) then inl TooLarge
      else if bool_decide (upload_size f < 1024) then inl TooSmall
      else
        let safe_filename := string_filter filename_char (upload_name f) in
        if String_eqb safe_filename "" || negb (String_eqb safe_filename (upload_name f))
        then inl BadFilename
        else
          let file_extension := lower (splitext_ext (upload_name f)) in
          if negb (in_list file_extension ALLOWED_AUDIO_FORMATS) then inl BadFormat
          else
            let expected_magic := magic_numbers file_extension in
            if match expected_magic with [] => false | _ :: _ => true end
               && negb (existsb (λ magic, String.prefix magic (header f)) expected_magic)
            then inl (BadContent file_extension)
            else if String_eqb file_extension ".wav"
                    && bool_decide (12 ≤ String.length (header f))%nat
                    && negb (String_eqb (string_take 4 (string_drop 8 (header f))) "WAVE")
            then inl BadWav
            else inr f
  end.

(** [FileUploadForm]: the field is cleaned first, and [clean_audio_file]
    runs on what the field gives; the form is valid when the result is a
    file, which is then [form.cleaned_data['audio_file']]. *)
Definition file_upload_form (settings : Settings) (data : option UploadedFile)
    : UploadError + UploadedFile :=
  match clean_file_field data with
  | inr f => clean_audio_file settings (Some f)
  | inl error => inl error
  end.

(** [save_uploaded_file]; [uuid_ok] is whether [uuid.UUID(job_id)] accepts
    the id. A name made of such an id and a sanitized extension lies in the
    upload directory, so the check of the resolved path passes; the disk
    takes the chunks, so the size of the file is the size of the upload. *)
Definition save_uploaded_file (settings : Settings) (uuid_ok : bool)
    (uploaded_file : UploadedFile) (job_id : string) : M string :=
  try_except
    (if negb uuid_ok then raise (Exception ("Invalid job ID format: " +:+ job_id))
     else
       let safe_extension :=
         string_filter filename_char (lower (splitext_ext (upload_name uploaded_file))) in
       if String_eqb safe_extension "" || negb (in_list safe_extension ALLOWED_AUDIO_FORMATS)
       then raise (Exception ("Invalid or unsafe file extension: " +:+ safe_extension))
       else
         let filename := job_id +:+ safe_extension in
         let file_path := AUDIO_UPLOAD_PATH settings +:+ "/" +:+ filename in
         modify (with_files (insert file_path (upload_audio uploaded_file)));;
         mret file_path)
    (λ e, raise e).

(** [ProcessingJob.objects.create(job_id=job_id, ...)]: [job_id] is unique.
    The lengths of the columns are not checked, as with SQLite. *)
Definition objects_create (job_id : string) (job : ProcessingJob) : M ProcessingJob :=
  λ w, match db_jobs w !! job_id with
       | Some _ => (w, Raise IntegrityError)
       | None => (with_db_jobs (insert job_id job) w, Val job)
       end.

(** [create_processing_job]; [job_id] is [str(uuid.uuid4())], which
    [uuid.UUID] accepts. The job is returned with its id. *)
Definition create_processing_job (settings : Settings) (uploaded_file : UploadedFile)
    (job_id : string) : M (string * ProcessingJob) :=
  try_except
    (file_path ← save_uploaded_file settings true uploaded_file job_id;
     job ← objects_create job_id
              (mkJob file_path "pending" "uploaded" 0 None None None None None);
     modify (with_job_statuses
               (insert job_id (mkSnapshot "pending" "uploaded" 0 "File uploaded successfully")));;
     mret (job_id, job))
    (λ e, raise e).

(** The JSON answers of [upload_file], with their HTTP status. *)
Inductive UploadResponse :=
  | UploadStarted (job_id redirect_url : string)   (* 200 *)
  | UploadInvalid (errors : list UploadError)       (* 400 *)
  | UploadUnexpected.                               (* 500 *)

(** The view [upload_file]: [audio_file] is the file of the request, if any,
    [job_id] the id the service draws, and [reverse_status job_id] is
    [reverse('processor:status', kwargs={'job_id': job_id})]. *)
Definition upload_file (settings : Settings) (reverse_status : string → string)
    (audio_file : option UploadedFile) (job_id : string) : M UploadResponse :=
  try_except
    (match file_upload_form settings audio_file with
     | inr uploaded_file =>
         created ← create_processing_job settings uploaded_file job_id;
         start_processing_job created.1;;
         mret (UploadStarted created.1 (reverse_status created.1))
     | inl error => mret (UploadInvalid [error])
     end)
    (λ _, mret UploadUnexpected).

(** A WAV upload of 1 KB and the settings of production, for the examples. *)
Definition production_settings : Settings :=
  mkSettings (100 * 1024 * 1024) "/app/media/uploads".

Definition wav_upload : UploadedFile :=
  mkUpload "Interview_01.WAV"
    ("RIFF" +:+ bytes [36; 4; 0; 0]%N +:+ "WAVE" +:+ bytes (replicate 1012 0%N))
    [1; 2; 3].

(** The record and the cache entry of a job that has just been created. *)
Definition new_job (file_path : string) : ProcessingJob :=
  mkJob file_path "pending" "uploaded" 0 None None None None None.

Definition uploaded_status : Snapshot :=
  mkSnapshot "pending" "uploaded" 0 "File uploaded successfully".

(** The path under which the upload of a job is stored. *)
Definition upload_path (settings : Settings) (f : UploadedFile) (job_id : string) : string :=
  AUDIO_UPLOAD_PATH settings +:+ "/" +:+ job_id
    +:+ string_filter filename_char (lower (splitext_ext (upload_name f))).

(** The world after the upload of [f] alone. *)
Definition after_save (settings : Settings) (f : UploadedFile) (job_id : string) (w : World)
    : World :=
  with_files (insert (upload_path settings f job_id) (upload_audio f)) w.

(** The world after an upload that has started a job. *)
Definition after_upload (settings : Settings) (f : UploadedFile) (job_id : string) (w : World)
    : World :=
  with_job_threads (λ s, s ∪ {[job_id]})
    (with_job_statuses (insert job_id uploaded_status)
       (with_db_jobs (insert job_id (new_job (upload_path settings f job_id)))
          (after_save settings f job_id w))).


(** * Properties *)

(** ** Monad laws used by the proofs *)

Lemma bind_unfold {A B} (m : M A) (k : A → M B) (w : World) :
  (m ≫= k) w = match m w with
                | (w', Val a) => k a w'
                | (w', Raise e) => (w', Raise e)
                end.
Proof. reflexivity. Qed.

Lemma String_eqb_eq (a b : string) : String_eqb a b = true ↔ a = b.
Proof. unfold String_eqb. apply bool_decide_eq_true. Qed.

Lemma in_list_true (x : string) (l : list string) : in_list x l = true ↔ x ∈ l.
Proof. unfold in_list. apply bool_decide_eq_true. Qed.

Lemma in_list_false (x : string) (l : list string) : in_list x l = false ↔ x ∉ l.
Proof. unfold in_list. apply bool_decide_eq_false. Qed.

(** ** Status writes *)

Lemma update_job_status_eq w job_id status step progress message :
  update_job_status job_id status step progress message w =
    if discarded w job_id status then (w, Val tt)
    else match db_jobs w !! job_id with
         | Some job => (written job_id status step progress message job w, Val tt)
         | None => (written_cache_only job_id status step progress message w, Val tt)
         end.
Proof.
  unfold update_job_status, try_except, discarded.
  rewrite bind_unfold. unfold check_job_cancelled, gets. simpl.
  destruct (default false (job_cancellations w !! job_id) && _); [reflexivity |].
  repeat (rewrite bind_unfold; simpl).
  unfold objects_get. simpl.
  destruct (db_jobs w !! job_id); reflexivity.
Qed.

Lemma update_job_status_skip w job_id status step progress message :
  discarded w job_id status = true →
  update_job_status job_id status step progress message w = (w, Val tt).
Proof. intros H. rewrite update_job_status_eq, H. reflexivity. Qed.

Lemma discarded_when_flag_set w job_id status :
  job_cancellations w !! job_id = Some true →
  status ≠ "failed" →
  status ≠ "cancelled" →
  discarded w job_id status = true.
Proof.
  intros Hflag Hfailed Hcancelled. unfold discarded. rewrite Hflag. simpl.
  apply negb_true_iff, in_list_false.
  intros Hin. apply elem_of_cons in Hin as [-> | Hin]; [done |].
  apply elem_of_cons in Hin as [-> | Hin]; [done |].
  by apply elem_of_nil in Hin.
Qed.

(** C10: once the cancellation flag of a job is set, a status write whose
    status is neither 'failed' nor 'cancelled' is discarded: the call
    returns normally and the whole world, cache entry and durable record
    included, is what it was. *)
Theorem update_job_status_discarded_when_cancelled
    (w : World) (job_id status step : string) (progress : Z) (message : string) :
  job_cancellations w !! job_id = Some true →
  status ≠ "failed" →
  status ≠ "cancelled" →
  update_job_status job_id status step progress message w = (w, Val tt)
  ∧ job_statuses (exec (update_job_status job_id status step progress message) w)
      = job_statuses w
  ∧ db_jobs (exec (update_job_status job_id status step progress message) w) = db_jobs w.
Proof.
  intros Hflag Hfailed Hcancelled.
  pose proof (update_job_status_skip w job_id status step progress message
                (discarded_when_flag_set w job_id status Hflag Hfailed Hcancelled)) as Heq.
  unfold exec. rewrite Heq. auto.
Qed.

(** While the flag is set, a status write that changes the world records
    'failed' or 'cancelled'. *)
Lemma cancelled_job_only_fails
    (w : World) (job_id status step : string) (progress : Z) (message : string) :
  job_cancellations w !! job_id = Some true →
  exec (update_job_status job_id status step progress message) w ≠ w →
  status = "failed" ∨ status = "cancelled".
Proof.
  intros Hflag Hchanged.
  destruct (decide (status = "failed")) as [|Hf]; [by left |].
  destruct (decide (status = "cancelled")) as [|Hc]; [by right |].
  exfalso. apply Hchanged. unfold exec.
  by rewrite (update_job_status_skip w job_id status step progress message
                (discarded_when_flag_set w job_id status Hflag Hf Hc)).
Qed.

Lemma update_job_status_discarded_witness :
  update_job_status "job-1" "processing" "converting" 10 "Loading audio file..." cancelled_world
    = (cancelled_world, Val tt)
  ∧ job_statuses
      (exec (update_job_status "job-1" "processing" "converting" 10 "Loading audio file...")
         cancelled_world)
      = job_statuses cancelled_world
  ∧ db_jobs
      (exec (update_job_status "job-1" "processing" "converting" 10 "Loading audio file...")
         cancelled_world)
      = db_jobs cancelled_world.
Proof.
  apply (update_job_status_discarded_when_cancelled cancelled_world "job-1" "processing"
           "converting" 10 "Loading audio file...").
  - vm_compute. reflexivity.
  - discriminate.
  - discriminate.
Defined.



(** ** The reaper *)

Lemma timed_out_not_stuck now now' job : is_stuck now' (timed_out now job) = false.
Proof. reflexivity. Qed.

Lemma reaped_idem now job : reaped now (reaped now job) = reaped now job.
Proof.
  unfold reaped. destruct (is_stuck now job) eqn:Hs.
  - by rewrite timed_out_not_stuck.
  - by rewrite Hs.
Qed.

(** One iteration of the scan. *)
Lemma scan_cache_cons job_id rest stale_jobs w :
  scan_cache (job_id :: rest) stale_jobs w =
    match db_jobs w !! job_id with
    | None => scan_cache rest (stale_jobs ++ [job_id]) w
    | Some job =>
        if is_stuck (clock w) job
        then scan_cache rest (stale_jobs ++ [job_id])
               (with_db_jobs (insert job_id (timed_out (clock w) job)) w)
        else scan_cache rest stale_jobs w
    end.
Proof.
  simpl. rewrite bind_unfold. unfold try_except.
  rewrite bind_unfold. unfold objects_get.
  destruct (db_jobs w !! job_id) as [job |]; [| reflexivity].
  rewrite bind_unfold. simpl.
  destruct (is_stuck (clock w) job); reflexivity.
Qed.

(** The scan returns normally, changes nothing but job records, reaps the
    records of the ids it is given, and reports the stuck ones among them. *)
Lemma scan_cache_spec job_ids : ∀ stale_jobs w,
  ∃ db stale,
    scan_cache job_ids stale_jobs w = (with_db_jobs (λ _, db) w, Val stale)
    ∧ (∀ k, db !! k = if decide (k ∈ job_ids) then reaped (clock w) <$> db_jobs w !! k
                      else db_jobs w !! k)
    ∧ (∀ k, k ∈ stale_jobs → k ∈ stale)
    ∧ (∀ k job, k ∈ job_ids → db_jobs w !! k = Some job → is_stuck (clock w) job = true →
         k ∈ stale).
Proof.
  induction job_ids as [| k0 rest IH]; intros stale_jobs w.
  - exists (db_jobs w), stale_jobs. split; [by destruct w |].
    split; [| split]; [| done |].
    + intros k. by rewrite decide_False by apply not_elem_of_nil.
    + intros k job Hin. by apply elem_of_nil in Hin.
  - rewrite scan_cache_cons.
    destruct (db_jobs w !! k0) as [job0 |] eqn:Hk0.
    + destruct (is_stuck (clock w) job0) eqn:Hstuck.
      * destruct (IH (stale_jobs ++ [k0])
                    (with_db_jobs (insert k0 (timed_out (clock w) job0)) w))
          as (db & stale & Heq & Hdb & Hacc & Hstale).
        exists db, stale. split; [exact Heq |]. simpl in *.
        split; [| split].
        -- intros k. rewrite Hdb.
           destruct (decide (k = k0)) as [-> | Hne].
           ++ rewrite lookup_insert_eq, Hk0.
              rewrite (decide_True (P := k0 ∈ k0 :: rest)) by apply list_elem_of_here.
              simpl. unfold reaped at 2. rewrite Hstuck.
              destruct (decide (k0 ∈ rest)); [| done].
              simpl. unfold reaped. by rewrite timed_out_not_stuck.
           ++ rewrite lookup_insert_ne by done.
              destruct (decide (k ∈ rest)) as [Hin | Hnin].
              ** by rewrite decide_True by (by apply list_elem_of_further).
              ** rewrite decide_False; [done |].
                 intros Hin. apply elem_of_cons in Hin as [? | ?]; done.
        -- intros k Hk. apply Hacc, elem_of_app. by left.
        -- intros k job Hin Hjob Hs.
           destruct (decide (k = k0)) as [-> | Hne].
           ++ apply Hacc, elem_of_app. right. apply list_elem_of_here.
           ++ apply elem_of_cons in Hin as [? | Hin]; [done |].
              apply (Hstale k job Hin); [| done].
              by rewrite lookup_insert_ne.
      * destruct (IH stale_jobs w) as (db & stale & Heq & Hdb & Hacc & Hstale).
        exists db, stale. split; [exact Heq |]. split; [| split].
        -- intros k. rewrite Hdb.
           destruct (decide (k = k0)) as [-> | Hne].
           ++ rewrite (decide_True (P := k0 ∈ k0 :: rest)) by apply list_elem_of_here.
              rewrite Hk0. simpl.
              assert (reaped (clock w) job0 = job0) as Hsame
                by (unfold reaped; by rewrite Hstuck).
              destruct (decide (k0 ∈ rest)); simpl; by rewrite ?Hsame.
           ++ destruct (decide (k ∈ rest)) as [Hin | Hnin].
              ** by rewrite decide_True by (by apply list_elem_of_further).
              ** rewrite decide_False; [done |].
                 intros Hin. apply elem_of_cons in Hin as [? | ?]; done.
        -- exact Hacc.
        -- intros k job Hin Hjob Hs.
           destruct (decide (k = k0)) as [-> | Hne].
           ++ rewrite Hk0 in Hjob. injection Hjob as <-. congruence.
           ++ apply elem_of_cons in Hin as [? | Hin]; [done |].
              by apply (Hstale k job Hin).
    + destruct (IH (stale_jobs ++ [k0]) w) as (db & stale & Heq & Hdb & Hacc & Hstale).
      exists db, stale. split; [exact Heq |]. split; [| split].
      * intros k. rewrite Hdb.
        destruct (decide (k = k0)) as [-> | Hne].
        -- rewrite (decide_True (P := k0 ∈ k0 :: rest)) by apply list_elem_of_here.
           rewrite Hk0. by destruct (decide (k0 ∈ rest)).
        -- destruct (decide (k ∈ rest)) as [Hin | Hnin].
           ++ by rewrite decide_True by (by apply list_elem_of_further).
           ++ rewrite decide_False; [done |].
              intros Hin. apply elem_of_cons in Hin as [? | ?]; done.
      * intros k Hk. apply Hacc, elem_of_app. by left.
      * intros k job Hin Hjob Hs.
        destruct (decide (k = k0)) as [-> | Hne]; [congruence |].
        apply elem_of_cons in Hin as [? | Hin]; [done |].
        by apply (Hstale k job Hin).
Qed.

Lemma cached_ids (cache : gmap string Snapshot) (k : string) :
  k ∈ (map_to_list cache).*1 ↔ is_Some (cache !! k).
Proof.
  rewrite list_elem_of_fmap. split.
  - intros ([k' s] & -> & Hin). apply elem_of_map_to_list in Hin. by exists s.
  - intros [s Hs]. exists (k, s). split; [done |]. by apply elem_of_map_to_list.
Qed.

(** The second loop of the reaper: the listed ids leave the cache. *)
Lemma evict_spec (stale_jobs : list string) : ∀ w,
  ∃ cache,
    for_each stale_jobs (λ job_id,
      present ← gets (λ w, bool_decide (is_Some (job_statuses w !! job_id)));
      if present : bool then modify (with_job_statuses (delete job_id)) else mret tt) w
      = (with_job_statuses (λ _, cache) w, Val tt)
    ∧ ∀ k, cache !! k = if decide (k ∈ stale_jobs) then None else job_statuses w !! k.
Proof.
  induction stale_jobs as [| k0 rest IH]; intros w.
  - exists (job_statuses w). split; [by destruct w |].
    intros k. by rewrite decide_False by apply not_elem_of_nil.
  - simpl. rewrite bind_unfold, bind_unfold. unfold gets. simpl.
    destruct (bool_decide (is_Some (job_statuses w !! k0))) eqn:Hpresent; simpl.
    + destruct (IH (with_job_statuses (delete k0) w)) as (cache & Heq & Hcache).
      exists cache. split; [exact Heq |].
      intros k. rewrite Hcache. simpl.
      destruct (decide (k = k0)) as [-> | Hne].
      * rewrite lookup_delete_eq.
        rewrite (decide_True (P := k0 ∈ k0 :: rest)) by apply list_elem_of_here.
        by destruct (decide (k0 ∈ rest)).
      * rewrite lookup_delete_ne by done.
        destruct (decide (k ∈ rest)) as [Hin | Hnin].
        -- by rewrite decide_True by (by apply list_elem_of_further).
        -- rewrite decide_False; [done |].
           intros Hin. apply elem_of_cons in Hin as [? | ?]; done.
    + destruct (IH w) as (cache & Heq & Hcache).
      exists cache. split; [exact Heq |].
      intros k. rewrite Hcache.
      apply bool_decide_eq_false in Hpresent.
      destruct (decide (k = k0)) as [-> | Hne].
      * rewrite (decide_True (P := k0 ∈ k0 :: rest)) by apply list_elem_of_here.
        destruct (decide (k0 ∈ rest)); [done |].
        destruct (job_statuses w !! k0) eqn:Hk0; [| done].
        exfalso. apply Hpresent. by eexists.
      * destruct (decide (k ∈ rest)) as [Hin | Hnin].
        -- by rewrite decide_True by (by apply list_elem_of_further).
        -- rewrite decide_False; [done |].
           intros Hin. apply elem_of_cons in Hin as [? | ?]; done.
Qed.

(** One pass of the reaper: it returns normally and touches job records and
    the cache only; the record of every cached id is reaped, the records of
    the other ids are what they were; a cache entry is either gone or what it
    was, and it is gone for every cached id whose record was stuck. *)
Lemma clean_stale_cache_entries_spec (w : World) :
  ∃ db cache,
    clean_stale_cache_entries w
      = (with_job_statuses (λ _, cache) (with_db_jobs (λ _, db) w), Val tt)
    ∧ (∀ k, db !! k = if decide (is_Some (job_statuses w !! k))
                      then reaped (clock w) <$> db_jobs w !! k
                      else db_jobs w !! k)
    ∧ (∀ k, cache !! k = None ∨ cache !! k = job_statuses w !! k)
    ∧ (∀ k job, is_Some (job_statuses w !! k) → db_jobs w !! k = Some job →
         is_stuck (clock w) job = true → cache !! k = None).
Proof.
  unfold clean_stale_cache_entries.
  rewrite bind_unfold. unfold gets at 1. simpl.
  destruct (scan_cache_spec (map_to_list (job_statuses w)).*1 [] w)
    as (db & stale & Hscan & Hdb & _ & Hstale).
  rewrite bind_unfold, Hscan.
  destruct (evict_spec stale (with_db_jobs (λ _, db) w)) as (cache & Hevict & Hcache).
  rewrite Hevict. exists db, cache. split; [reflexivity |].
  split; [| split].
  - intros k. rewrite Hdb.
    destruct (decide (k ∈ (map_to_list (job_statuses w)).*1)) as [Hin | Hnin].
    + by rewrite decide_True by (by apply cached_ids).
    + rewrite decide_False; [done |]. by rewrite <- cached_ids.
  - intros k. rewrite Hcache. simpl. destruct (decide (k ∈ stale)); auto.
  - intros k job Hcached Hjob Hstuck. rewrite Hcache.
    rewrite decide_True; [done |].
    apply (Hstale k job); [by apply cached_ids | done | done].
Qed.

Lemma is_stuck_true now job started :
  job_status job = "processing" →
  started_at job = Some started →
  started < now - stale_after →
  is_stuck now job = true.
Proof.
  intros Hstatus Hstarted Hlate. unfold is_stuck. rewrite Hstatus, Hstarted.
  simpl. apply bool_decide_eq_true. lia.
Qed.




(** ** Status reads *)

Lemma terminal_not_stuck now job :
  job_status job = "completed" ∨ job_status job = "failed" → reaped now job = job.
Proof.
  intros [H | H]; unfold reaped, is_stuck; by rewrite H.
Qed.



(** For a job that is not terminal the cache entry, when there is one, is
    what a read without reaper pass returns. *)
Lemma get_job_status_in_flight_reads_cache
    (w : World) (job_id : string) (job : ProcessingJob) (cached : Snapshot) :
  db_jobs w !! job_id = Some job →
  job_status job ≠ "completed" →
  job_status job ≠ "failed" →
  job_statuses w !! job_id = Some cached →
  get_job_status false job_id w = (w, Val cached).
Proof.
  intros Hjob Hc Hf Hcached.
  unfold get_job_status, try_except. rewrite bind_unfold. cbn [mret M_ret ret].
  rewrite bind_unfold. unfold objects_get. rewrite Hjob.
  replace (in_list (job_status job) ["completed"; "failed"]) with false.
  - rewrite bind_unfold. unfold gets. by rewrite Hcached.
  - symmetry. apply in_list_false. intros Hin.
    apply elem_of_cons in Hin as [? | Hin]; [done |].
    apply elem_of_cons in Hin as [? | Hin]; [done |].
    by apply elem_of_nil in Hin.
Qed.

(** ** The fallback speaker assignment *)

Lemma speaker_tag_0 : speaker_tag 0 = "SPEAKER_00".
Proof. reflexivity. Qed.

Lemma speaker_tag_1 : speaker_tag 1 = "SPEAKER_01".
Proof. reflexivity. Qed.

Lemma next_speaker_bit cs le segment :
  cs = 0 ∨ cs = 1 → next_speaker cs le segment = 0 ∨ next_speaker cs le segment = 1.
Proof. unfold next_speaker. destruct (gtb _ _); lia. Qed.

Lemma fallback_loop_cons cs le segment rest :
  fallback_loop cs le (segment :: rest) =
    with_speaker (speaker_tag (next_speaker cs le segment)) segment
      :: fallback_loop (next_speaker cs le segment) (end_time segment) rest.
Proof. reflexivity. Qed.



(** The difference is the rounded one: 2.1 - 0.1 is 2.0 in binary64, which
    does not exceed 2.0, so a segment that starts at 2.1 after one that ends
    at 0.1 keeps the speaker. *)
Lemma rounded_gap_keeps_speaker :
  match rounded_gap_segments with
  | [prev; cur] => gap prev cur = 2.0%float
  | _ => False
  end
  ∧ seg_speaker <$> fallback_speaker_assignment rounded_gap_segments
      = [Some "SPEAKER_00"; Some "SPEAKER_00"].
Proof. split; reflexivity. Qed.



(** ** Separating *)

Lemma milliseconds_finite (x : float) :
  finite (PrimFloat.mul x 1000) = true → milliseconds x = Val (ms x).
Proof.
  unfold finite, ms, milliseconds, int_of_float.
  by destruct (FloatOps.Prim2SF (PrimFloat.mul x 1000)).
Qed.

Lemma milliseconds_not_finite (x : float) :
  finite (PrimFloat.mul x 1000) = false →
  milliseconds x = Raise (OverflowError "cannot convert float infinity to integer")
  ∨ milliseconds x = Raise (ValueError "cannot convert float NaN to integer").
Proof.
  unfold finite, milliseconds, int_of_float.
  destruct (FloatOps.Prim2SF (PrimFloat.mul x 1000)); try discriminate; auto.
Qed.

(** The inner loop appends, for every segment, its span and then half a
    second of silence. *)
Lemma speaker_track_audio_eq (audio : AudioSegment.t) (segments : list Segment) :
  ∀ speaker_audio,
    Forall has_times segments →
    speaker_track_audio audio speaker_audio segments
      = Val (speaker_audio ++ spans_each_followed_by_gap audio segments).
Proof.
  induction segments as [| segment rest IH]; intros speaker_audio Htimes.
  - simpl. by rewrite app_nil_r.
  - apply Forall_cons in Htimes as [(start & end_ & Hstart & Hend & Hfs & Hfe) Hrest].
    destruct segment as [seg_start0 seg_end0 text speaker]. simpl in Hstart, Hend. subst.
    cbn [speaker_track_audio seg_start seg_end field].
    rewrite (milliseconds_finite _ Hfs), (milliseconds_finite _ Hfe).
    rewrite (IH _ Hrest). f_equal.
    unfold spans_each_followed_by_gap, AudioSegment.add, span, start_time.
    cbn [fmap list_fmap mjoin list_join default from_option id seg_start seg_end].
    by rewrite <- !app_assoc.
Qed.

Lemma segments_of_missing (d : SpeakerSegments) speaker :
  speaker ∉ d.*1 → segments_of d speaker = [].
Proof.
  unfold segments_of. induction d as [| [k v] d IH]; simpl; [done |].
  intros Hnotin. apply not_elem_of_cons in Hnotin as [Hne Hnotin].
  destruct (String_eqb k speaker) eqn:Hk; [by apply String_eqb_eq in Hk |].
  by apply IH.
Qed.

Lemma String_eqb_neq (a b : string) : String_eqb a b = false ↔ a ≠ b.
Proof. unfold String_eqb. apply bool_decide_eq_false. Qed.

Lemma segments_of_cons k v (d : SpeakerSegments) speaker :
  segments_of ((k, v) :: d) speaker = if String_eqb k speaker then v else segments_of d speaker.
Proof. unfold segments_of. simpl. by destruct (String_eqb k speaker). Qed.

(** The speaker already has a list: the segment goes at its end. *)
Lemma segments_of_extended (d : SpeakerSegments) segment speaker :
  segments_of
    ((λ kv, if String_eqb kv.1 (speaker_of segment) then (kv.1, kv.2 ++ [segment]) else kv)
       <$> d) speaker =
    if decide (speaker_of segment = speaker ∧ speaker ∈ d.*1)
    then segments_of d speaker ++ [segment]
    else segments_of d speaker.
Proof.
  induction d as [| [k v] d IH].
  - rewrite decide_False; [done |]. intros [_ Hin]. by apply elem_of_nil in Hin.
  - cbn [fmap list_fmap fst snd] in *.
    destruct (String_eqb k (speaker_of segment)) eqn:Hk; rewrite !segments_of_cons.
    + apply String_eqb_eq in Hk. subst k.
      destruct (String_eqb (speaker_of segment) speaker) eqn:Hs.
      * apply String_eqb_eq in Hs. rewrite decide_True; [done |].
        split; [done |]. rewrite <- Hs. apply list_elem_of_here.
      * apply String_eqb_neq in Hs. rewrite IH.
        rewrite !decide_False; [done | |]; by intros [? _].
    + apply String_eqb_neq in Hk.
      destruct (String_eqb k speaker) eqn:Hs.
      * apply String_eqb_eq in Hs. subst k.
        rewrite decide_False; [done |]. intros [Heq _]. by symmetry in Heq.
      * apply String_eqb_neq in Hs. rewrite IH.
        destruct (decide (speaker_of segment = speaker ∧ speaker ∈ d.*1)) as [[Heq Hin] | Hnot].
        -- rewrite decide_True; [done |]. split; [done |]. by apply list_elem_of_further.
        -- rewrite decide_False; [done |]. intros [Heq Hin]. apply Hnot. split; [done |].
           apply elem_of_cons in Hin as [? | ?]; [by subst k | done].
Qed.

(** The speaker is new: its list is started after those of the others. *)
Lemma segments_of_started (d : SpeakerSegments) segment speaker :
  segments_of (d ++ [(speaker_of segment, [segment])]) speaker =
    if decide (speaker ∈ d.*1) then segments_of d speaker
    else if decide (speaker_of segment = speaker) then [segment] else [].
Proof.
  induction d as [| [k v] d IH].
  - rewrite decide_False by apply not_elem_of_nil.
    cbn [app]. rewrite segments_of_cons.
    destruct (decide (speaker_of segment = speaker)) as [Heq | Hne].
    + by rewrite (proj2 (String_eqb_eq _ _) Heq).
    + by rewrite (proj2 (String_eqb_neq _ _) Hne).
  - cbn [app fmap list_fmap fst]. rewrite !segments_of_cons.
    destruct (String_eqb k speaker) eqn:Hs.
    + apply String_eqb_eq in Hs. subst k.
      by rewrite decide_True by apply list_elem_of_here.
    + apply String_eqb_neq in Hs. rewrite IH.
      destruct (decide (speaker ∈ d.*1)) as [Hin | Hnotin].
      * by rewrite decide_True by (by apply list_elem_of_further).
      * rewrite (decide_False (P := speaker ∈ k :: d.*1)); [done |].
        intros Hin. apply elem_of_cons in Hin as [? | ?]; [by subst k | done].
Qed.

(** Appending a segment adds it at the end of the list of its speaker and
    leaves the lists of the other speakers alone. *)
Lemma segments_of_append (d : SpeakerSegments) segment speaker :
  segments_of (append_segment d segment) speaker =
    segments_of d speaker ++ (if decide (speaker_of segment = speaker) then [segment] else []).
Proof.
  unfold append_segment. fold (speaker_of segment).
  destruct (has_key (speaker_of segment) d) eqn:Hkey; unfold has_key in Hkey.
  - apply bool_decide_eq_true in Hkey. rewrite segments_of_extended.
    destruct (decide (speaker_of segment = speaker)) as [Heq | Hne].
    + rewrite decide_True; [done |]. split; [done |]. by rewrite <- Heq.
    + rewrite decide_False; [by rewrite app_nil_r |]. by intros [? _].
  - apply bool_decide_eq_false in Hkey. rewrite segments_of_started.
    destruct (decide (speaker ∈ d.*1)) as [Hin | Hnotin].
    + rewrite decide_False; [by rewrite app_nil_r |]. intros Heq. by rewrite Heq in Hkey.
    + by rewrite (segments_of_missing _ _ Hnotin).
Qed.

(** Grouping partitions the segments by speaker and keeps, for every
    speaker, the order the engine gave them. *)
Lemma segments_of_group_by_speaker (segments : list Segment) (speaker : string) :
  segments_of (group_by_speaker segments) speaker
    = filter (λ segment, speaker_of segment = speaker) segments.
Proof.
  unfold group_by_speaker.
  assert (∀ d, segments_of (foldl append_segment d segments) speaker
               = segments_of d speaker
                   ++ filter (λ segment, speaker_of segment = speaker) segments) as Hfold.
  { induction segments as [| segment rest IH]; intros d.
    - by rewrite app_nil_r.
    - cbn [foldl]. rewrite IH, segments_of_append, filter_cons.
      destruct (decide (speaker_of segment = speaker)); by rewrite <- app_assoc. }
  apply Hfold.
Qed.

(** C7 at a transcript of one segment: the one output file holds the span of
    the segment followed by 500 ms of silence, 1500 ms in all, where the
    spans with silence between them only are the 1000 ms of the span. *)
Theorem separate_speakers_trailing_silence :
  let run := separate_speakers sample_env "/tmp/job-1_converted.wav" one_segment "job-1" in
  let audio := replicate 2000%nat 7 in
  result run separating_world = Val ["/out/job-1/SPEAKER_00.wav"]
  ∧ files (exec run separating_world) !! "/out/job-1/SPEAKER_00.wav"
      = Some (AudioSegment.slice audio 0 1000 ++ AudioSegment.silent 500)
  ∧ (length <$> files (exec run separating_world) !! "/out/job-1/SPEAKER_00.wav")
      = Some 1500%nat
  ∧ length (spans_with_gaps_between audio one_segment) = 1000%nat.
Proof. cbv zeta. repeat apply conj; vm_compute; reflexivity. Qed.

(** ** Cancellation seen by the pipeline *)

Lemma raise_if_cancelled_set w job_id :
  job_cancellations w !! job_id = Some true →
  raise_if_cancelled job_id w = (w, Raise cancelled_error).
Proof.
  intros Hflag. unfold raise_if_cancelled. rewrite bind_unfold.
  unfold check_job_cancelled, gets. by rewrite Hflag.
Qed.

(** With the flag set, Converting and Separating raise at once and leave the
    world as it is. *)
Lemma convert_to_wav_cancelled env input_path w job_id :
  job_cancellations w !! job_id = Some true →
  convert_to_wav env input_path job_id w = (w, Raise cancelled_error).
Proof.
  intros Hflag. unfold convert_to_wav, try_except.
  rewrite bind_unfold, (raise_if_cancelled_set _ _ Hflag). reflexivity.
Qed.

Lemma separate_speakers_cancelled env wav_path transcription_result w job_id :
  job_cancellations w !! job_id = Some true →
  separate_speakers env wav_path transcription_result job_id w = (w, Raise cancelled_error).
Proof.
  intros Hflag. unfold separate_speakers, try_except.
  rewrite bind_unfold, (raise_if_cancelled_set _ _ Hflag). reflexivity.
Qed.

(** A pipeline started with the flag set: it returns normally, writes
    nothing but the failure, and the step it records is 'error'. *)
Lemma cancelled_pipeline_fails_with_step_error env w job_id job :
  job_cancellations w !! job_id = Some true →
  db_jobs w !! job_id = Some job →
  let w' := exec (run_separation_pipeline env job_id) w in
  result (run_separation_pipeline env job_id) w = Val tt
  ∧ db_jobs w' !! job_id =
      Some (mkJob (uploaded_file_path job) "failed" "error" 0 (speaker_count job)
              (output_directory job) (Some "Job cancelled by user") (started_at job)
              (Some (clock w)))
  ∧ job_statuses w' !! job_id
      = Some (mkSnapshot "failed" "error" 0 "Processing failed: Job cancelled by user")
  ∧ files w' = files w
  ∧ db_tracks w' = db_tracks w.
Proof.
  intros Hflag Hjob.
  assert (run_separation_pipeline env job_id w =
            (with_db_jobs
               (insert job_id
                  (set_error_message "Job cancelled by user"
                     (updated_job (clock w) "failed" "error" 0 job)))
               (written job_id "failed" "error" 0 "Processing failed: Job cancelled by user"
                  job w), Val tt)) as Heq.
  { unfold run_separation_pipeline, run_separation_pipeline_with, try_except, pipeline_stages.
    rewrite bind_unfold. unfold objects_get at 1. rewrite Hjob.
    rewrite bind_unfold, update_job_status_skip
      by (by apply discarded_when_flag_set).
    rewrite bind_unfold. cbn [mret M_ret ret].
    rewrite bind_unfold, (convert_to_wav_cancelled _ _ _ _ Hflag).
    unfold pipeline_failed. rewrite bind_unfold, update_job_status_eq.
    unfold discarded. rewrite Hflag, Hjob.
    replace (in_list "failed" ["failed"; "cancelled"]) with true
      by (symmetry; apply in_list_true, list_elem_of_here).
    cbn [default id negb andb]. unfold try_except.
    rewrite bind_unfold. unfold objects_get, written. cbn [db_jobs with_db_jobs].
    rewrite lookup_insert_eq. reflexivity. }
  unfold exec, result. rewrite Heq. cbn.
  split; [done |]. split; [by rewrite lookup_insert_eq |].
  split; [by rewrite lookup_insert_eq | done].
Qed.

(** C2 at a job cancelled before Converting starts: the run returns
    normally, the job is Failed with progress 0 and no output file or track
    exists, but the step the executor records is 'error' where the cancel
    request had recorded 'cancelled', and the message it publishes is
    "Processing failed: Job cancelled by user". *)
Theorem cancelled_before_converting_ends_with_step_error :
  let run := run_job sample_env (cancel_before Converting "job-1") "job-1" in
  let w' := exec run sample_world in
  result run sample_world = Val tt
  ∧ db_jobs (exec (cancel_job "job-1") sample_world) !! "job-1" =
      Some (mkJob "/uploads/job-1.mp3" "failed" "cancelled" 0 None None
              (Some "Job cancelled by user") None (Some 1000))
  ∧ db_jobs w' !! "job-1" =
      Some (mkJob "/uploads/job-1.mp3" "failed" "error" 0 None None
              (Some "Job cancelled by user") (Some 1000) (Some 1000))
  ∧ job_statuses w' !! "job-1"
      = Some (mkSnapshot "failed" "error" 0 "Processing failed: Job cancelled by user")
  ∧ files w' = files sample_world
  ∧ db_tracks w' = ∅.
Proof. cbv zeta. repeat apply conj; vm_compute; reflexivity. Qed.

(** Finalizing has no cancellation check: cancelled before it starts, it
    still writes the tracks and the speaker count; only its status writes
    are discarded. *)
Lemma cancelled_before_finalizing_still_finalizes :
  db_jobs cancelled_late_world !! "job-1" =
    Some (mkJob "/uploads/job-1.mp3" "failed" "cancelled" 0 (Some 2) (Some "/out/job-1")
            (Some "Job cancelled by user") (Some 1000) (Some 1000))
  ∧ is_Some (db_tracks cancelled_late_world !! ("job-1", "SPEAKER_00"))
  ∧ is_Some (db_tracks cancelled_late_world !! ("job-1", "SPEAKER_01")).
Proof. repeat apply conj; [| eexists | eexists]; vm_compute; reflexivity. Qed.

(** ** Speaker labels *)












(** ** Runs that are not cancelled *)

Lemma same_job_data_refl job_id w : same_job_data job_id w w.
Proof. repeat split. intros job Hjob. by exists job. Qed.

Lemma same_job_data_trans job_id w1 w2 w3 :
  same_job_data job_id w1 w2 → same_job_data job_id w2 w3 → same_job_data job_id w1 w3.
Proof.
  intros (Hc1 & Hk1 & Hj1) (Hc2 & Hk2 & Hj2).
  split; [congruence |]. split; [congruence |].
  intros job Hjob.
  destruct (Hj1 job Hjob) as (job2 & Hjob2 & Hp2 & Hs2 & Ho2).
  destruct (Hj2 job2 Hjob2) as (job3 & Hjob3 & Hp3 & Hs3 & Ho3).
  exists job3. repeat split; congruence.
Qed.

Lemma live_same_job_data job_id w w' :
  live job_id w → same_job_data job_id w w' → live job_id w'.
Proof.
  intros [Hflag [job Hjob]] (Hc & _ & Hj). split; [by rewrite Hc |].
  destruct (Hj job Hjob) as (job' & Hjob' & _). by exists job'.
Qed.

Lemma updated_job_keeps now status step progress job :
  uploaded_file_path (updated_job now status step progress job) = uploaded_file_path job
  ∧ speaker_count (updated_job now status step progress job) = speaker_count job
  ∧ output_directory (updated_job now status step progress job) = output_directory job.
Proof.
  unfold updated_job.
  destruct (String_eqb status "failed" && String_eqb step "cancelled");
    destruct (String_eqb status "processing" && _);
    destruct (in_list status ["completed"; "failed"]); done.
Qed.

Lemma updated_job_status now status step progress job :
  job_status (updated_job now status step progress job) = status
  ∧ current_step (updated_job now status step progress job) = step
  ∧ progress_percentage (updated_job now status step progress job) = progress.
Proof.
  unfold updated_job.
  destruct (String_eqb status "failed" && String_eqb step "cancelled");
    destruct (String_eqb status "processing" && _);
    destruct (in_list status ["completed"; "failed"]); done.
Qed.

(** A status write for a live job: it returns normally, leaves the files
    alone and keeps the job live. *)
Lemma update_job_status_live w job_id status step progress message :
  live job_id w →
  ∃ w', update_job_status job_id status step progress message w = (w', Val tt)
        ∧ stores w' = stores w
        ∧ same_job_data job_id w w'
        ∧ ∃ job', db_jobs w' !! job_id = Some job'
                  ∧ job_status job' = status
                  ∧ current_step job' = step
                  ∧ progress_percentage job' = progress.
Proof.
  intros [Hflag [job Hjob]].
  exists (written job_id status step progress message job w).
  split.
  { rewrite update_job_status_eq. unfold discarded. by rewrite Hflag, Hjob. }
  split; [done |]. split.
  - split; [done |]. split; [done |].
    intros job0 Hjob0. rewrite Hjob in Hjob0. injection Hjob0 as <-.
    exists (updated_job (clock w) status step progress job).
    split; [apply lookup_insert_eq | apply updated_job_keeps].
  - exists (updated_job (clock w) status step progress job).
    split; [apply lookup_insert_eq | apply updated_job_status].
Qed.

Lemma raise_if_cancelled_live w job_id :
  live job_id w → raise_if_cancelled job_id w = (w, Val tt).
Proof.
  intros [Hflag _]. unfold raise_if_cancelled. rewrite bind_unfold.
  unfold check_job_cancelled, gets. by rewrite Hflag.
Qed.

(** One step of a run of a live job: the next status write or cancellation
    check of the goal is replaced by its outcome. [Hlive] says that the job
    is live in the current world, [Hfiles] what the files and tracks of the
    current world are, [Hsame] relates the first world to the current one. *)
(** Unfold the bind that is applied to the current world. *)
Ltac step_bind :=
  match goal with
  | |- context [(?m ≫= ?k) ?w] => rewrite (bind_unfold m k w)
  end.

(** Reduce the [mret] that is applied to the current world. *)
Ltac step_ret :=
  match goal with
  | |- context [@mret M ?inst ?A ?a ?w] => change (@mret M inst A a w) with (w, @Val A a)
  end.

Ltac live_check Hlive :=
  rewrite ?bind_unfold;
  lazymatch goal with
  | |- context [raise_if_cancelled ?id ?w] => rewrite (raise_if_cancelled_live w id Hlive)
  end;
  cbv beta iota.

Ltac live_update Hlive Hfiles Hsame :=
  rewrite ?bind_unfold;
  lazymatch goal with
  | |- context [update_job_status ?id ?st ?sp ?p ?m ?w] =>
      let w' := fresh "w" in
      let Heq := fresh "Heq" in
      let Hf := fresh "Hf" in
      let Hs := fresh "Hs" in
      destruct (update_job_status_live w id st sp p m Hlive) as (w' & Heq & Hf & Hs & _);
      rewrite Heq; clear Heq; cbv beta iota;
      apply (live_same_job_data _ _ _ Hlive) in Hs as Hlive';
      pose proof (same_job_data_trans _ _ _ _ Hsame Hs) as Hsame';
      pose proof (eq_trans Hf Hfiles) as Hfiles';
      clear Hlive Hsame Hfiles Hs Hf;
      rename Hlive' into Hlive; rename Hsame' into Hsame; rename Hfiles' into Hfiles
  end.

Lemma path_exists_found w path audio :
  files w !! path = Some audio → path_exists path w = (w, Val true).
Proof.
  intros Hfile. unfold path_exists, gets. rewrite Hfile.
  by rewrite bool_decide_eq_true_2 by by eexists.
Qed.

Lemma read_audio_found w path audio :
  files w !! path = Some audio → read_audio path w = (w, Val audio).
Proof. intros Hfile. unfold read_audio. by rewrite Hfile. Qed.

Lemma load_input_found env w input_path audio :
  decodes env →
  files w !! input_path = Some audio →
  load_input env input_path w = (w, Val audio).
Proof.
  intros Hdecodes Hfile. unfold load_input, try_except.
  destruct (from_file_ok env) eqn:Hfirst.
  - by rewrite (read_audio_found _ _ _ Hfile).
  - destruct Hdecodes as [? | Hretry]; [congruence |].
    unfold raise. rewrite Hretry. by rewrite (read_audio_found _ _ _ Hfile).
Qed.

Lemma stores_files w fs ts : stores w = (fs, ts) → files w = fs.
Proof. by intros [= ? ?]. Qed.

Lemma stores_tracks w fs ts : stores w = (fs, ts) → db_tracks w = ts.
Proof. by intros [= ? ?]. Qed.

(** Converting, for a live job whose upload decodes: the converted file is
    written and its path returned. *)
Lemma convert_to_wav_live env input_path job_id w0 w audio :
  same_job_data job_id w0 w →
  live job_id w →
  files w !! input_path = Some audio →
  decodes env →
  export_ok env (converted_path env job_id) = true →
  ∃ w', convert_to_wav env input_path job_id w = (w', Val (converted_path env job_id))
        ∧ stores w' = (<[converted_path env job_id := audio]> (files w), db_tracks w)
        ∧ same_job_data job_id w0 w'
        ∧ live job_id w'.
Proof.
  intros Hsame Hlive Hinput Hdecodes Hexport.
  remember (files w) as fs eqn:Hfs. remember (db_tracks w) as ts eqn:Hts.
  assert (stores w = (fs, ts)) as Hstores by (unfold stores; congruence).
  clear Hfs Hts.
  unfold convert_to_wav, try_except.
  live_check Hlive.
  live_update Hlive Hstores Hsame.
  rewrite bind_unfold, (path_exists_found _ _ audio)
    by (by rewrite (stores_files _ _ _ Hstores)).
  cbv beta iota. cbn [negb].
  live_update Hlive Hstores Hsame.
  live_check Hlive.
  rewrite bind_unfold, (load_input_found _ _ _ audio Hdecodes)
    by (by rewrite (stores_files _ _ _ Hstores)).
  cbv beta iota.
  live_update Hlive Hstores Hsame.
  live_check Hlive.
  rewrite bind_unfold. unfold export. fold (converted_path env job_id).
  rewrite Hexport. unfold modify. cbv beta iota.
  rewrite bind_unfold, (path_exists_found _ _ audio) by apply lookup_insert_eq.
  cbv beta iota. cbn [negb].
  lazymatch goal with
  | |- context [with_files ?f ?w] =>
      assert (stores (with_files f w) = (<[converted_path env job_id := audio]> fs, ts))
        as Hwritten
        by (unfold stores; cbn;
            by rewrite (stores_files _ _ _ Hstores), (stores_tracks _ _ _ Hstores))
  end.
  clear Hstores.
  live_update Hlive Hwritten Hsame.
  eexists. split; [reflexivity |]. done.
Qed.

(** ** The fallback transcript *)

Lemma update_job_status_total w job_id status step progress message :
  ∃ w', update_job_status job_id status step progress message w = (w', Val tt).
Proof.
  rewrite update_job_status_eq.
  destruct (discarded w job_id status); [by eexists |].
  destruct (db_jobs w !! job_id); by eexists.
Qed.

Ltac any_update :=
  rewrite bind_unfold;
  lazymatch goal with
  | |- context [update_job_status ?id ?st ?sp ?p ?m ?w] =>
      let w' := fresh "w" in
      let Heq := fresh "Heq" in
      destruct (update_job_status_total w id st sp p m) as (w' & Heq);
      rewrite Heq; clear Heq; cbv beta iota
  end.

(** The mock returns its fixed result in every world. *)
Lemma _run_mock_whisperx_total job_id w :
  ∃ w', _run_mock_whisperx job_id w = (w', Val mock_result).
Proof.
  unfold _run_mock_whisperx. any_update.
  rewrite bind_unfold. cbn [for_each].
  do 5 any_update.
  by eexists.
Qed.

Lemma _run_mock_whisperx_live job_id w0 w :
  same_job_data job_id w0 w →
  live job_id w →
  ∃ w', _run_mock_whisperx job_id w = (w', Val mock_result)
        ∧ stores w' = stores w
        ∧ same_job_data job_id w0 w'
        ∧ live job_id w'.
Proof.
  intros Hsame Hlive.
  remember (stores w) as fs eqn:Hfiles. symmetry in Hfiles.
  unfold _run_mock_whisperx. live_update Hlive Hfiles Hsame.
  rewrite bind_unfold. cbn [for_each].
  do 5 live_update Hlive Hfiles Hsame.
  by eexists.
Qed.

Lemma raise_if_cancelled_eq job_id w :
  raise_if_cancelled job_id w = (w, Val tt)
  ∨ raise_if_cancelled job_id w = (w, Raise cancelled_error).
Proof.
  unfold raise_if_cancelled. rewrite bind_unfold. unfold check_job_cancelled, gets.
  destruct (default false (job_cancellations w !! job_id)); auto.
Qed.

(** When the engine is unavailable or fails for good, Transcribing returns
    the fixed result of the mock, in every world. *)
Lemma run_whisperx_transcription_fallback env wav_path job_id w :
  engine_fails env →
  ∃ w', run_whisperx_transcription env wav_path job_id w = (w', Val mock_result).
Proof.
  intros Hfails. unfold run_whisperx_transcription, try_except.
  rewrite bind_unfold.
  destruct (raise_if_cancelled_eq job_id w) as [-> | ->]; cbv beta iota;
    [| apply _run_mock_whisperx_total].
  any_update.
  rewrite bind_unfold. unfold path_exists, gets. cbv beta iota.
  destruct (bool_decide _); cbn [negb]; [| apply _run_mock_whisperx_total].
  destruct Hfails as [-> | [-> | ->]].
  - lazymatch goal with
    | |- context [_run_mock_whisperx ?id ?w] =>
        destruct (_run_mock_whisperx_total id w) as (w' & ->)
    end.
    by eexists.
  - any_update. apply _run_mock_whisperx_total.
  - any_update. rewrite bind_unfold.
    lazymatch goal with
    | |- context [raise_if_cancelled ?id ?w] =>
        destruct (raise_if_cancelled_eq id w) as [-> | ->]; cbv beta iota;
          [| apply _run_mock_whisperx_total]
    end.
    any_update. apply _run_mock_whisperx_total.
Qed.

Lemma run_whisperx_transcription_live env wav_path job_id w0 w :
  engine_fails env →
  same_job_data job_id w0 w →
  live job_id w →
  ∃ w', run_whisperx_transcription env wav_path job_id w = (w', Val mock_result)
        ∧ stores w' = stores w
        ∧ same_job_data job_id w0 w'
        ∧ live job_id w'.
Proof.
  intros Hfails Hsame Hlive.
  remember (stores w) as fs eqn:Hfiles. symmetry in Hfiles.
  unfold run_whisperx_transcription, try_except.
  live_check Hlive.
  live_update Hlive Hfiles Hsame.
  rewrite bind_unfold. unfold path_exists, gets. cbv beta iota.
  assert (∀ w1, same_job_data job_id w0 w1 → live job_id w1 → stores w1 = fs →
           ∃ w', _run_mock_whisperx job_id w1 = (w', Val mock_result)
                 ∧ stores w' = fs ∧ same_job_data job_id w0 w' ∧ live job_id w') as Hmock.
  { intros w2 Hsame2 Hlive2 Hfiles2.
    destruct (_run_mock_whisperx_live job_id w0 w2 Hsame2 Hlive2) as (w' & Heq & Hf & Hs & Hl).
    exists w'. split; [done |]. split; [congruence |]. done. }
  destruct (bool_decide _); cbn [negb]; [| by apply Hmock].
  destruct Hfails as [-> | [-> | ->]].
  - lazymatch goal with
    | |- context [_run_mock_whisperx ?id ?w] =>
        destruct (Hmock w Hsame Hlive Hfiles) as (w' & -> & Hrest)
    end.
    by exists w'.
  - live_update Hlive Hfiles Hsame. by apply Hmock.
  - live_update Hlive Hfiles Hsame. live_check Hlive.
    live_update Hlive Hfiles Hsame. by apply Hmock.
Qed.

(** ** Separating and finalizing the fallback transcript *)

Lemma rsplit_app (c : ascii) (l r : string) :
  rsplit c r = None → rsplit c (l +:+ String c r) = Some (l, r).
Proof.
  intros Hr. induction l as [| a l IH]; simpl.
  - rewrite Hr. by rewrite bool_decide_eq_true_2.
  - by rewrite IH.
Qed.

Lemma path_stem_in_dir (dir name : string) :
  rsplit "/" name = None → path_stem (dir +:+ String "/" name) = path_stem name.
Proof.
  intros Hname. unfold path_stem. by rewrite (rsplit_app _ _ _ Hname), Hname.
Qed.

Lemma path_stem_speaker_00 env job_id :
  path_stem (speaker_path env job_id "SPEAKER_00") = "SPEAKER_00".
Proof.
  unfold speaker_path.
  change ("/" +:+ "SPEAKER_00" +:+ ".wav") with (String "/" "SPEAKER_00.wav").
  by rewrite path_stem_in_dir.
Qed.

Lemma path_stem_speaker_01 env job_id :
  path_stem (speaker_path env job_id "SPEAKER_01") = "SPEAKER_01".
Proof.
  unfold speaker_path.
  change ("/" +:+ "SPEAKER_01" +:+ ".wav") with (String "/" "SPEAKER_01.wav").
  by rewrite path_stem_in_dir.
Qed.

Lemma speaker_paths_differ env job_id :
  speaker_path env job_id "SPEAKER_00" ≠ speaker_path env job_id "SPEAKER_01".
Proof.
  intros Heq. apply (f_equal path_stem) in Heq.
  rewrite path_stem_speaker_00, path_stem_speaker_01 in Heq. discriminate Heq.
Qed.

Lemma group_by_speaker_mock :
  group_by_speaker mock_result =
    [ ("SPEAKER_00",
       [ mock_segment 0.0 3.0 "Hello, welcome to our podcast." "SPEAKER_00";
         mock_segment 7.5 11.0 "Let's talk about the topic." "SPEAKER_00";
         mock_segment 15.5 19.0 "I think we should discuss this further." "SPEAKER_00" ]);
      ("SPEAKER_01",
       [ mock_segment 3.5 7.0 "Thank you for having me." "SPEAKER_01";
         mock_segment 11.5 15.0 "That sounds interesting." "SPEAKER_01";
         mock_segment 19.5 23.0 "Absolutely, I agree with that point." "SPEAKER_01" ]) ].
Proof. reflexivity. Qed.

Lemma mock_segments_have_times : Forall has_times mock_result.
Proof. repeat constructor; by do 2 eexists. Qed.

Lemma stores_with_files w f fs ts :
  stores w = (fs, ts) → stores (with_files f w) = (f fs, ts).
Proof. intros [= <- <-]. reflexivity. Qed.

Lemma stores_with_db_tracks w f fs ts :
  stores w = (fs, ts) → stores (with_db_tracks f w) = (fs, f ts).
Proof. intros [= <- <-]. reflexivity. Qed.

(** After an export: the facts about the world with the new file. *)
Ltac file_written Hlive Hstores :=
  lazymatch goal with
  | |- context [with_files ?f ?w] =>
      apply (stores_with_files w f) in Hstores;
      lazymatch type of Hlive with
      | live ?id _ => change (live id (with_files f w)) in Hlive
      end
  end.

(** Separating the fallback transcript, for a live job: one file per
    speaker, SPEAKER_00 first. *)
Lemma separate_speakers_mock_live env job_id w0 w audio :
  same_job_data job_id w0 w →
  live job_id w →
  files w !! converted_path env job_id = Some audio →
  (∀ path, export_ok env path = true) →
  ∃ w' audio_00 audio_01,
    separate_speakers env (converted_path env job_id) mock_result job_id w
      = (w', Val [speaker_path env job_id "SPEAKER_00"; speaker_path env job_id "SPEAKER_01"])
    ∧ stores w' =
        (<[speaker_path env job_id "SPEAKER_01" := audio_01]>
           (<[speaker_path env job_id "SPEAKER_00" := audio_00]> (files w)),
         db_tracks w)
    ∧ same_job_data job_id w0 w'
    ∧ live job_id w'.
Proof.
  intros Hsame Hlive Hwav Hexport.
  remember (files w) as fs eqn:Hfs. remember (db_tracks w) as ts eqn:Hts.
  assert (stores w = (fs, ts)) as Hstores by (unfold stores; congruence).
  clear Hfs Hts.
  unfold separate_speakers, try_except.
  live_check Hlive.
  live_update Hlive Hstores Hsame.
  rewrite bind_unfold, (path_exists_found _ _ audio)
    by (by rewrite (stores_files _ _ _ Hstores)).
  cbv beta iota. cbn [negb].
  rewrite bind_unfold, (read_audio_found _ _ audio)
    by (by rewrite (stores_files _ _ _ Hstores)).
  cbv beta iota zeta.
  rewrite group_by_speaker_mock. cbn [separate_loop].
  fold (speaker_path env job_id "SPEAKER_00"). fold (speaker_path env job_id "SPEAKER_01").
  live_check Hlive.
  live_update Hlive Hstores Hsame.
  rewrite bind_unfold, speaker_track_audio_eq by (repeat constructor; by do 2 eexists).
  unfold lift at 1. cbv beta iota.
  rewrite bind_unfold. unfold export at 1. rewrite Hexport. unfold modify at 1.
  cbv beta iota.
  file_written Hlive Hstores.
  live_check Hlive.
  live_update Hlive Hstores Hsame.
  rewrite bind_unfold, speaker_track_audio_eq by (repeat constructor; by do 2 eexists).
  unfold lift at 1. cbv beta iota.
  rewrite bind_unfold. unfold export at 1. rewrite Hexport. unfold modify at 1.
  cbv beta iota.
  file_written Hlive Hstores.
  cbn [separate_loop mret M_ret ret app].
  do 3 eexists. split; [reflexivity |]. split; [exact Hstores |]. done.
Qed.

Ltac track_written Hlive Hstores :=
  lazymatch goal with
  | |- context [with_db_tracks ?f ?w] =>
      apply (stores_with_db_tracks w f) in Hstores;
      lazymatch type of Hlive with
      | live ?id _ => change (live id (with_db_tracks f w)) in Hlive
      end
  end.

(** Finalizing the two files of the fallback transcript, for a live job
    without tracks: both tracks are created and the job is Completed with
    two speakers. *)
Lemma finalize_processing_mock_live env job_id w audio_00 audio_01 :
  live job_id w →
  files w !! speaker_path env job_id "SPEAKER_00" = Some audio_00 →
  files w !! speaker_path env job_id "SPEAKER_01" = Some audio_01 →
  db_tracks w !! (job_id, "SPEAKER_00") = None →
  db_tracks w !! (job_id, "SPEAKER_01") = None →
  ∃ w' job',
    finalize_processing job_id
      [speaker_path env job_id "SPEAKER_00"; speaker_path env job_id "SPEAKER_01"]
      mock_result w = (w', Val tt)
    ∧ db_jobs w' !! job_id = Some job'
    ∧ job_status job' = "completed"
    ∧ current_step job' = "completed"
    ∧ progress_percentage job' = 100
    ∧ speaker_count job' = Some 2
    ∧ is_Some (db_tracks w' !! (job_id, "SPEAKER_00"))
    ∧ is_Some (db_tracks w' !! (job_id, "SPEAKER_01"))
    ∧ files w' = files w.
Proof.
  intros Hlive Hfile0 Hfile1 Htrack0 Htrack1.
  remember (files w) as fs eqn:Hfs. remember (db_tracks w) as ts eqn:Hts.
  assert (stores w = (fs, ts)) as Hstores by (unfold stores; congruence).
  clear Hfs Hts.
  pose proof (same_job_data_refl job_id w) as Hsame.
  unfold finalize_processing, try_except.
  live_update Hlive Hstores Hsame. clear Hsame.
  pose proof Hlive as [Hflag [job Hjob]].
  rewrite bind_unfold. unfold objects_get at 1. rewrite Hjob. cbv beta iota zeta.
  rewrite bind_unfold. unfold lift at 1. cbv beta iota.
  rewrite bind_unfold. unfold save at 1, modify at 1. cbv beta iota.
  lazymatch goal with
  | |- context [with_db_jobs ?f ?w] =>
      assert (live job_id (with_db_jobs f w)) as Hlive2
        by (split; [exact Hflag | cbn; rewrite lookup_insert_eq; by eexists]);
      assert (db_jobs (with_db_jobs f w) !! job_id
                = Some (set_results (Z.of_nat 2) (path_parent (speaker_path env job_id "SPEAKER_00")) job))
        as Hsaved by (cbn; apply lookup_insert_eq);
      pose proof (same_job_data_refl job_id (with_db_jobs f w)) as Hsame;
      change (stores (with_db_jobs f w) = (fs, ts)) in Hstores
  end.
  clear Hlive Hflag Hjob.
  cbn [for_enumerate]. cbv beta zeta.
  (* SPEAKER_00 *)
  rewrite path_stem_speaker_00.
  rewrite !bind_unfold, (read_audio_found _ _ audio_00)
    by (by rewrite (stores_files _ _ _ Hstores)).
  cbv beta iota.
  step_bind. unfold track_create at 1. cbv beta.
  rewrite (stores_tracks _ _ _ Hstores), Htrack0.
  track_written Hlive2 Hstores.
  live_update Hlive2 Hstores Hsame.
  (* SPEAKER_01 *)
  rewrite path_stem_speaker_01.
  rewrite !bind_unfold, (read_audio_found _ _ audio_01)
    by (by rewrite (stores_files _ _ _ Hstores)).
  cbv beta iota.
  step_bind. unfold track_create at 1. cbv beta.
  rewrite (stores_tracks _ _ _ Hstores), lookup_insert_ne, Htrack1 by congruence.
  track_written Hlive2 Hstores.
  live_update Hlive2 Hstores Hsame.
  unfold ret at 1. cbv beta iota.
  lazymatch goal with
  | |- context [update_job_status ?id ?st ?sp ?p ?m ?w] =>
      destruct (update_job_status_live w id st sp p m Hlive2)
        as (w' & Heq & Hf & Hs & job' & Hjob' & Hstatus & Hstep & Hprogress)
  end.
  rewrite Heq. exists w', job'.
  split; [reflexivity |]. split; [exact Hjob' |].
  split; [exact Hstatus |]. split; [exact Hstep |]. split; [exact Hprogress |].
  pose proof (same_job_data_trans _ _ _ _ Hsame Hs) as (_ & _ & Hkeeps).
  destruct (Hkeeps _ Hsaved) as (job'' & Hjob'' & _ & Hcount & _).
  rewrite Hjob' in Hjob''. injection Hjob'' as <-.
  split; [exact Hcount |].
  rewrite Hstores in Hf.
  rewrite (stores_tracks _ _ _ Hf), (stores_files _ _ _ Hf).
  split; [| split; [| done]].
  - rewrite lookup_insert_ne by congruence. rewrite lookup_insert_eq. by eexists.
  - rewrite lookup_insert_eq. by eexists.
Qed.

(** C6: when the engine cannot be imported or fails for good, Transcribing
    returns, in every world, the fixed result of the mock, six segments that
    alternate between SPEAKER_00 and SPEAKER_01; and for a job that has a
    durable record and no track yet, is not cancelled, and whose upload
    decodes and exports, the pipeline then runs to its end: it returns
    normally and the job is Completed at 100 with a speaker count of 2 and
    one track for each of the two speakers. *)
Theorem engine_failure_completes_with_fallback
    (env : Env) (w : World) (job_id : string) (job : ProcessingJob) (audio : AudioSegment.t) :
  engine_fails env →
  db_jobs w !! job_id = Some job →
  job_cancellations w !! job_id = None →
  files w !! uploaded_file_path job = Some audio →
  decodes env →
  (∀ path, export_ok env path = true) →
  (∀ speaker_id, db_tracks w !! (job_id, speaker_id) = None) →
  (∀ wav_path w1, result (run_whisperx_transcription env wav_path job_id) w1 = Val mock_result)
  ∧ length mock_result = 6%nat
  ∧ seg_speaker <$> mock_result =
      [ Some "SPEAKER_00"; Some "SPEAKER_01"; Some "SPEAKER_00";
        Some "SPEAKER_01"; Some "SPEAKER_00"; Some "SPEAKER_01" ]
  ∧ result (run_separation_pipeline env job_id) w = Val tt
  ∧ ∃ job', db_jobs (exec (run_separation_pipeline env job_id) w) !! job_id = Some job'
            ∧ job_status job' = "completed"
            ∧ current_step job' = "completed"
            ∧ progress_percentage job' = 100
            ∧ speaker_count job' = Some 2
            ∧ is_Some (db_tracks (exec (run_separation_pipeline env job_id) w)
                         !! (job_id, "SPEAKER_00"))
            ∧ is_Some (db_tracks (exec (run_separation_pipeline env job_id) w)
                         !! (job_id, "SPEAKER_01")).
Proof.
  intros Hfails Hjob Hflag Hinput Hdecodes Hexport Hfresh.
  split.
  { intros wav_path w1.
    destruct (run_whisperx_transcription_fallback env wav_path job_id w1 Hfails) as (w' & Heq).
    unfold result. by rewrite Heq. }
  split; [reflexivity |]. split; [reflexivity |].
  assert (live job_id w) as Hlive by (split; [done | by eexists]).
  pose proof (same_job_data_refl job_id w) as Hsame.
  assert (stores w = (files w, db_tracks w)) as Hstores by reflexivity.
  assert (∃ w' job',
            run_separation_pipeline env job_id w = (w', Val tt)
            ∧ db_jobs w' !! job_id = Some job'
            ∧ job_status job' = "completed"
            ∧ current_step job' = "completed"
            ∧ progress_percentage job' = 100
            ∧ speaker_count job' = Some 2
            ∧ is_Some (db_tracks w' !! (job_id, "SPEAKER_00"))
            ∧ is_Some (db_tracks w' !! (job_id, "SPEAKER_01"))) as (w' & job' & Heq & Hrest).
  { unfold run_separation_pipeline, run_separation_pipeline_with, try_except, pipeline_stages.
    step_bind. unfold objects_get at 1. rewrite Hjob. cbv beta iota.
    live_update Hlive Hstores Hsame.
    step_bind. step_ret. cbv beta iota.
    step_bind.
    lazymatch goal with
    | |- context [convert_to_wav env ?input ?id ?w1] =>
        destruct (convert_to_wav_live env input id w w1 audio Hsame Hlive)
          as (w2 & -> & Hstores2 & Hsame2 & Hlive2);
          [by rewrite (stores_files _ _ _ Hstores) | done | done |]
    end.
    rewrite (stores_files _ _ _ Hstores), (stores_tracks _ _ _ Hstores) in Hstores2.
    clear Hstores Hsame Hlive. cbv beta iota.
    step_bind. step_ret. cbv beta iota.
    step_bind.
    destruct (run_whisperx_transcription_live env (converted_path env job_id) job_id w w2
                Hfails Hsame2 Hlive2) as (w3 & -> & Hstores3 & Hsame3 & Hlive3).
    rewrite Hstores2 in Hstores3. clear Hstores2 Hsame2 Hlive2. cbv beta iota.
    step_bind. step_ret. cbv beta iota.
    step_bind.
    destruct (separate_speakers_mock_live env job_id w w3 audio Hsame3 Hlive3)
      as (w4 & audio_00 & audio_01 & -> & Hstores4 & Hsame4 & Hlive4);
      [by rewrite (stores_files _ _ _ Hstores3), lookup_insert_eq | done |].
    rewrite (stores_files _ _ _ Hstores3), (stores_tracks _ _ _ Hstores3) in Hstores4.
    clear Hstores3 Hsame3 Hlive3. cbv beta iota.
    step_bind. step_ret. cbv beta iota.
    step_bind.
    destruct (finalize_processing_mock_live env job_id w4 audio_00 audio_01 Hlive4)
      as (w5 & job5 & -> & Hjob5 & Hstatus & Hstep & Hprogress & Hcount & Ht0 & Ht1 & Hfiles5).
    { rewrite (stores_files _ _ _ Hstores4).
      rewrite lookup_insert_ne by (symmetry; apply speaker_paths_differ).
      apply lookup_insert_eq. }
    { rewrite (stores_files _ _ _ Hstores4). apply lookup_insert_eq. }
    { rewrite (stores_tracks _ _ _ Hstores4). apply Hfresh. }
    { rewrite (stores_tracks _ _ _ Hstores4). apply Hfresh. }
    cbv beta iota. unfold try_except at 1.
    step_bind. unfold path_exists at 1, gets at 1. cbv beta iota.
    destruct (bool_decide _); unfold mret, M_ret, modify, ret; cbv beta iota;
      eexists _, job5; (split; [reflexivity |]); done. }
  split; [unfold result; by rewrite Heq |].
  exists job'. unfold exec. by rewrite Heq.
Qed.

Lemma engine_failure_completes_witness :
  result (run_separation_pipeline sample_env "job-1") sample_world = Val tt
  ∧ ∃ job', db_jobs (exec (run_separation_pipeline sample_env "job-1") sample_world) !! "job-1"
              = Some job'
            ∧ job_status job' = "completed"
            ∧ speaker_count job' = Some 2.
Proof.
  destruct (engine_failure_completes_with_fallback sample_env sample_world "job-1" sample_job
              (replicate 2000%nat 7))
    as (_ & _ & _ & Hresult & job' & Hjob' & Hstatus & _ & _ & Hcount & _).
  - left. reflexivity.
  - vm_compute. reflexivity.
  - vm_compute. reflexivity.
  - vm_compute. reflexivity.
  - left. reflexivity.
  - intros path. reflexivity.
  - intros speaker_id. apply lookup_empty.
  - split; [exact Hresult |]. exists job'. auto.
Defined.


(** ** Published progress *)

Lemma processing_progress_app l1 l2 :
  processing_progress (l1 ++ l2) = processing_progress l1 ++ processing_progress l2.
Proof. unfold processing_progress. by rewrite fmap_app, filter_app, fmap_app. Qed.

Lemma nondecreasing_cons x l :
  nondecreasing (x :: l) ↔ Forall (λ y, x ≤ y) (take 1 l) ∧ nondecreasing l.
Proof.
  destruct l as [| y l]; simpl.
  - split; [by intros _; split; [constructor |] | done].
  - split.
    + intros [Hxy Hl]. split; [by repeat constructor | done].
    + intros [Hxy Hl]. split; [by apply Forall_cons in Hxy as [? _] | done].
Qed.

Lemma nondecreasing_app l1 l2 b :
  Forall (λ p, p ≤ b) l1 →
  Forall (λ p, b ≤ p) l2 →
  nondecreasing l1 →
  nondecreasing l2 →
  nondecreasing (l1 ++ l2).
Proof.
  intros Hl1 Hl2 Hs1 Hs2. induction l1 as [| x l1 IH]; [done |].
  apply Forall_cons in Hl1 as [Hx Hl1].
  change ((x :: l1) ++ l2) with (x :: (l1 ++ l2)).
  apply nondecreasing_cons. apply nondecreasing_cons in Hs1 as [Hhead Hs1].
  split; [| by apply IH].
  destruct l1 as [| y l1]; simpl.
  - destruct l2 as [| z l2]; simpl; [constructor |].
    apply Forall_cons in Hl2 as [Hz _]. repeat constructor. lia.
  - simpl in Hhead. exact Hhead.
Qed.

Lemma covers_refl r : covers r r.
Proof. destruct r as [x |]; simpl; [| done]. exists x. split; [done | lia]. Qed.

Lemma covers_trans r1 r2 r3 : covers r1 r2 → covers r2 r3 → covers r1 r3.
Proof.
  destruct r1 as [x |]; simpl; [| done].
  intros (y & -> & Hxy). simpl. intros (z & -> & Hyz). exists z. split; [done | lia].
Qed.

Lemma emits_weaken job_id mono a a' {A} (m : M A) b b' r r' :
  emits job_id mono a m b r →
  a' ≤ a →
  b ≤ b' →
  covers r r' →
  emits job_id mono a' m b' r'.
Proof.
  intros Hm Ha Hb Hr w. destruct (Hm w) as (new & Hlog & Hflags & Hok & Hps).
  exists new. split; [done |]. split; [done |]. split; [done |].
  destruct (cancelled job_id w); [done |].
  destruct Hps as (top & Hlevel & Hle & Hrange & Hmono).
  destruct (result m w) as [x | e]; simpl in *.
  - injection Hlevel as <-. exists b'. split; [done |]. split; [lia |]. split; [| done].
    eapply Forall_impl; [exact Hrange |]. simpl. lia.
  - subst r. simpl in Hr. destruct Hr as (y & -> & Hy).
    exists y. split; [done |]. split; [lia |]. split; [| done].
    eapply Forall_impl; [exact Hrange |]. simpl. lia.
Qed.

Lemma emits_bind job_id mono a b c {A B} (m : M A) (k : A → M B) r1 r :
  emits job_id mono a m b r1 →
  covers r1 r →
  (∀ x, emits job_id mono b (k x) c r) →
  emits job_id mono a (m ≫= k) c r.
Proof.
  intros Hm Hcov Hk w. destruct (Hm w) as (new1 & Hlog1 & Hflags1 & Hok1 & Hps1).
  unfold exec, result in *. rewrite bind_unfold.
  destruct (m w) as [w1 [x | e]] eqn:Hmw; simpl in *.
  - destruct (Hk x w1) as (new2 & Hlog2 & Hflags2 & Hok2 & Hps2).
    unfold exec, result in *.
    exists (new1 ++ new2).
    split; [by rewrite Hlog2, Hlog1, app_assoc |].
    split; [congruence |].
    split; [by apply Forall_app |].
    assert (cancelled job_id w1 = cancelled job_id w) as Hsame
      by (unfold cancelled; by rewrite Hflags1).
    rewrite Hsame in Hps2. rewrite processing_progress_app.
    destruct (cancelled job_id w); [by rewrite Hps1, Hps2 |].
    destruct Hps1 as (top1 & [= <-] & Hle1 & Hrange1 & Hmono1).
    destruct Hps2 as (top2 & Hlevel2 & Hle2 & Hrange2 & Hmono2).
    exists top2. split; [done |]. split; [lia |]. split.
    + apply Forall_app. split.
      * eapply Forall_impl; [exact Hrange1 |]. simpl. lia.
      * eapply Forall_impl; [exact Hrange2 |]. simpl. lia.
    + intros Hmono. apply (nondecreasing_app _ _ b); auto.
      * eapply Forall_impl; [exact Hrange1 |]. simpl. lia.
      * eapply Forall_impl; [exact Hrange2 |]. simpl. lia.
  - exists new1. split; [done |]. split; [done |]. split; [done |].
    destruct (cancelled job_id w); [done |].
    destruct Hps1 as (top1 & Hlevel1 & Hle1 & Hrange1 & Hmono1).
    subst r1. simpl in Hcov. destruct Hcov as (y & -> & Hy).
    exists y. split; [done |]. split; [lia |]. split; [| done].
    eapply Forall_impl; [exact Hrange1 |]. simpl. lia.
Qed.

(** A handler entered at level [a'], at least [a] and, when order matters,
    at least the level [c] at which the body raises. *)
Lemma emits_try_except job_id mono a a' b c {A} (m : M A) (h : Exn → M A) r :
  emits job_id mono a m b (Some c) →
  a ≤ a' →
  (mono = true → c ≤ a') →
  c ≤ b →
  covers (Some c) (Some (default c r)) →
  (∀ e, emits job_id mono a' (h e) b r) →
  emits job_id mono a (try_except m h) b r.
Proof.
  intros Hm Ha Hc Hcb Hcr Hh w. destruct (Hm w) as (new1 & Hlog1 & Hflags1 & Hok1 & Hps1).
  unfold exec, result, try_except in *.
  destruct (m w) as [w1 [x | e]] eqn:Hmw; simpl in *.
  - exists new1. split; [done |]. split; [done |]. split; [done |].
    destruct (cancelled job_id w); [done |].
    destruct Hps1 as (top1 & [= <-] & Hle1 & Hrange1 & Hmono1).
    exists b. done.
  - destruct (Hh e w1) as (new2 & Hlog2 & Hflags2 & Hok2 & Hps2).
    unfold exec, result in *.
    exists (new1 ++ new2).
    split; [by rewrite Hlog2, Hlog1, app_assoc |].
    split; [congruence |].
    split; [by apply Forall_app |].
    assert (cancelled job_id w1 = cancelled job_id w) as Hsame
      by (unfold cancelled; by rewrite Hflags1).
    rewrite Hsame in Hps2. rewrite processing_progress_app.
    destruct (cancelled job_id w); [by rewrite Hps1, Hps2 |].
    destruct Hps1 as (top1 & [= <-] & Hle1 & Hrange1 & Hmono1).
    destruct Hps2 as (top2 & Hlevel2 & Hle2 & Hrange2 & Hmono2).
    assert (c ≤ top2) as Hctop.
    { destruct (h e w1) as [w2 [y | e2]]; simpl in *.
      - injection Hlevel2 as <-. lia.
      - subst r. simpl in Hcr. destruct Hcr as (y & [= <-] & Hy). lia. }
    exists top2. split; [done |]. split; [lia |]. split.
    + apply Forall_app. split.
      * eapply Forall_impl; [exact Hrange1 |]. simpl. lia.
      * eapply Forall_impl; [exact Hrange2 |]. simpl. lia.
    + intros Hmono. apply (nondecreasing_app _ _ a'); auto.
      * eapply Forall_impl; [exact Hrange1 |]. simpl. specialize (Hc Hmono). lia.
      * eapply Forall_impl; [exact Hrange2 |]. simpl. lia.
Qed.

Lemma emits_silent job_id mono a {A} (m : M A) :
  silent m → emits job_id mono a m a (Some a).
Proof.
  intros Hm w. destruct (Hm w) as [Hlog Hflags].
  exists []. split; [by rewrite app_nil_r |]. split; [done |]. split; [constructor |].
  destruct (cancelled job_id w); [done |].
  exists a. split; [by destruct (result m w) |]. split; [lia |]. split; [constructor | done].
Qed.

Lemma emits_silent_total job_id mono a {A} (m : M A) :
  silent m → total m → emits job_id mono a m a None.
Proof.
  intros Hm Htotal w. destruct (Hm w) as [Hlog Hflags]. destruct (Htotal w) as [x Hx].
  exists []. split; [by rewrite app_nil_r |]. split; [done |]. split; [constructor |].
  destruct (cancelled job_id w); [done |].
  exists a. rewrite Hx. split; [done |]. split; [lia |]. split; [constructor | done].
Qed.

Lemma emits_ret job_id mono a {A} (x : A) : emits job_id mono a (mret x : M A) a None.
Proof. apply emits_silent_total; intros w; [done | by exists x]. Qed.

Lemma emits_raise job_id mono a {A} (e : Exn) : emits job_id mono a (raise e : M A) a (Some a).
Proof. by apply emits_silent. Qed.

(** In a world where the job is not cancelled the check returns. *)
Lemma emits_check job_id mono a : emits job_id mono a (raise_if_cancelled job_id) a None.
Proof.
  intros w. exists [].
  assert (raise_if_cancelled job_id w
            = (w, if cancelled job_id w then Raise cancelled_error else Val tt)) as Heq.
  { unfold raise_if_cancelled. rewrite bind_unfold. unfold check_job_cancelled, gets, cancelled.
    by destruct (default false (job_cancellations w !! job_id)). }
  unfold exec, result. rewrite Heq. simpl.
  split; [by rewrite app_nil_r |]. split; [done |]. split; [constructor |].
  destruct (cancelled job_id w); [done |].
  exists a. split; [done |]. split; [lia |]. split; [constructor | done].
Qed.

Lemma update_job_status_log w job_id status step progress message :
  status_log (exec (update_job_status job_id status step progress message) w) =
    status_log w ++
      (if discarded w job_id status then []
       else [(job_id, mkSnapshot status step progress message)])
  ∧ job_cancellations (exec (update_job_status job_id status step progress message) w)
      = job_cancellations w
  ∧ result (update_job_status job_id status step progress message) w = Val tt.
Proof.
  unfold exec, result. rewrite update_job_status_eq.
  destruct (discarded w job_id status); [by rewrite app_nil_r |].
  by destruct (db_jobs w !! job_id).
Qed.

Lemma processing_progress_report job_id step p message :
  processing_progress [(job_id, mkSnapshot "processing" step p message)] = [p].
Proof. reflexivity. Qed.

Lemma discarded_processing w job_id : discarded w job_id "processing" = cancelled job_id w.
Proof.
  unfold discarded, cancelled.
  replace (in_list "processing" ["failed"; "cancelled"]) with false by reflexivity.
  by destruct (default false (job_cancellations w !! job_id)).
Qed.

(** A progress report at [p], from a level that is not above [p]. *)
Lemma emits_update_processing job_id mono a step p message :
  a ≤ p →
  emits job_id mono a (update_job_status job_id "processing" step p message) p None.
Proof.
  intros Hp w.
  destruct (update_job_status_log w job_id "processing" step p message)
    as (Hlog & Hflags & Hresult).
  rewrite discarded_processing in Hlog.
  exists (if cancelled job_id w then []
          else [(job_id, mkSnapshot "processing" step p message)]).
  split; [exact Hlog |]. split; [exact Hflags |].
  destruct (cancelled job_id w).
  - split; [constructor | done].
  - split; [repeat constructor; by left |].
    exists p. rewrite Hresult. split; [done |]. split; [done |].
    rewrite processing_progress_report. split; [| done].
    apply Forall_cons. split; [lia | constructor].
Qed.

(** The two terminal writes publish no progress. *)
Lemma emits_update_failed job_id mono a step message :
  emits job_id mono a (update_job_status job_id "failed" step 0 message) a None.
Proof.
  intros w.
  destruct (update_job_status_log w job_id "failed" step 0 message)
    as (Hlog & Hflags & Hresult).
  eexists. split; [exact Hlog |]. split; [exact Hflags |].
  assert (a ≤ a) as Hle by lia.
  rewrite Hresult.
  destruct (discarded w job_id "failed"), (cancelled job_id w);
    (split; [repeat constructor; right; right; done |]); try done;
    exists a; (split; [done |]); (split; [done |]); (split; [constructor | done]).
Qed.

Lemma emits_update_completed job_id mono a step message :
  emits job_id mono a (update_job_status job_id "completed" step 100 message) a None.
Proof.
  intros w.
  destruct (update_job_status_log w job_id "completed" step 100 message)
    as (Hlog & Hflags & Hresult).
  eexists. split; [exact Hlog |]. split; [exact Hflags |].
  assert (a ≤ a) as Hle by lia.
  rewrite Hresult.
  destruct (discarded w job_id "completed"), (cancelled job_id w);
    (split; [repeat constructor; right; left; done |]); try done;
    exists a; (split; [done |]); (split; [done |]); (split; [constructor | done]).
Qed.

Lemma emits_then_update job_id mono a p c r step message {B} (k : unit → M B) :
  a ≤ p →
  emits job_id mono p (k tt) c r →
  emits job_id mono a (update_job_status job_id "processing" step p message ≫= k) c r.
Proof.
  intros Hp Hk. apply (emits_bind _ _ a p c _ _ None); [| done |].
  - by apply emits_update_processing.
  - by intros [].
Qed.

Lemma emits_then_check job_id mono a c r {B} (k : unit → M B) :
  emits job_id mono a (k tt) c r →
  emits job_id mono a (raise_if_cancelled job_id ≫= k) c r.
Proof.
  intros Hk. apply (emits_bind _ _ a a c _ _ None); [| done |].
  - apply emits_check.
  - by intros [].
Qed.

Lemma emits_then_silent job_id mono a c r {A B} (m : M A) (k : A → M B) :
  silent m →
  covers (Some a) r →
  (∀ x, emits job_id mono a (k x) c r) →
  emits job_id mono a (m ≫= k) c r.
Proof.
  intros Hm Hr Hk. apply (emits_bind _ _ a a c _ _ (Some a)); [| done | done].
  by apply emits_silent.
Qed.

Lemma emits_then_total job_id mono a c r {A B} (m : M A) (k : A → M B) :
  silent m →
  total m →
  (∀ x, emits job_id mono a (k x) c r) →
  emits job_id mono a (m ≫= k) c r.
Proof.
  intros Hm Ht Hk. apply (emits_bind _ _ a a c _ _ None); [| done | done].
  by apply emits_silent_total.
Qed.

Lemma emits_ret_at job_id mono a b r {A} (x : A) :
  a ≤ b → emits job_id mono a (mret x : M A) b r.
Proof. intros Hb. apply (emits_weaken _ _ a a _ a b None r); [apply emits_ret | lia | lia | done]. Qed.

Lemma emits_raise_at job_id mono a b y {A} (e : Exn) :
  a ≤ b → a ≤ y → emits job_id mono a (raise e : M A) b (Some y).
Proof.
  intros Hb Hy. apply (emits_weaken _ _ a a _ a b (Some a) (Some y));
    [apply emits_raise | lia | lia |].
  exists y. done.
Qed.

Lemma covers_some a y : a ≤ y → covers (Some a) (Some y).
Proof. intros Hy. by exists y. Qed.

Lemma silent_objects_get job_id : silent (objects_get job_id).
Proof. intros w. unfold exec, objects_get. by destruct (db_jobs w !! job_id). Qed.

Lemma silent_save job_id job : silent (save job_id job).
Proof. by intros w. Qed.

Lemma total_save job_id job : total (save job_id job).
Proof. intros w. by exists tt. Qed.

Lemma silent_path_exists path : silent (path_exists path).
Proof. by intros w. Qed.

Lemma total_path_exists path : total (path_exists path).
Proof. intros w. by eexists. Qed.

Lemma silent_read_audio path : silent (read_audio path).
Proof. intros w. unfold exec, read_audio. by destruct (files w !! path). Qed.

Lemma silent_load_input env path : silent (load_input env path).
Proof.
  intros w. unfold exec, load_input, try_except, read_audio, raise.
  destruct (from_file_ok env); destruct (files w !! path);
    destruct (from_format_ok env) as [[|] |]; simpl; try done;
    destruct (files w !! path); done.
Qed.

Lemma silent_export env path audio : silent (export env path audio).
Proof. intros w. unfold exec, export. by destruct (export_ok env path). Qed.

Lemma silent_lift {A} (r : Res A) : silent (lift r).
Proof. by intros w. Qed.

Lemma silent_track_create job_id speaker_id track :
  silent (track_create job_id speaker_id track).
Proof.
  intros w. unfold exec, track_create. by destruct (db_tracks w !! (job_id, speaker_id)).
Qed.

Lemma silent_with_files f : silent (modify (with_files f)).
Proof. by intros w. Qed.

Lemma total_modify f : total (modify f).
Proof. intros w. by exists tt. Qed.

(** One step of a derivation of [emits]. *)
Ltac emit :=
  lazymatch goal with
  | |- emits _ _ _ (update_job_status _ "processing" _ _ _ ≫= _) _ _ =>
      apply emits_then_update; [lia |]
  | |- emits _ _ _ (raise_if_cancelled _ ≫= _) _ _ => apply emits_then_check
  | |- emits _ _ _ (path_exists _ ≫= _) _ _ =>
      apply emits_then_total; [apply silent_path_exists | apply total_path_exists | intros ?]
  | |- emits _ _ _ (load_input _ _ ≫= _) _ _ =>
      apply emits_then_silent; [apply silent_load_input | apply covers_some; lia | intros ?]
  | |- emits _ _ _ (read_audio _ ≫= _) _ _ =>
      apply emits_then_silent; [apply silent_read_audio | apply covers_some; lia | intros ?]
  | |- emits _ _ _ (export _ _ _ ≫= _) _ _ =>
      apply emits_then_silent; [apply silent_export | apply covers_some; lia | intros ?]
  | |- emits _ _ _ (lift _ ≫= _) _ _ =>
      apply emits_then_silent; [apply silent_lift | apply covers_some; lia | intros ?]
  | |- emits _ _ _ (objects_get _ ≫= _) _ _ =>
      apply emits_then_silent; [apply silent_objects_get | apply covers_some; lia | intros ?]
  | |- emits _ _ _ (track_create _ _ _ ≫= _) _ _ =>
      apply emits_then_silent; [apply silent_track_create | apply covers_some; lia | intros ?]
  | |- emits _ _ _ (save _ _ ≫= _) _ _ =>
      apply emits_then_total; [apply silent_save | apply total_save | intros ?]
  | |- emits _ _ _ (mret _ ≫= _) _ _ =>
      apply emits_then_total; [done | by eexists | intros ?]
  | |- emits _ _ _ (mret _) _ _ => apply emits_ret_at; lia
  | |- emits _ _ _ (raise _) _ (Some _) => apply emits_raise_at; lia
  | |- emits _ _ _ (if ?c then _ else _) _ _ => destruct c
  end.

(** Converting publishes 10, 15, 20, 25. *)
Lemma convert_to_wav_emits env input_path job_id mono a :
  a ≤ 10 →
  emits job_id mono a (convert_to_wav env input_path job_id) 25 (Some 25).
Proof.
  intros Ha. unfold convert_to_wav.
  apply (emits_try_except _ _ a 25 25 25); [| lia | lia | lia | by apply covers_some | ].
  - repeat emit.
  - intros e. emit.
Qed.

Lemma emits_then_failed job_id mono a c r step message {B} (k : unit → M B) :
  emits job_id mono a (k tt) c r →
  emits job_id mono a (update_job_status job_id "failed" step 0 message ≫= k) c r.
Proof.
  intros Hk. apply (emits_bind _ _ a a c _ _ None); [| done |].
  - apply emits_update_failed.
  - by intros [].
Qed.

(** The mock publishes 35, 40, 45, 50, 55, 60 and never raises. *)
Lemma _run_mock_whisperx_emits job_id mono a :
  a ≤ 35 → emits job_id mono a (_run_mock_whisperx job_id) 60 None.
Proof.
  intros Ha. unfold _run_mock_whisperx. emit.
  apply (emits_bind _ _ 35 60 60 _ _ None); [| done | intros []; emit].
  cbn [for_each]. cbv zeta. repeat emit.
  apply emits_ret_at. lia.
Qed.

(** Transcribing publishes 30 and then the checkpoints of the engine or of
    the mock, up to 60, and never raises; the order holds unless the engine
    fails after its checkpoint 40, when the mock starts again at 35. *)
Lemma run_whisperx_transcription_emits env wav_path job_id mono a :
  a ≤ 30 →
  (mono = true → engine env ≠ TranscribeFails) →
  emits job_id mono a (run_whisperx_transcription env wav_path job_id) 60 None.
Proof.
  intros Ha Hmono. unfold run_whisperx_transcription, align_and_diarize.
  destruct (engine env) as [| | | segments align diarize] eqn:Hengine.
  - apply (emits_try_except _ _ a 35 60 30); [| lia | lia | lia | by apply covers_some |].
    + repeat emit. apply (emits_weaken _ _ 30 30 _ 60 60 None (Some 30));
        [by apply _run_mock_whisperx_emits | lia | lia | done].
    + intros e. by apply _run_mock_whisperx_emits.
  - apply (emits_try_except _ _ a 35 60 35); [| lia | lia | lia | by apply covers_some |].
    + repeat emit.
    + intros e. by apply _run_mock_whisperx_emits.
  - apply (emits_try_except _ _ a 35 60 40); [| lia | | lia | by apply covers_some |].
    + repeat emit.
    + intros Hm. by destruct (Hmono Hm).
    + intros e. by apply _run_mock_whisperx_emits.
  - apply (emits_try_except _ _ a 35 60 30); [| lia | lia | lia | by apply covers_some |].
    + cbv zeta. repeat emit. destruct diarize as [n assigned | [n |] | [n |]]; repeat emit.
    + intros e. by apply _run_mock_whisperx_emits.
Qed.

Lemma checkpoint_step (i total scale : Z) :
  0 ≤ i → 0 < total → 0 ≤ scale →
  (i * scale) `div` total ≤ ((i + 1) * scale) `div` total.
Proof. intros Hi Ht Hs. apply Z.div_le_mono; nia. Qed.

Lemma checkpoint_below (i total scale : Z) :
  0 ≤ i → i < total → 0 < scale → (i * scale) `div` total < scale.
Proof. intros Hi Ht Hs. apply Z.div_lt_upper_bound; nia. Qed.

(** The loop over the speakers publishes 65 + 20 i / n for the speakers
    i < n it reaches. *)
Lemma separate_loop_emits env job_id mono audio job_output_dir total items :
  ∀ speaker_idx speaker_files a,
    0 ≤ speaker_idx →
    speaker_idx + Z.of_nat (length items) ≤ total →
    a ≤ 65 + (speaker_idx * 20) `div` total →
    a ≤ 84 →
    emits job_id mono a
      (separate_loop env job_id audio job_output_dir total speaker_idx items speaker_files)
      84 (Some 84).
Proof.
  induction items as [| [speaker_id segments] rest IH];
    intros speaker_idx speaker_files a Hidx Htotal Ha Ha84.
  - cbn [separate_loop]. emit.
  - cbn [separate_loop]. cbn [length] in Htotal.
    assert ((speaker_idx * 20) `div` total < 20) as Hbelow
      by (apply checkpoint_below; lia).
    assert ((speaker_idx * 20) `div` total ≤ ((speaker_idx + 1) * 20) `div` total) as Hstep
      by (apply checkpoint_step; lia).
    emit. cbv zeta.
    apply emits_then_update; [exact Ha |].
    emit. emit.
    apply IH; lia.
Qed.

(** Separating publishes 60 and then the checkpoints of its loop. *)
Lemma separate_speakers_emits env wav_path transcription_result job_id mono a :
  a ≤ 60 →
  emits job_id mono a (separate_speakers env wav_path transcription_result job_id)
    84 (Some 84).
Proof.
  intros Ha. unfold separate_speakers.
  apply (emits_try_except _ _ a 84 84 84); [| lia | lia | lia | by apply covers_some |].
  - repeat emit. cbv zeta.
    apply separate_loop_emits; [lia | lia | | lia].
    rewrite Z.mul_0_l, Zdiv_0_l. lia.
  - intros e. emit.
Qed.

(** The loop over the speaker files publishes 92 + 6 i / n. *)
Lemma finalize_loop_emits job_id mono (n : Z) (body_of : Z → string → M unit) speaker_files :
  (∀ i speaker_file a,
     0 ≤ i → i < n → a ≤ 92 + (i * 6) `div` n →
     emits job_id mono a (body_of i speaker_file) (92 + (i * 6) `div` n) (Some 97)) →
  ∀ i a,
    0 ≤ i →
    i + Z.of_nat (length speaker_files) ≤ n →
    a ≤ 92 + (i * 6) `div` n →
    a ≤ 97 →
    emits job_id mono a (for_enumerate i speaker_files body_of) 97 (Some 97).
Proof.
  intros Hbody. induction speaker_files as [| speaker_file rest IH];
    intros i a Hi Hn Ha Ha97.
  - cbn [for_enumerate]. apply emits_ret_at. lia.
  - cbn [for_enumerate]. cbn [length] in Hn.
    assert ((i * 6) `div` n < 6) as Hbelow by (apply checkpoint_below; lia).
    assert ((i * 6) `div` n ≤ ((i + 1) * 6) `div` n) as Hstep
      by (apply checkpoint_step; lia).
    apply (emits_bind _ _ a (92 + (i * 6) `div` n) 97 _ _ (Some 97));
      [apply Hbody; lia | by apply covers_some |].
    intros []. apply IH; lia.
Qed.

(** Finalizing publishes 90 and then the checkpoints of its loop; its last
    write is the completion. *)
Lemma finalize_processing_emits job_id speaker_files transcription_result mono a :
  a ≤ 90 →
  emits job_id mono a (finalize_processing job_id speaker_files transcription_result)
    97 (Some 97).
Proof.
  intros Ha. unfold finalize_processing.
  apply (emits_try_except _ _ a 97 97 97); [| lia | lia | lia | by apply covers_some |].
  - repeat emit. cbv zeta.
    apply (emits_bind _ _ 90 97 97 _ _ (Some 97)); [| by apply covers_some |].
    + apply (finalize_loop_emits job_id mono (Z.of_nat (length speaker_files)));
        [| lia | lia | | lia].
      * intros i speaker_file a' Hi Hn Ha'.
        assert ((i * 6) `div` Z.of_nat (length speaker_files) < 6) as Hbelow
          by (apply checkpoint_below; lia).
        cbv zeta. emit. emit.
        apply (emits_weaken _ _ a' a' _ (92 + (i * 6) `div` Z.of_nat (length speaker_files))
                 (92 + (i * 6) `div` Z.of_nat (length speaker_files)) None (Some 97));
          [| lia | lia | done].
        apply emits_update_processing. exact Ha'.
      * rewrite Z.mul_0_l, Zdiv_0_l. lia.
    + intros []. apply (emits_weaken _ _ 97 97 _ 97 97 None (Some 97));
        [apply emits_update_completed | lia | lia | done].
  - intros e. emit.
Qed.

(** The stages in sequence publish 5 and then the checkpoints of each
    stage. *)
Lemma pipeline_stages_emits env job_id mono a :
  a ≤ 5 →
  (mono = true → engine env ≠ TranscribeFails) →
  emits job_id mono a (pipeline_stages env (λ _, mret tt) job_id) 97 (Some 97).
Proof.
  intros Ha Hmono. unfold pipeline_stages.
  emit. emit.
  apply (emits_bind _ _ 5 5 97 _ _ None); [apply emits_ret | done | intros []].
  apply (emits_bind _ _ 5 25 97 _ _ (Some 25));
    [apply convert_to_wav_emits; lia | apply covers_some; lia | intros wav_path].
  apply (emits_bind _ _ 25 25 97 _ _ None); [apply emits_ret | done | intros []].
  apply (emits_bind _ _ 25 60 97 _ _ None);
    [apply run_whisperx_transcription_emits; [lia | done] | done | intros transcription_result].
  apply (emits_bind _ _ 60 60 97 _ _ None); [apply emits_ret | done | intros []].
  apply (emits_bind _ _ 60 84 97 _ _ (Some 84));
    [apply separate_speakers_emits; lia | apply covers_some; lia | intros speaker_files].
  apply (emits_bind _ _ 84 84 97 _ _ None); [apply emits_ret | done | intros []].
  apply (emits_bind _ _ 84 97 97 _ _ (Some 97));
    [apply finalize_processing_emits; lia | apply covers_some; lia | intros []].
  apply (emits_try_except _ _ 97 97 97 97); [| lia | lia | lia | by apply covers_some |].
  - emit. emit.
    + apply (emits_weaken _ _ 97 97 _ 97 97 None (Some 97)); [| lia | lia | done].
      apply emits_silent_total; [apply silent_with_files | apply total_modify].
    + emit.
  - intros e. emit.
Qed.

(** The handler of the pipeline publishes the failure and nothing else. *)
Lemma pipeline_failed_emits job_id mono a e :
  emits job_id mono a (pipeline_failed job_id e) a None.
Proof.
  unfold pipeline_failed. apply emits_then_failed.
  apply (emits_try_except _ _ a a a a); [| lia | lia | lia | by apply covers_some |].
  - emit. apply (emits_weaken _ _ a a _ a a None (Some a)); [| lia | lia | done].
    apply emits_silent_total; [apply silent_save | apply total_save].
  - intros e'. emit.
Qed.

(** A run of the pipeline publishes progress between 5 and 97 and does not
    raise; the values are in order unless the engine fails after its
    checkpoint 40. *)
Lemma run_separation_pipeline_emits env job_id mono :
  (mono = true → engine env ≠ TranscribeFails) →
  emits job_id mono 5 (run_separation_pipeline env job_id) 97 None.
Proof.
  intros Hmono. unfold run_separation_pipeline, run_separation_pipeline_with.
  apply (emits_try_except _ _ 5 97 97 97); [| lia | lia | lia | by apply covers_some |].
  - by apply pipeline_stages_emits.
  - intros e. apply pipeline_failed_emits.
Qed.

Lemma logged_eq {A} (m : M A) (w : World) new :
  status_log (exec m w) = status_log w ++ new → logged m w = new.
Proof. intros Hlog. unfold logged. rewrite Hlog. apply drop_app_length. Qed.

(** What a run publishes when the engine fails while it transcribes. *)
Lemma failing_engine_progress :
  processing_progress (logged (run_separation_pipeline failing_env "job-1") sample_world)
    = [5; 10; 15; 20; 25; 30; 35; 40; 35; 40; 45; 50; 55; 60; 60; 65; 75; 90; 92; 95].
Proof. vm_compute. reflexivity. Qed.

(** C4, as stated, fails: when the engine fails after its checkpoint 40 the
    fallback publishes 35 next. *)
Lemma progress_never_decreases_counterexample : ¬ progress_never_decreases.
Proof.
  intros Hclaim.
  destruct (Hclaim failing_env sample_world "job-1") as [Hsorted _].
  rewrite failing_engine_progress in Hsorted.
  simpl in Hsorted. lia.
Qed.

(** C4, amended: in every run of the pipeline the progress values published
    with status 'processing' are integers between 5 and 97, hence between 0
    and 100 and never 0; they are in nondecreasing order in every run in
    which the engine does not fail after its own checkpoint 40; and every
    other status write of the run is the completion at 100 or a failure at 0:
    progress is set to 0 by the writes that record a failure, and there is no
    retry. *)
Theorem published_progress_in_range_and_order (env : Env) (w : World) (job_id : string) :
  let new := logged (run_separation_pipeline env job_id) w in
  status_log (exec (run_separation_pipeline env job_id) w) = status_log w ++ new
  ∧ Forall (λ p, 0 ≤ p ≤ 100) (processing_progress new)
  ∧ Forall (λ p, 5 ≤ p ≤ 97) (processing_progress new)
  ∧ Forall entry_ok new
  ∧ (engine env ≠ TranscribeFails → nondecreasing (processing_progress new)).
Proof.
  cbv zeta.
  assert (∀ mono, (mono = true → engine env ≠ TranscribeFails) →
            ∃ new, status_log (exec (run_separation_pipeline env job_id) w) = status_log w ++ new
                   ∧ logged (run_separation_pipeline env job_id) w = new
                   ∧ Forall entry_ok new
                   ∧ Forall (λ p, 5 ≤ p ≤ 97) (processing_progress new)
                   ∧ (mono = true → nondecreasing (processing_progress new))) as Hrun.
  { intros mono Hmono.
    destruct (run_separation_pipeline_emits env job_id mono Hmono w)
      as (new & Hlog & _ & Hok & Hps).
    exists new. split; [done |]. split; [by apply logged_eq |]. split; [done |].
    destruct (cancelled job_id w).
    - rewrite Hps. split; [constructor | done].
    - destruct Hps as (top & Hlevel & _ & Hrange & Hsorted).
      destruct (result (run_separation_pipeline env job_id) w); [| discriminate Hlevel].
      injection Hlevel as <-. done. }
  destruct (Hrun false) as (new & Hlog & -> & Hok & Hrange & _); [discriminate |].
  split; [done |]. split; [| split; [done | split; [done |]]].
  - eapply Forall_impl; [exact Hrange |]. simpl. lia.
  - intros Hengine.
    destruct (Hrun true (λ _, Hengine)) as (new' & Hlog' & Hnew' & _ & _ & Hsorted).
    rewrite (logged_eq _ _ _ Hlog) in Hnew'. subst new'. by apply Hsorted.
Qed.

Lemma published_progress_witness :
  nondecreasing
    (processing_progress (logged (run_separation_pipeline sample_env "job-1") sample_world)).
Proof.
  apply (published_progress_in_range_and_order sample_env sample_world "job-1").
  discriminate.
Defined.

(** ** Cancelling *)

Ltac world_fields :=
  unfold with_job_statuses, with_job_cancellations, with_job_threads, with_db_jobs,
    with_db_tracks, with_files, with_status_log;
  cbn [job_statuses job_cancellations job_threads db_jobs db_tracks files status_log clock].

Lemma cancel_job_eq (w : World) (job_id : string) :
  cancel_job job_id w = (after_cancel job_id w, Val true).
Proof.
  unfold cancel_job, try_except.
  rewrite bind_unfold. unfold modify at 1. cbv beta iota.
  rewrite bind_unfold, update_job_status_eq.
  unfold discarded. cbn [job_cancellations with_job_cancellations].
  rewrite lookup_insert_eq.
  replace (in_list "failed" ["failed"; "cancelled"]) with true
    by (symmetry; apply in_list_true, list_elem_of_here).
  cbn [default from_option id negb andb db_jobs with_job_cancellations].
  destruct (db_jobs w !! job_id) as [job |] eqn:Hjob.
  - repeat (rewrite bind_unfold; unfold modify at 1; cbv beta iota).
    unfold after_cancel, written. rewrite Hjob. world_fields. rewrite delete_insert_eq. reflexivity.
  - repeat (rewrite bind_unfold; unfold modify at 1; cbv beta iota).
    unfold after_cancel, written_cache_only. rewrite Hjob. world_fields. rewrite delete_insert_eq. reflexivity.
Qed.

(** X1: a cancel request always returns True. It sets the cancellation flag
    of the job, removes its cache entry and its thread entry, and, when the
    job has a durable record, saves it as 'failed' at step 'cancelled' with
    progress 0, the message "Job cancelled by user" and [completed_at] now,
    the other fields as they were. The flags, cache entries, records and
    thread entries of the other jobs, the files and the tracks are what they
    were. *)
Theorem cancel_job_effect (w : World) (job_id : string) :
  let w' := exec (cancel_job job_id) w in
  result (cancel_job job_id) w = Val true
  ∧ job_cancellations w' !! job_id = Some true
  ∧ job_statuses w' !! job_id = None
  ∧ (job_id ∉ job_threads w')
  ∧ db_jobs w' !! job_id = cancelled_job (clock w) <$> (db_jobs w !! job_id)
  ∧ (∀ other, other ≠ job_id →
       job_cancellations w' !! other = job_cancellations w !! other
       ∧ job_statuses w' !! other = job_statuses w !! other
       ∧ db_jobs w' !! other = db_jobs w !! other
       ∧ (other ∈ job_threads w' ↔ other ∈ job_threads w))
  ∧ files w' = files w
  ∧ db_tracks w' = db_tracks w.
Proof.
  unfold exec, result. rewrite cancel_job_eq. cbn.
  split; [done |]. split; [apply lookup_insert_eq |]. split; [apply lookup_delete_eq |].
  split; [by intros [_ Hin]%elem_of_difference; apply Hin, elem_of_singleton |]. split.
  { destruct (db_jobs w !! job_id) as [job |] eqn:Hjob; [| by rewrite Hjob].
    by rewrite lookup_insert_eq. }
  split; [| done].
  intros other Hother.
  split; [by rewrite lookup_insert_ne |]. split; [by rewrite lookup_delete_ne |].
  split; [destruct (db_jobs w !! job_id); [by rewrite lookup_insert_ne | done] |].
  rewrite elem_of_difference, elem_of_singleton. tauto.
Qed.

Lemma cancel_loop_eq (job_ids : list string) : ∀ (cancelled_count : Z) (w : World),
  cancel_loop job_ids cancelled_count w
    = (after_cancel_all job_ids w, Val (cancelled_count + Z.of_nat (length job_ids))).
Proof.
  induction job_ids as [| job_id rest IH]; intros cancelled_count w.
  - cbn. by rewrite Z.add_0_r.
  - cbn [cancel_loop]. rewrite bind_unfold. unfold try_except.
    rewrite bind_unfold, cancel_job_eq. cbv beta iota.
    step_ret.
    cbv beta iota. rewrite IH. cbn [after_cancel_all foldl length].
    f_equal. f_equal. lia.
Qed.





Lemma cancel_each_eq (job_ids : list string) : ∀ (w : World),
  for_each job_ids (λ job_id, try_except (cancel_job job_id;; mret tt) (λ _, mret tt)) w
    = (after_cancel_all job_ids w, Val tt).
Proof.
  induction job_ids as [| job_id rest IH]; intros w; [reflexivity |].
  cbn [for_each]. rewrite bind_unfold. unfold try_except.
  rewrite bind_unfold, cancel_job_eq. cbv beta iota. step_ret. cbv beta iota.
  apply IH.
Qed.

(** X4: the handler of SIGINT and SIGTERM never returns: whatever the
    cancelling does, it ends with the SystemExit of [sys.exit(0)], and the
    world it leaves is the one that [cancel_all_jobs] leaves: it has
    cancelled the jobs cached as 'processing' and no other. *)
Theorem signal_handler_cancels_as_cancel_all_jobs (w : World) :
  signal_handler w = (exec cancel_all_jobs w, SystemExit 0).
Proof.
  unfold exec, cancel_all_jobs, signal_handler, then_exit, try_except.
  rewrite !bind_unfold. unfold gets. cbv beta iota. rewrite cancel_loop_eq.
  destruct (running_jobs w) as [| job_id rest] eqn:Hrunning; [reflexivity |].
  by rewrite cancel_each_eq.
Qed.

(** X5: the body of the processing thread never raises, whatever the
    pipeline and the other threads do, and when it ends the job has no
    thread entry and no cancellation flag any more, so that
    [check_job_cancelled] answers False again; in particular the entry made
    by [start_processing_job] is gone after the run. *)
Theorem run_job_clears_registry
    (env : Env) (between : Stage → M unit) (job_id : string) (w : World) :
  let w' := exec (run_job env between job_id) w in
  result (run_job env between job_id) w = Val tt
  ∧ (job_id ∉ job_threads w')
  ∧ job_cancellations w' !! job_id = None
  ∧ result (check_job_cancelled job_id) w' = Val false
  ∧ (job_id ∉ job_threads (exec (run_job env between job_id) (exec (start_processing_job job_id) w))).
Proof.
  assert (∀ w0, ∃ w1,
            run_job env between job_id w0
              = (with_job_cancellations (delete job_id)
                   (with_job_threads (λ s, s ∖ {[job_id]}) w1), Val tt)) as Hrun.
  { intros w0. unfold run_job, try_finally, try_except.
    destruct (run_separation_pipeline_with env between job_id w0) as [w1 [[] | e]];
      exists w1; reflexivity. }
  cbv zeta. unfold exec, result.
  destruct (Hrun w) as (w1 & ->).
  destruct (Hrun ((start_processing_job job_id w).1)) as (w2 & ->).
  cbn. split; [done |].
  split; [by intros [_ Hin]%elem_of_difference; apply Hin, elem_of_singleton |].
  split; [apply lookup_delete_eq |].
  split; [by rewrite lookup_delete_eq |].
  by intros [_ Hin]%elem_of_difference; apply Hin, elem_of_singleton.
Qed.

Lemma get_object_or_404_eq (w : World) (job_id : string) :
  get_object_or_404 job_id w =
    match db_jobs w !! job_id with
    | Some job => (w, Val job)
    | None => (w, Raise (Http404 "No ProcessingJob matches the given query."))
    end.
Proof.
  unfold get_object_or_404, try_except, objects_get. by destruct (db_jobs w !! job_id).
Qed.

(** X2: the cancel view answers a job that does not exist with the
    unexpected-error answer (status 500, the 404 of the lookup is caught by
    the handler of the view) and a job whose status is neither 'pending' nor
    'processing' with the refusal that names its status (status 400); in both
    cases the world is left as it is, so no flag is set and a completed job
    stays completed. A job that is 'pending' or 'processing' is cancelled as
    by [cancel_job] and answered with success. The answer 'Failed to cancel
    job' is never given and the view never raises. *)
Theorem cancel_job_view_refuses_finished_jobs (w : World) (job_id : string) :
  (db_jobs w !! job_id = None → cancel_job_view job_id w = (w, Val CancelUnexpected))
  ∧ (∀ job, db_jobs w !! job_id = Some job →
       job_status job ≠ "pending" → job_status job ≠ "processing" →
       cancel_job_view job_id w = (w, Val (NotCancellable (job_status job))))
  ∧ (∀ job, db_jobs w !! job_id = Some job →
       job_status job = "pending" ∨ job_status job = "processing" →
       cancel_job_view job_id w = (exec (cancel_job job_id) w, Val CancelDone))
  ∧ result (cancel_job_view job_id) w ≠ Val CancelFailed
  ∧ ∀ e, result (cancel_job_view job_id) w ≠ Raise e.
Proof.
  assert (cancel_job_view job_id w =
            match db_jobs w !! job_id with
            | None => (w, Val CancelUnexpected)
            | Some job =>
                if in_list (job_status job) ["pending"; "processing"]
                then (exec (cancel_job job_id) w, Val CancelDone)
                else (w, Val (NotCancellable (job_status job)))
            end) as Hview.
  { unfold cancel_job_view, try_except. rewrite bind_unfold, get_object_or_404_eq.
    destruct (db_jobs w !! job_id) as [job |]; [| reflexivity].
    destruct (in_list (job_status job) ["pending"; "processing"]); cbn [negb]; [| reflexivity].
    unfold exec. rewrite bind_unfold, cancel_job_eq. reflexivity. }
  split; [| split; [| split; [| split]]].
  - intros Hjob. by rewrite Hview, Hjob.
  - intros job Hjob Hpending Hprocessing. rewrite Hview, Hjob.
    replace (in_list (job_status job) ["pending"; "processing"]) with false; [done |].
    symmetry. apply in_list_false. intros Hin.
    apply elem_of_cons in Hin as [? | Hin]; [done |].
    apply elem_of_cons in Hin as [? | Hin]; [done |].
    by apply elem_of_nil in Hin.
  - intros job Hjob Hstatus. rewrite Hview, Hjob.
    replace (in_list (job_status job) ["pending"; "processing"]) with true; [done |].
    symmetry. apply in_list_true. destruct Hstatus as [-> | ->].
    + apply list_elem_of_here.
    + apply list_elem_of_further, list_elem_of_here.
  - unfold result. rewrite Hview.
    destruct (db_jobs w !! job_id) as [job |]; [| done].
    by destruct (in_list (job_status job) ["pending"; "processing"]).
  - intros e. unfold result. rewrite Hview.
    destruct (db_jobs w !! job_id) as [job |]; [| done].
    by destruct (in_list (job_status job) ["pending"; "processing"]).
Qed.

(** ** The reaper and the status reads, case by case *)

(** The ids the scan reports: those it was given and, among the ids it
    visits, those without record or with a stuck record. *)
Lemma scan_cache_stale (job_ids : list string) : ∀ (stale_jobs : list string) (w : World),
  ∃ db stale,
    scan_cache job_ids stale_jobs w = (with_db_jobs (λ _, db) w, Val stale)
    ∧ ∀ k, k ∈ stale ↔ k ∈ stale_jobs ∨ (k ∈ job_ids ∧ evictable w k = true).
Proof.
  induction job_ids as [| k0 rest IH]; intros stale_jobs w.
  - exists (db_jobs w), stale_jobs. split; [by destruct w |].
    intros k. split; [by left |]. intros [? | [Hin _]]; [done |]. by apply elem_of_nil in Hin.
  - rewrite scan_cache_cons. unfold evictable.
    destruct (db_jobs w !! k0) as [job0 |] eqn:Hk0.
    + destruct (is_stuck (clock w) job0) eqn:Hstuck.
      * destruct (IH (stale_jobs ++ [k0])
                    (with_db_jobs (insert k0 (timed_out (clock w) job0)) w))
          as (db & stale & Heq & Hstale).
        exists db, stale. split; [exact Heq |].
        intros k. rewrite Hstale, elem_of_app, list_elem_of_singleton, elem_of_cons.
        unfold evictable. cbn [db_jobs with_db_jobs clock].
        destruct (decide (k = k0)) as [-> | Hne].
        -- rewrite Hk0, Hstuck. tauto.
        -- rewrite lookup_insert_ne by done. tauto.
      * destruct (IH stale_jobs w) as (db & stale & Heq & Hstale).
        exists db, stale. split; [exact Heq |].
        intros k. rewrite Hstale, elem_of_cons. unfold evictable.
        destruct (decide (k = k0)) as [-> | Hne].
        -- rewrite Hk0, Hstuck. split; [tauto |]. intros [? | [_ ?]]; [tauto | done].
        -- tauto.
    + destruct (IH (stale_jobs ++ [k0]) w) as (db & stale & Heq & Hstale).
      exists db, stale. split; [exact Heq |].
      intros k. rewrite Hstale, elem_of_app, list_elem_of_singleton, elem_of_cons.
      unfold evictable.
      destruct (decide (k = k0)) as [-> | Hne].
      * rewrite Hk0. tauto.
      * tauto.
Qed.

(** One pass of the reaper, entry by entry. *)
Lemma clean_stale_cache_entries_exact (w : World) :
  ∃ db cache,
    clean_stale_cache_entries w
      = (with_job_statuses (λ _, cache) (with_db_jobs (λ _, db) w), Val tt)
    ∧ (∀ k, db !! k = if decide (is_Some (job_statuses w !! k))
                      then reaped (clock w) <$> (db_jobs w !! k)
                      else db_jobs w !! k)
    ∧ (∀ k, cache !! k = if evictable w k then None else job_statuses w !! k).
Proof.
  destruct (clean_stale_cache_entries_spec w) as (db & cache & Heq & Hdb & _).
  exists db, cache. split; [exact Heq |]. split; [exact Hdb |].
  revert Heq. unfold clean_stale_cache_entries.
  rewrite bind_unfold. unfold gets at 1. cbv beta iota.
  destruct (scan_cache_stale (map_to_list (job_statuses w)).*1 [] w)
    as (db' & stale & Hscan & Hstale).
  rewrite bind_unfold, Hscan.
  destruct (evict_spec stale (with_db_jobs (λ _, db') w)) as (cache' & Hevict & Hcache).
  rewrite Hevict. intros Hw.
  apply (f_equal (λ p, job_statuses p.1)) in Hw. cbn in Hw. subst cache'.
  intros k. rewrite Hcache. cbn [job_statuses with_db_jobs].
  destruct (decide (k ∈ stale)) as [Hin | Hnin].
  - apply Hstale in Hin as [Hin | [Hin Hev]]; [by apply elem_of_nil in Hin |].
    by rewrite Hev.
  - destruct (evictable w k) eqn:Hev; [| done].
    destruct (job_statuses w !! k) as [s |] eqn:Hs; [| done].
    exfalso. apply Hnin, Hstale. right. split; [| done].
    apply cached_ids. by eexists.
Qed.


(** X7: the reaper is idempotent: a second pass right after a pass changes
    nothing. *)
Theorem reaper_idempotent (w : World) :
  exec clean_stale_cache_entries (exec clean_stale_cache_entries w)
    = exec clean_stale_cache_entries w.
Proof.
  unfold exec.
  destruct (clean_stale_cache_entries_exact w) as (db & cache & -> & Hdb & Hcache).
  cbn [fst].
  destruct (clean_stale_cache_entries_exact
              (with_job_statuses (λ _, cache) (with_db_jobs (λ _, db) w)))
    as (db2 & cache2 & -> & Hdb2 & Hcache2).
  cbn [fst].
  assert (db2 = db) as ->.
  { apply map_eq. intros k. rewrite Hdb2. cbn [job_statuses db_jobs with_job_statuses
      with_db_jobs clock].
    destruct (decide (is_Some (cache !! k))) as [Hcached | _]; [| done].
    rewrite Hdb. rewrite Hcache in Hcached.
    destruct (evictable w k); [by destruct Hcached |].
    rewrite decide_True by done.
    destruct (db_jobs w !! k) as [job |]; [| done].
    cbn. by rewrite reaped_idem. }
  assert (cache2 = cache) as ->.
  { apply map_eq. intros k. rewrite Hcache2. unfold evictable at 1.
    cbn [job_statuses db_jobs with_job_statuses with_db_jobs clock].
    destruct (cache !! k) as [s |] eqn:Hs; [| by destruct (db !! k) as [job |];
      [destruct (is_stuck _ _) |]].
    rewrite Hcache in Hs. rewrite Hdb.
    unfold evictable in Hs.
    destruct (db_jobs w !! k) as [job |] eqn:Hjob; [| done].
    destruct (is_stuck (clock w) job) eqn:Hstuck; [done |].
    rewrite decide_True by (by rewrite Hs). cbn. unfold reaped. by rewrite Hstuck, Hstuck. }
  by destruct w.
Qed.

Lemma clean_stale_cache_entries_returns (w : World) :
  clean_stale_cache_entries w = (exec clean_stale_cache_entries w, Val tt).
Proof.
  unfold exec. by destruct (clean_stale_cache_entries_spec w) as (db & cache & -> & _).
Qed.

Lemma in_list_terminal (status : string) :
  in_list status ["completed"; "failed"] = true ↔ status = "completed" ∨ status = "failed".
Proof.
  rewrite in_list_true, !elem_of_cons, elem_of_nil. tauto.
Qed.

(** A status read without reaper pass, case by case. *)
Lemma get_job_status_eq (w : World) (job_id : string) :
  get_job_status false job_id w =
    match db_jobs w !! job_id with
    | None => (w, Val not_found_status)
    | Some job =>
        if in_list (job_status job) ["completed"; "failed"]
        then (with_job_statuses (insert job_id (database_status job)) w,
              Val (database_status job))
        else match job_statuses w !! job_id with
             | Some memory_status => (w, Val memory_status)
             | None => (with_job_statuses (insert job_id (database_status job)) w,
                        Val (database_status job))
             end
    end.
Proof.
  unfold get_job_status, try_except. rewrite bind_unfold. step_ret. cbv beta iota.
  rewrite bind_unfold. unfold objects_get.
  destruct (db_jobs w !! job_id) as [job |]; [| reflexivity].
  destruct (in_list (job_status job) ["completed"; "failed"]); [reflexivity |].
  rewrite bind_unfold. unfold gets.
  by destruct (job_statuses w !! job_id).
Qed.

(** A status read with reaper pass is the pass followed by the read. *)
Lemma get_job_status_clean (w : World) (job_id : string) :
  get_job_status true job_id w
    = get_job_status false job_id (exec clean_stale_cache_entries w).
Proof.
  unfold get_job_status, try_except.
  rewrite (bind_unfold clean_stale_cache_entries), clean_stale_cache_entries_returns.
  rewrite (bind_unfold (mret tt)). step_ret. reflexivity.
Qed.

(** X8: a status read never raises, with or without reaper pass. A read
    without reaper pass writes at most the cache entry of the job it reads,
    never a record, a flag or a thread entry, and reading again at once gives
    the same answer and changes nothing more. *)
Theorem get_job_status_read_twice (w : World) (job_id : string) :
  let w' := exec (get_job_status false job_id) w in
  (∀ clean, ∃ status, result (get_job_status clean job_id) w = Val status)
  ∧ get_job_status false job_id w' = (w', result (get_job_status false job_id) w)
  ∧ (∀ other, other ≠ job_id → job_statuses w' !! other = job_statuses w !! other)
  ∧ db_jobs w' = db_jobs w
  ∧ job_cancellations w' = job_cancellations w
  ∧ job_threads w' = job_threads w.
Proof.
  cbv zeta.
  assert (∀ w0, ∃ status, result (get_job_status false job_id) w0 = Val status) as Hreturns.
  { intros w0. unfold result. rewrite get_job_status_eq.
    destruct (db_jobs w0 !! job_id) as [job |]; [| by eexists].
    destruct (in_list (job_status job) ["completed"; "failed"]); [by eexists |].
    destruct (job_statuses w0 !! job_id); by eexists. }
  split.
  { intros [|]; [| apply Hreturns].
    unfold result. rewrite get_job_status_clean. apply Hreturns. }
  unfold exec, result. rewrite (get_job_status_eq w).
  destruct (db_jobs w !! job_id) as [job |] eqn:Hjob.
  - destruct (in_list (job_status job) ["completed"; "failed"]) eqn:Hterminal.
    + cbn [fst snd]. rewrite get_job_status_eq.
      cbn [db_jobs job_statuses with_job_statuses]. rewrite Hjob, Hterminal.
      split; [| split; [| done]].
      * unfold with_job_statuses. cbn. by rewrite insert_insert_eq.
      * intros other Hother. by rewrite lookup_insert_ne.
    + destruct (job_statuses w !! job_id) as [memory_status |] eqn:Hcached; cbn [fst snd].
      * rewrite get_job_status_eq, Hjob, Hterminal, Hcached. done.
      * rewrite get_job_status_eq.
        cbn [db_jobs job_statuses with_job_statuses]. rewrite Hjob, Hterminal.
        rewrite lookup_insert_eq.
        split; [done |]. split; [| done].
        intros other Hother. by rewrite lookup_insert_ne.
  - cbn [fst snd]. rewrite get_job_status_eq, Hjob. done.
Qed.

(** X9: the status read of a job without durable record answers
    'not_found' (step 'error', progress 0, message 'Job not found') and
    creates no record. Without reaper pass it leaves the world as it is, a
    cache entry left for that id included; with the pass that entry is
    evicted. *)
Theorem get_job_status_unknown_job (w : World) (clean : bool) (job_id : string) :
  db_jobs w !! job_id = None →
  let w' := exec (get_job_status clean job_id) w in
  result (get_job_status clean job_id) w = Val not_found_status
  ∧ db_jobs w' !! job_id = None
  ∧ job_statuses w' !! job_id = (if clean then None else job_statuses w !! job_id)
  ∧ (clean = false → w' = w).
Proof.
  intros Hjob. cbv zeta. unfold exec, result. destruct clean.
  - rewrite get_job_status_clean.
    unfold exec at 1 2 3.
    destruct (clean_stale_cache_entries_exact w) as (db & cache & -> & Hdb & Hcache).
    cbn [fst].
    assert (db !! job_id = None) as Hgone.
    { rewrite Hdb, Hjob. by destruct (decide _). }
    rewrite get_job_status_eq. cbn [db_jobs with_job_statuses with_db_jobs].
    rewrite Hgone. cbn [fst snd job_statuses db_jobs with_job_statuses with_db_jobs].
    split; [done |]. split; [done |]. split; [| done].
    rewrite Hcache. unfold evictable. by rewrite Hjob.
  - rewrite get_job_status_eq, Hjob. done.
Qed.

Lemma get_job_status_unknown_job_witness :
  result (get_job_status true "ghost") empty_world = Val not_found_status
  ∧ exec (get_job_status false "ghost") empty_world = empty_world.
Proof.
  split.
  - destruct (get_job_status_unknown_job empty_world true "ghost") as (Hresult & _);
      [reflexivity | exact Hresult].
  - destruct (get_job_status_unknown_job empty_world false "ghost") as (_ & _ & _ & Hsame);
      [reflexivity | by apply Hsame].
Defined.

(** The read of a job whose record is terminal, with or without reaper
    pass. *)
Lemma get_job_status_terminal (w : World) (clean : bool) (job_id : string) (job : ProcessingJob) :
  db_jobs w !! job_id = Some job →
  job_status job = "completed" ∨ job_status job = "failed" →
  result (get_job_status clean job_id) w = Val (database_status job)
  ∧ job_statuses (exec (get_job_status clean job_id) w) !! job_id = Some (database_status job).
Proof.
  intros Hjob Hterminal.
  assert (∀ w0, db_jobs w0 !! job_id = Some job →
            result (get_job_status false job_id) w0 = Val (database_status job)
            ∧ job_statuses (exec (get_job_status false job_id) w0) !! job_id
                = Some (database_status job)) as Hread.
  { intros w0 Hjob0. unfold exec, result. rewrite get_job_status_eq, Hjob0.
    rewrite (proj2 (in_list_terminal _) Hterminal). cbn. by rewrite lookup_insert_eq. }
  destruct clean; [| by apply Hread].
  unfold exec, result. rewrite get_job_status_clean. apply Hread.
  unfold exec. destruct (clean_stale_cache_entries_exact w) as (db & cache & -> & Hdb & _).
  cbn. rewrite Hdb, Hjob.
  destruct (decide _); [| done]. cbn. by rewrite (terminal_not_stuck _ _ Hterminal).
Qed.

(** X10: after a cancel request for a job that has a durable record, a
    status read, with or without reaper pass, answers status 'failed', step
    'cancelled', progress 0 and the message "Current step: cancelled" (the
    step is none of the step choices, so its display is the value itself),
    and puts that answer back into the cache; a second cancel request through
    the view is refused with "Current status: failed" and changes
    nothing. *)
Theorem status_read_after_cancel
    (w : World) (clean : bool) (job_id : string) (job : ProcessingJob) :
  db_jobs w !! job_id = Some job →
  let w' := exec (cancel_job job_id) w in
  result (get_job_status clean job_id) w'
    = Val (mkSnapshot "failed" "cancelled" 0 "Current step: cancelled")
  ∧ job_statuses (exec (get_job_status clean job_id) w') !! job_id
      = Some (mkSnapshot "failed" "cancelled" 0 "Current step: cancelled")
  ∧ cancel_job_view job_id w' = (w', Val (NotCancellable "failed")).
Proof.
  intros Hjob. cbv zeta.
  assert (db_jobs (exec (cancel_job job_id) w) !! job_id = Some (cancelled_job (clock w) job))
    as Hcancelled.
  { unfold exec. rewrite cancel_job_eq. cbn. rewrite Hjob. apply lookup_insert_eq. }
  destruct (get_job_status_terminal _ clean _ _ Hcancelled (or_intror eq_refl))
    as [Hresult Hcache].
  split; [exact Hresult |]. split; [exact Hcache |].
  unfold cancel_job_view, try_except.
  rewrite bind_unfold, get_object_or_404_eq, Hcancelled. reflexivity.
Qed.

Lemma status_read_after_cancel_witness :
  result (get_job_status true "job-1") cancelled_world
    = Val (mkSnapshot "failed" "cancelled" 0 "Current step: cancelled").
Proof.
  destruct (status_read_after_cancel sample_world true "job-1" sample_job) as (Hresult & _);
    [reflexivity | exact Hresult].
Defined.

(** X11: for a cached job that is stuck, the status read that runs the
    reaper answers the timeout at once: status 'failed', step 'failed',
    progress 0, message "Current step: failed", which is then the cache
    entry; the read that does not run the reaper still answers the cached
    snapshot and changes nothing. *)
Theorem status_read_reports_timeout
    (w : World) (job_id : string) (snapshot : Snapshot) (job : ProcessingJob) (started : Z) :
  job_statuses w !! job_id = Some snapshot →
  db_jobs w !! job_id = Some job →
  job_status job = "processing" →
  started_at job = Some started →
  started < clock w - stale_after →
  result (get_job_status true job_id) w
    = Val (mkSnapshot "failed" "failed" 0 "Current step: failed")
  ∧ job_statuses (exec (get_job_status true job_id) w) !! job_id
      = Some (mkSnapshot "failed" "failed" 0 "Current step: failed")
  ∧ get_job_status false job_id w = (w, Val snapshot).
Proof.
  intros Hcached Hjob Hstatus Hstarted Hlate.
  pose proof (is_stuck_true (clock w) job started Hstatus Hstarted Hlate) as Hstuck.
  split; [| split].
  - unfold result. rewrite get_job_status_clean. unfold exec.
    destruct (clean_stale_cache_entries_exact w) as (db & cache & -> & Hdb & _).
    cbn [fst]. rewrite get_job_status_eq. cbn [db_jobs with_job_statuses with_db_jobs].
    rewrite Hdb, decide_True, Hjob by (by eexists). cbn [fmap option_fmap option_map].
    unfold reaped. rewrite Hstuck. reflexivity.
  - unfold exec. rewrite get_job_status_clean. unfold exec.
    destruct (clean_stale_cache_entries_exact w) as (db & cache & -> & Hdb & _).
    cbn [fst]. rewrite get_job_status_eq. cbn [db_jobs with_job_statuses with_db_jobs].
    rewrite Hdb, decide_True, Hjob by (by eexists). cbn [fmap option_fmap option_map].
    unfold reaped. rewrite Hstuck. cbn [fst]. world_fields. apply lookup_insert_eq.
  - rewrite get_job_status_eq, Hjob, Hcached.
    replace (in_list (job_status job) ["completed"; "failed"]) with false; [done |].
    symmetry. apply not_true_iff_false. rewrite in_list_terminal, Hstatus.
    intros [? | ?]; discriminate.
Qed.

Lemma status_read_reports_timeout_witness :
  result (get_job_status true "job-9") stale_world
    = Val (mkSnapshot "failed" "failed" 0 "Current step: failed")
  ∧ result (get_job_status false "job-9") stale_world
    = Val (mkSnapshot "processing" "transcribing" 40 "Transcribing audio...").
Proof.
  destruct (status_read_reports_timeout stale_world "job-9"
              (mkSnapshot "processing" "transcribing" 40 "Transcribing audio...") stuck_job 0)
    as (Htimeout & _ & Hcached);
    [reflexivity | reflexivity | reflexivity | reflexivity | vm_compute; reflexivity |].
  split; [exact Htimeout |]. unfold result. by rewrite Hcached.
Defined.

(** X12: the status endpoint never gives its error answer (status 500):
    it answers with the status dictionary of [get_job_status], plus the
    redirect to the results page exactly when the status in that dictionary
    is 'completed', and changes the world as the read does. A job whose
    record is 'completed' gets the redirect, a failed job gets none, and a
    job that does not exist is answered, with status 200, by the 'not_found'
    dictionary. *)
Theorem status_api_always_answers
    (reverse_results : string → string) (w : World) (clean : bool) (job_id : string) :
  (∃ status_info,
     result (get_job_status clean job_id) w = Val status_info
     ∧ status_api reverse_results clean job_id w =
         (exec (get_job_status clean job_id) w,
          Val (StatusOk status_info
                 (if String_eqb (snap_status status_info) "completed"
                  then Some (reverse_results job_id) else None))))
  ∧ (∀ job, db_jobs w !! job_id = Some job →
       job_status job = "completed" →
       result (status_api reverse_results clean job_id) w
         = Val (StatusOk (database_status job) (Some (reverse_results job_id))))
  ∧ (∀ job, db_jobs w !! job_id = Some job →
       job_status job = "failed" →
       result (status_api reverse_results clean job_id) w
         = Val (StatusOk (database_status job) None))
  ∧ (db_jobs w !! job_id = None →
     result (status_api reverse_results clean job_id) w = Val (StatusOk not_found_status None)).
Proof.
  assert (∀ status_info,
            result (get_job_status clean job_id) w = Val status_info →
            status_api reverse_results clean job_id w =
              (exec (get_job_status clean job_id) w,
               Val (StatusOk status_info
                      (if String_eqb (snap_status status_info) "completed"
                       then Some (reverse_results job_id) else None)))) as Hview.
  { intros status_info Hread. unfold status_api, try_except, exec.
    rewrite bind_unfold. unfold result in Hread.
    destruct (get_job_status clean job_id w) as [w1 r]. cbn in Hread. subst r.
    cbn [fst]. by destruct (String_eqb (snap_status status_info) "completed"). }
  split; [| split; [| split]].
  - assert (∃ status_info, result (get_job_status clean job_id) w = Val status_info)
      as [status_info Hread].
    { unfold result. destruct clean; [rewrite get_job_status_clean |];
        rewrite get_job_status_eq;
        (destruct (db_jobs _ !! job_id) as [job |]; [| by eexists]);
        (destruct (in_list (job_status job) ["completed"; "failed"]); [by eexists |]);
        destruct (job_statuses _ !! job_id); by eexists. }
    exists status_info. split; [exact Hread |]. by apply Hview.
  - intros job Hjob Hstatus.
    destruct (get_job_status_terminal w clean job_id job Hjob (or_introl Hstatus)) as [Hread _].
    unfold result at 1. rewrite (Hview _ Hread). cbn [snd database_status snap_status].
    by rewrite Hstatus.
  - intros job Hjob Hstatus.
    destruct (get_job_status_terminal w clean job_id job Hjob (or_intror Hstatus)) as [Hread _].
    unfold result at 1. rewrite (Hview _ Hread). cbn [snd database_status snap_status].
    by rewrite Hstatus.
  - intros Hjob.
    assert (result (get_job_status clean job_id) w = Val not_found_status) as Hread.
    { unfold result. destruct clean.
      - rewrite get_job_status_clean. unfold exec.
        destruct (clean_stale_cache_entries_exact w) as (db & cache & -> & Hdb & _).
        cbn [fst]. rewrite get_job_status_eq. cbn [db_jobs with_job_statuses with_db_jobs].
        rewrite Hdb, Hjob. by destruct (decide _).
      - by rewrite get_job_status_eq, Hjob. }
    unfold result at 1. by rewrite (Hview _ Hread).
Qed.

(** ** The pages and the files of the results *)

Lemma job_tracks_spec (job_id : string) (tracks : gmap (string * string) SpeakerTrack)
    (speaker_id : string) (track : SpeakerTrack) :
  (speaker_id, track) ∈ job_tracks job_id tracks ↔ tracks !! (job_id, speaker_id) = Some track.
Proof.
  unfold job_tracks. rewrite list_elem_of_omap. split.
  - intros ([[j s] t] & Hin & Hsome). cbn in Hsome.
    destruct (String_eqb j job_id) eqn:Hj; [| discriminate].
    apply String_eqb_eq in Hj. injection Hsome as -> ->. subst j.
    by apply elem_of_map_to_list in Hin.
  - intros Htrack. exists ((job_id, speaker_id), track). split.
    + by apply elem_of_map_to_list.
    + cbn. by rewrite (proj2 (String_eqb_eq _ _) eq_refl).
Qed.

Lemma job_tracks_NoDup (job_id : string) (tracks : gmap (string * string) SpeakerTrack) :
  NoDup (job_tracks job_id tracks).*1.
Proof.
  unfold job_tracks.
  pose proof (NoDup_fst_map_to_list tracks) as Hkeys.
  induction (map_to_list tracks) as [| [[j s] t] l IH]; [constructor |].
  cbn [fmap list_fmap fst] in Hkeys. apply NoDup_cons in Hkeys as [Hfresh Hkeys].
  cbn [omap list_omap fst snd].
  destruct (String_eqb j job_id) eqn:Hj; [| by apply IH].
  apply String_eqb_eq in Hj. subst j.
  cbn [fmap list_fmap fst]. apply NoDup_cons. split; [| by apply IH].
  intros Hin. apply list_elem_of_fmap in Hin as ([s' t'] & Hs & Hin). cbn in Hs. subst s'.
  apply list_elem_of_omap in Hin as ([[j2 s2] t2] & Hin & Hsome). cbn in Hsome.
  destruct (String_eqb j2 job_id) eqn:Hj2; [| discriminate].
  apply String_eqb_eq in Hj2. injection Hsome as -> ->. subst j2.
  apply Hfresh, list_elem_of_fmap. by exists ((job_id, s), t').
Qed.

#[local] Instance by_speaker_id_total : Total by_speaker_id.
Proof. intros a b. apply String.leb_total. Qed.

(** The tracks of a job, as the results page lists them. *)
Lemma tracks_of_spec (job_id : string) (tracks : gmap (string * string) SpeakerTrack) :
  (∀ speaker_id track,
     (speaker_id, track) ∈ tracks_of job_id tracks ↔ tracks !! (job_id, speaker_id) = Some track)
  ∧ NoDup (tracks_of job_id tracks).*1
  ∧ Sorted by_speaker_id (tracks_of job_id tracks).
Proof.
  unfold tracks_of. split; [| split].
  - intros speaker_id track. rewrite merge_sort_Permutation. apply job_tracks_spec.
  - rewrite merge_sort_Permutation. apply job_tracks_NoDup.
  - apply Sorted_merge_sort, _.
Qed.

(** X13: the results page is rendered for a job whose status is
    'completed' and for no other: a job in any other status gets the error
    page "Processing not completed yet or failed.", a job that does not exist
    the error page "Error loading results."; the view changes nothing. The
    page of a completed job lists exactly the tracks of that job, each
    speaker once, in the order of the speaker ids. *)
Theorem results_only_for_completed_jobs (w : World) (job_id : string) :
  (db_jobs w !! job_id = None →
   results job_id w = (w, Val (ErrorPage "Error loading results.")))
  ∧ (∀ job, db_jobs w !! job_id = Some job →
       job_status job ≠ "completed" →
       results job_id w = (w, Val (ErrorPage "Processing not completed yet or failed.")))
  ∧ (∀ job, db_jobs w !! job_id = Some job →
       job_status job = "completed" →
       ∃ speaker_tracks,
         results job_id w = (w, Val (ResultsPage job speaker_tracks))
         ∧ (∀ speaker_id track,
              (speaker_id, track) ∈ speaker_tracks
              ↔ db_tracks w !! (job_id, speaker_id) = Some track)
         ∧ NoDup speaker_tracks.*1
         ∧ Sorted by_speaker_id speaker_tracks).
Proof.
  split; [| split].
  - intros Hjob. unfold results, try_except.
    by rewrite bind_unfold, get_object_or_404_eq, Hjob.
  - intros job Hjob Hstatus. unfold results, try_except.
    rewrite bind_unfold, get_object_or_404_eq, Hjob.
    by rewrite (proj2 (String_eqb_neq _ _) Hstatus).
  - intros job Hjob Hstatus. exists (tracks_of job_id (db_tracks w)).
    split; [| apply tracks_of_spec].
    unfold results, try_except.
    rewrite bind_unfold, get_object_or_404_eq, Hjob.
    by rewrite (proj2 (String_eqb_eq _ _) Hstatus).
Qed.

Lemma get_track_or_404_eq (w : World) (job_id speaker_id : string) :
  get_track_or_404 job_id speaker_id w =
    match db_tracks w !! (job_id, speaker_id) with
    | Some track => (w, Val track)
    | None => (w, Raise (Http404 "No SpeakerTrack matches the given query."))
    end.
Proof.
  unfold get_track_or_404, try_except, track_get.
  by destruct (db_tracks w !! (job_id, speaker_id)).
Qed.

(** X14: the audio view changes nothing; it answers with the content of
    the file of the track exactly when the job, the track of that speaker
    and the file all exist, and in every other case with the 404 "Audio file
    not found". *)
Theorem serve_audio_answers (w : World) (job_id speaker_id : string) :
  exec (serve_audio job_id speaker_id) w = w
  ∧ (∀ audio,
       result (serve_audio job_id speaker_id) w = Val audio
       ↔ ∃ job track,
           db_jobs w !! job_id = Some job
           ∧ db_tracks w !! (job_id, speaker_id) = Some track
           ∧ files w !! audio_file_path track = Some audio)
  ∧ (∀ e, result (serve_audio job_id speaker_id) w = Raise e →
          e = Http404 "Audio file not found").
Proof.
  assert (serve_audio job_id speaker_id w =
            (w, match db_jobs w !! job_id, db_tracks w !! (job_id, speaker_id) with
                | Some _, Some track =>
                    match files w !! audio_file_path track with
                    | Some audio => Val audio
                    | None => Raise (Http404 "Audio file not found")
                    end
                | _, _ => Raise (Http404 "Audio file not found")
                end)) as Hview.
  { unfold serve_audio, try_except.
    rewrite bind_unfold, get_object_or_404_eq.
    destruct (db_jobs w !! job_id) as [job |]; [| reflexivity].
    rewrite bind_unfold, get_track_or_404_eq.
    destruct (db_tracks w !! (job_id, speaker_id)) as [track |]; [| reflexivity].
    rewrite bind_unfold. unfold path_exists, gets, read_audio.
    destruct (files w !! audio_file_path track) as [audio |] eqn:Hfile.
    - rewrite bool_decide_eq_true_2 by (by eexists). cbn [negb]. by rewrite Hfile.
    - rewrite bool_decide_eq_false_2 by (by intros [? ?]). reflexivity. }
  unfold exec, result. rewrite Hview. cbn [fst snd]. split; [done |]. split.
  - intros audio. split.
    + destruct (db_jobs w !! job_id) as [job |]; [| done].
      destruct (db_tracks w !! (job_id, speaker_id)) as [track |]; [| done].
      destruct (files w !! audio_file_path track) as [a |] eqn:Hfile; [| done].
      intros [= ->]. by exists job, track.
    + intros (job & track & -> & -> & ->). done.
  - intros e.
    destruct (db_jobs w !! job_id) as [job |]; [| by intros [= <-]].
    destruct (db_tracks w !! (job_id, speaker_id)) as [track |]; [| by intros [= <-]].
    destruct (files w !! audio_file_path track); [done | by intros [= <-]].
Qed.




(** ** Invariants of computations *)

Section Preserves.
Context (I : World → Prop).

Lemma preserves_weaken {A} (P P' : World → Prop) (m : M A) (Q Q' : A → World → Prop) :
  preserves I P m Q →
  (∀ w, P' w → P w) →
  (∀ a w, Q a w → Q' a w) →
  preserves I P' m Q'.
Proof.
  intros Hm HP HQ w HI HP'. destruct (Hm w HI (HP w HP')) as [HI' Hres].
  split; [done |]. intros a Ha. by apply HQ, Hres.
Qed.

Lemma preserves_bind {A B} (P : World → Prop) (m : M A) (Q1 : A → World → Prop)
    (k : A → M B) (Q : B → World → Prop) :
  preserves I P m Q1 →
  (∀ a, preserves I (Q1 a) (k a) Q) →
  preserves I P (m ≫= k) Q.
Proof.
  intros Hm Hk w HI HP. destruct (Hm w HI HP) as [HI' Hres].
  unfold exec, result in *. rewrite bind_unfold.
  destruct (m w) as [w1 [a | e]]; cbn [fst snd] in *.
  - apply (Hk a w1 HI'). by apply Hres.
  - split; [done |]. intros b Hb. discriminate Hb.
Qed.

Lemma preserves_try_except {A} (P : World → Prop) (m : M A) (h : Exn → M A)
    (Q : A → World → Prop) :
  preserves I P m Q →
  (∀ e, preserves I anywhere (h e) Q) →
  preserves I P (try_except m h) Q.
Proof.
  intros Hm Hh w HI HP. destruct (Hm w HI HP) as [HI' Hres].
  unfold exec, result, try_except in *.
  destruct (m w) as [w1 [a | e]]; cbn [fst snd] in *.
  - split; [done |]. exact Hres.
  - by apply (Hh e w1 HI').
Qed.

Lemma preserves_ret {A} (P : World → Prop) (a : A) (Q : A → World → Prop) :
  (∀ w, P w → Q a w) → preserves I P (mret a) Q.
Proof. intros HQ w HI HP. split; [done |]. intros a' [= <-]. by apply HQ. Qed.

Lemma preserves_raise {A} (P : World → Prop) (e : Exn) (Q : A → World → Prop) :
  preserves I P (raise e : M A) Q.
Proof. intros w HI HP. split; [done |]. intros a' Ha. discriminate Ha. Qed.

(** A computation that only reads. *)
Lemma preserves_read {A} (P : World → Prop) (m : M A) :
  (∀ w, exec m w = w) → preserves I P m (λ _, P).
Proof. intros Hread w HI HP. rewrite Hread. done. Qed.

(** A fact that does not depend on the world can be taken out of the
    precondition. *)
Lemma preserves_fact {A} (fact : Prop) (P : World → Prop) (m : M A) (Q : A → World → Prop) :
  (∀ w, P w → fact) →
  (fact → preserves I anywhere m Q) →
  preserves I P m Q.
Proof. intros Hfact Hm w HI HP. by apply (Hm (Hfact w HP) w HI). Qed.

Lemma preserves_for_enumerate {A} (body : Z → A → M unit) (xs : list A) :
  (∀ i x, preserves I anywhere (body i x) anything) →
  ∀ i, preserves I anywhere (for_enumerate i xs body) anything.
Proof.
  intros Hbody. induction xs as [| x rest IH]; intros i; cbn [for_enumerate].
  - by apply preserves_ret.
  - apply (preserves_bind _ _ anything); [apply Hbody |]. intros []. apply IH.
Qed.

Lemma preserves_for_each {A} (body : A → M unit) (xs : list A) :
  (∀ x, preserves I anywhere (body x) anything) →
  preserves I anywhere (for_each xs body) anything.
Proof.
  intros Hbody. induction xs as [| x rest IH]; cbn [for_each].
  - by apply preserves_ret.
  - apply (preserves_bind _ _ anything); [apply Hbody |]. intros []. apply IH.
Qed.
End Preserves.

Lemma exec_raise_if_cancelled id w : exec (raise_if_cancelled id) w = w.
Proof. unfold exec. by destruct (raise_if_cancelled_eq id w) as [-> | ->]. Qed.

Lemma exec_path_exists path w : exec (path_exists path) w = w.
Proof. reflexivity. Qed.

Lemma exec_read_audio path w : exec (read_audio path) w = w.
Proof. unfold exec, read_audio. by destruct (files w !! path). Qed.

Lemma exec_load_input env path w : exec (load_input env path) w = w.
Proof.
  unfold exec, load_input, try_except, read_audio, raise.
  destruct (from_file_ok env); destruct (files w !! path);
    destruct (from_format_ok env) as [[|] |]; cbn; try done;
    destruct (files w !! path); done.
Qed.

Lemma exec_lift {A} (r : Res A) w : exec (lift r) w = w.
Proof. reflexivity. Qed.

Lemma exec_objects_get id w : exec (objects_get id) w = w.
Proof. unfold exec, objects_get. by destruct (db_jobs w !! id). Qed.

(** ** Invariants that every step of the pipeline preserves *)

Section Pipeline.
Context (env : Env) (job_id : string) (between : Stage → M unit) (I : World → Prop).

Hypothesis Hupdate : ∀ P status step progress message,
  pipeline_write status progress →
  preserves I P (update_job_status job_id status step progress message) anything.
Hypothesis Hexport_converted : ∀ P audio,
  preserves I P (export env (converted_path env job_id) audio) anything.
Hypothesis Hexport_speaker : ∀ P speaker_id audio,
  preserves I P (export env (speaker_path env job_id speaker_id) audio) anything.
Hypothesis Hremove_converted : ∀ P,
  preserves I P (modify (with_files (delete (converted_path env job_id)))) anything.
Hypothesis Htrack_create : ∀ P speaker_id track,
  preserves I P (track_create job_id speaker_id track) anything.
Hypothesis Hsave_results : ∀ n dir job,
  preserves I (λ w, db_jobs w !! job_id = Some job) (save job_id (set_results n dir job))
    anything.
Hypothesis Hsave_error : ∀ msg job,
  preserves I (λ w, db_jobs w !! job_id = Some job) (save job_id (set_error_message msg job))
    anything.
Hypothesis Hbetween : ∀ stage, preserves I anywhere (between stage) anything.

Lemma preserves_reads {A P} (m : M A) :
  (∀ w, exec m w = w) → preserves I P m anything.
Proof. intros Hread w HI HP. rewrite Hread. done. Qed.

Lemma preserves_objects_get {P} :
  preserves I P (objects_get job_id) (λ job w, db_jobs w !! job_id = Some job).
Proof.
  intros w HI _. rewrite exec_objects_get. split; [done |].
  unfold result, objects_get. intros job.
  destruct (db_jobs w !! job_id); [by intros [= ->] | discriminate].
Qed.

(** One step of a derivation of [preserves]. *)
Ltac keep :=
  cbv zeta;
  lazymatch goal with
  | |- preserves _ _ (update_job_status _ "processing" _ _ _ ≫= _) _ =>
      eapply preserves_bind; [apply Hupdate; by left | intros []]
  | |- preserves _ _ (update_job_status _ "completed" _ _ _) _ =>
      apply Hupdate; by right; left
  | |- preserves _ _ (update_job_status _ "failed" _ 0 _ ≫= _) _ =>
      eapply preserves_bind; [apply Hupdate; by right; right | intros []]
  | |- preserves _ _ (update_job_status _ "processing" _ _ _) _ =>
      apply Hupdate; by left
  | |- preserves _ _ (raise_if_cancelled _ ≫= _) _ =>
      eapply preserves_bind; [apply preserves_reads, exec_raise_if_cancelled | intros []]
  | |- preserves _ _ (path_exists _ ≫= _) _ =>
      eapply preserves_bind; [apply preserves_reads, exec_path_exists | intros ?]
  | |- preserves _ _ (read_audio _ ≫= _) _ =>
      eapply preserves_bind; [apply preserves_reads, exec_read_audio | intros ?]
  | |- preserves _ _ (load_input _ _ ≫= _) _ =>
      eapply preserves_bind; [apply preserves_reads, exec_load_input | intros ?]
  | |- preserves _ _ (lift _ ≫= _) _ =>
      eapply preserves_bind; [apply preserves_reads, exec_lift | intros ?]
  | |- preserves _ _ (track_create _ _ _ ≫= _) _ =>
      eapply preserves_bind; [apply Htrack_create | intros []]
  | |- preserves _ _ (between _ ≫= _) _ =>
      eapply preserves_bind; [apply Hbetween | intros []]
  | |- preserves _ _ (mret _ ≫= _) _ =>
      eapply preserves_bind; [by apply (preserves_ret _ _ _ anything) | intros ?]
  | |- preserves _ _ (mret _) _ => by apply preserves_ret
  | |- preserves _ _ (raise _) _ => apply preserves_raise
  | |- preserves _ _ (if ?c then _ else _) _ => destruct c
  end.

Lemma preserves_convert_to_wav input_path :
  preserves I anywhere (convert_to_wav env input_path job_id)
    (λ wav_path _, wav_path = converted_path env job_id).
Proof.
  unfold convert_to_wav. apply preserves_try_except; [| intros e; keep].
  repeat keep.
  fold (converted_path env job_id).
  eapply preserves_bind; [apply Hexport_converted | intros []].
  repeat keep.
Qed.

Lemma preserves_run_mock {P} :
  preserves I P (_run_mock_whisperx job_id) anything.
Proof.
  unfold _run_mock_whisperx. keep.
  eapply preserves_bind; [| intros []; keep].
  apply preserves_for_each. intros i. keep.
Qed.

Lemma preserves_transcription wav_path :
  preserves I anywhere (run_whisperx_transcription env wav_path job_id) anything.
Proof.
  unfold run_whisperx_transcription.
  apply preserves_try_except; [| intros e; apply preserves_run_mock].
  repeat keep.
  destruct (engine env) as [| | | segments align diarize].
  - apply preserves_run_mock.
  - repeat keep.
  - repeat keep.
  - unfold align_and_diarize. repeat keep.
    destruct diarize as [n assigned | [n |] | [n |]]; repeat keep.
Qed.

Lemma preserves_separate_loop audio total items : ∀ speaker_idx speaker_files,
  preserves I anywhere
    (separate_loop env job_id audio (output_dir env +:+ "/" +:+ job_id) total speaker_idx
       items speaker_files) anything.
Proof.
  induction items as [| [speaker_id segments] rest IH]; intros speaker_idx speaker_files;
    cbn [separate_loop].
  - keep.
  - repeat keep. fold (speaker_path env job_id speaker_id).
    eapply preserves_bind; [apply Hexport_speaker | intros []].
    apply IH.
Qed.

Lemma preserves_separate_speakers wav_path transcription_result :
  preserves I anywhere (separate_speakers env wav_path transcription_result job_id) anything.
Proof.
  unfold separate_speakers. apply preserves_try_except; [| intros e; keep].
  repeat keep. cbv zeta. apply preserves_separate_loop.
Qed.

Lemma preserves_finalize_processing speaker_files transcription_result :
  preserves I anywhere (finalize_processing job_id speaker_files transcription_result)
    anything.
Proof.
  unfold finalize_processing. apply preserves_try_except; [| intros e; keep].
  keep.
  eapply preserves_bind; [apply preserves_objects_get | intros job].
  cbv zeta.
  eapply preserves_bind; [apply preserves_read, exec_lift | intros first].
  eapply preserves_bind; [apply Hsave_results | intros []].
  eapply preserves_bind; [| intros []; keep].
  apply preserves_for_enumerate. intros i speaker_file. repeat keep.
Qed.

Lemma preserves_pipeline_failed e :
  preserves I anywhere (pipeline_failed job_id e) anything.
Proof.
  unfold pipeline_failed. keep.
  apply preserves_try_except; [| intros e'; keep].
  eapply preserves_bind; [apply preserves_objects_get | intros job].
  apply Hsave_error.
Qed.

Lemma preserves_pipeline_stages :
  preserves I anywhere (pipeline_stages env between job_id) anything.
Proof.
  unfold pipeline_stages.
  eapply preserves_bind; [apply preserves_objects_get | intros job].
  keep. keep.
  eapply preserves_bind; [apply preserves_convert_to_wav | intros wav_path].
  apply (preserves_fact _ (wav_path = converted_path env job_id)); [done |]. intros ->.
  keep.
  eapply preserves_bind; [apply preserves_transcription | intros transcription_result].
  keep.
  eapply preserves_bind; [apply preserves_separate_speakers | intros speaker_files].
  keep.
  eapply preserves_bind; [apply preserves_finalize_processing | intros []].
  apply preserves_try_except; [| intros e; keep].
  repeat keep. apply Hremove_converted.
Qed.

(** Every step of a run preserves an invariant that its writes preserve. *)
Lemma preserves_run_separation_pipeline :
  preserves I anywhere (run_separation_pipeline_with env between job_id) anything.
Proof.
  unfold run_separation_pipeline_with.
  apply preserves_try_except; [apply preserves_pipeline_stages |].
  apply preserves_pipeline_failed.
Qed.
End Pipeline.

(** ** The footprint of a run *)

Lemma updated_job_started_at now status step progress job t :
  started_at job = Some t → started_at (updated_job now status step progress job) = Some t.
Proof.
  intros Hstarted. unfold updated_job.
  destruct (String_eqb status "failed" && String_eqb step "cancelled");
    cbn [started_at set_status set_error_message]; rewrite Hstarted;
    rewrite bool_decide_eq_false_2 by done; rewrite andb_false_r;
    destruct (in_list status ["completed"; "failed"]); done.
Qed.

Lemma run_footprint_refl env job_id w : run_footprint env job_id w w.
Proof.
  repeat (split; [done |]).
  destruct (db_jobs w !! job_id) as [job |] eqn:Hjob; [| done]. by exists job.
Qed.

Section Footprint.
Context (env : Env) (job_id : string) (w0 : World).


(** A new record for the job, with the upload path and the start time of
    the record it replaces. *)
Lemma footprint_save (w : World) (job job' : ProcessingJob) :
  (run_footprint env job_id w0) w →
  db_jobs w !! job_id = Some job →
  uploaded_file_path job' = uploaded_file_path job →
  (∀ t, started_at job = Some t → started_at job' = Some t) →
  (run_footprint env job_id w0) (with_db_jobs (insert job_id job') w).
Proof.
  intros (Hflags & Hthreads & Hclock & Hothers & Htracks & Hkept & Hfiles & Hjob0)
    Hjob Hpath Hstarted.
  split; [done |]. split; [done |]. split; [done |].
  split; [intros other Hother; world_fields; rewrite lookup_insert_ne by done;
          by apply Hothers |].
  split; [done |]. split; [done |]. split; [done |].
  world_fields. rewrite lookup_insert_eq.
  destruct (db_jobs w0 !! job_id) as [job0 |]; [| congruence].
  destruct Hjob0 as (job1 & Hjob1 & Hpath1 & Hstarted1).
  rewrite Hjob in Hjob1. injection Hjob1 as <-.
  exists job'. split; [done |]. split; [congruence |].
  intros t Ht. by apply Hstarted, Hstarted1.
Qed.

Lemma footprint_cache (w : World) (snapshot : Snapshot) :
  (run_footprint env job_id w0) w → (run_footprint env job_id w0) (with_job_statuses (insert job_id snapshot) w).
Proof.
  intros (Hflags & Hthreads & Hclock & Hothers & Htracks & Hkept & Hfiles & Hjob0).
  split; [done |]. split; [done |]. split; [done |].
  split; [intros other Hother; world_fields; rewrite lookup_insert_ne by done;
          by apply Hothers |].
  done.
Qed.

Lemma footprint_log (w : World) f :
  (run_footprint env job_id w0) w → (run_footprint env job_id w0) (with_status_log f w).
Proof. done. Qed.

Lemma footprint_update {P} status step progress message :
  preserves (run_footprint env job_id w0) P (update_job_status job_id status step progress message) anything.
Proof.
  intros w HI _. split; [| done].
  unfold exec. rewrite update_job_status_eq.
  destruct (discarded w job_id status); [done |].
  destruct (db_jobs w !! job_id) as [job |] eqn:Hjob; cbn [fst].
  - unfold written. apply (footprint_save _ job).
    + by apply footprint_cache, footprint_log.
    + done.
    + apply updated_job_keeps.
    + intros t. apply updated_job_started_at.
  - unfold written_cache_only. by apply footprint_cache, footprint_log.
Qed.

Lemma footprint_file (w : World) f :
  (run_footprint env job_id w0) w →
  (∀ fs path,
     path ≠ converted_path env job_id →
     (∀ speaker_id, path ≠ speaker_path env job_id speaker_id) →
     f fs !! path = fs !! path) →
  (run_footprint env job_id w0) (with_files f w).
Proof.
  intros (Hflags & Hthreads & Hclock & Hothers & Htracks & Hkept & Hfiles & Hjob0) Hf.
  split; [done |]. split; [done |]. split; [done |]. split; [done |].
  split; [done |]. split; [done |]. split; [| done].
  intros path Hconverted Hspeaker. world_fields.
  rewrite Hf by done. by apply Hfiles.
Qed.

Lemma footprint_export_converted {P} audio :
  preserves (run_footprint env job_id w0) P (export env (converted_path env job_id) audio) anything.
Proof.
  intros w HI _. split; [| done]. unfold exec, export.
  destruct (export_ok env _); [| done].
  apply footprint_file; [done |].
  intros fs path Hconverted _. by rewrite lookup_insert_ne.
Qed.

Lemma footprint_export_speaker {P} speaker_id audio :
  preserves (run_footprint env job_id w0) P (export env (speaker_path env job_id speaker_id) audio) anything.
Proof.
  intros w HI _. split; [| done]. unfold exec, export.
  destruct (export_ok env _); [| done].
  apply footprint_file; [done |].
  intros fs path _ Hspeaker. rewrite lookup_insert_ne; [done |].
  intros Heq. by apply (Hspeaker speaker_id).
Qed.

Lemma footprint_remove_converted {P} :
  preserves (run_footprint env job_id w0) P (modify (with_files (delete (converted_path env job_id)))) anything.
Proof.
  intros w HI _. split; [| done].
  apply footprint_file; [done |].
  intros fs path Hconverted _. by rewrite lookup_delete_ne.
Qed.

Lemma footprint_track_create {P} speaker_id track :
  preserves (run_footprint env job_id w0) P (track_create job_id speaker_id track) anything.
Proof.
  intros w HI _. split; [| done]. unfold exec, track_create.
  destruct (db_tracks w !! (job_id, speaker_id)) eqn:Hfresh; [done |]. cbn [fst].
  destruct HI as (Hflags & Hthreads & Hclock & Hothers & Htracks & Hkept & Hfiles & Hjob0).
  split; [done |]. split; [done |]. split; [done |]. split; [done |].
  split; [| split; [| done]].
  - intros other sid Hother. world_fields.
    rewrite lookup_insert_ne by congruence. by apply Htracks.
  - intros sid t Ht. world_fields.
    destruct (decide (sid = speaker_id)) as [-> | Hne].
    + apply Hkept in Ht. congruence.
    + rewrite lookup_insert_ne by congruence. by apply Hkept.
Qed.

Lemma footprint_save_results n dir job :
  preserves (run_footprint env job_id w0) (λ w, db_jobs w !! job_id = Some job)
    (save job_id (set_results n dir job)) anything.
Proof.
  intros w HI Hjob. split; [| done].
  by apply (footprint_save w job).
Qed.

Lemma footprint_save_error msg job :
  preserves (run_footprint env job_id w0) (λ w, db_jobs w !! job_id = Some job)
    (save job_id (set_error_message msg job)) anything.
Proof.
  intros w HI Hjob. split; [| done].
  by apply (footprint_save w job).
Qed.

Lemma footprint_run_separation_pipeline :
  preserves (run_footprint env job_id w0) anywhere (run_separation_pipeline env job_id) anything.
Proof.
  unfold run_separation_pipeline. apply preserves_run_separation_pipeline.
  - intros P status step progress message _. apply footprint_update.
  - intros P audio. apply footprint_export_converted.
  - intros P speaker_id audio. apply footprint_export_speaker.
  - intros P. apply footprint_remove_converted.
  - intros P speaker_id track. apply footprint_track_create.
  - apply footprint_save_results.
  - apply footprint_save_error.
  - intros stage. by apply preserves_ret.
Qed.
End Footprint.

Lemma pipeline_failed_returns job_id e w : result (pipeline_failed job_id e) w = Val tt.
Proof.
  unfold result, pipeline_failed. rewrite bind_unfold.
  destruct (update_job_status_total w job_id "failed" "error" 0
              ("Processing failed: " +:+ exn_str e)) as (w1 & ->).
  cbv beta iota. unfold try_except. rewrite bind_unfold. unfold objects_get.
  by destruct (db_jobs w1 !! job_id).
Qed.

(** X16: a run of the pipeline for one job returns normally and stays
    within its footprint: it changes no cancellation flag, no thread entry
    and not the clock; no record, cache entry or track of another job; no
    track that was there before; no file but the converted file and the
    speaker files of its own job (so it neither deletes nor rewrites an
    upload stored elsewhere); it creates no job record; and of the record of
    its job it keeps the upload path and a start time that was already
    set. *)
Theorem pipeline_touches_only_its_job (env : Env) (job_id : string) (w : World) :
  result (run_separation_pipeline env job_id) w = Val tt
  ∧ run_footprint env job_id w (exec (run_separation_pipeline env job_id) w).
Proof.
  split.
  - unfold result, run_separation_pipeline, run_separation_pipeline_with, try_except.
    destruct (pipeline_stages env (λ _, mret tt) job_id w) as [w1 [[] | e]]; [done |].
    apply pipeline_failed_returns.
  - by apply (footprint_run_separation_pipeline env job_id w w (run_footprint_refl _ _ _)).
Qed.

(** ** Runs that fail *)

Lemma failed_is_never_discarded w job_id : discarded w job_id "failed" = false.
Proof.
  unfold discarded.
  replace (in_list "failed" ["failed"; "cancelled"]) with true
    by (symmetry; apply in_list_true, list_elem_of_here).
  apply andb_false_r.
Qed.

(** A status write for a job that is not cancelled and has a record. *)
Lemma update_job_status_written w job_id status step progress message job :
  job_cancellations w !! job_id = None →
  db_jobs w !! job_id = Some job →
  update_job_status job_id status step progress message w
    = (written job_id status step progress message job w, Val tt).
Proof.
  intros Hflag Hjob. rewrite update_job_status_eq. unfold discarded.
  by rewrite Hflag, Hjob.
Qed.

(** X18: a run of the pipeline for a job id that has no durable record
    returns normally, writes neither record, file nor track, and leaves one
    thing behind: a cache entry for that id with status 'failed', step
    'error', progress 0 and the message of the failed lookup. A status read
    of that id still answers 'not_found'. *)
Theorem pipeline_for_unknown_job (env : Env) (w : World) (job_id : string) :
  db_jobs w !! job_id = None →
  let w' := exec (run_separation_pipeline env job_id) w in
  result (run_separation_pipeline env job_id) w = Val tt
  ∧ db_jobs w' = db_jobs w
  ∧ job_statuses w' =
      <[job_id := mkSnapshot "failed" "error" 0
                    "Processing failed: ProcessingJob matching query does not exist."]>
        (job_statuses w)
  ∧ files w' = files w
  ∧ db_tracks w' = db_tracks w
  ∧ result (get_job_status false job_id) w' = Val not_found_status.
Proof.
  intros Hjob. cbv zeta.
  assert (run_separation_pipeline env job_id w =
            (written_cache_only job_id "failed" "error" 0
               "Processing failed: ProcessingJob matching query does not exist." w, Val tt))
    as Hrun.
  { unfold run_separation_pipeline, run_separation_pipeline_with, try_except, pipeline_stages.
    rewrite bind_unfold. unfold objects_get at 1. rewrite Hjob.
    unfold pipeline_failed. rewrite bind_unfold, update_job_status_eq.
    rewrite failed_is_never_discarded, Hjob.
    cbv beta iota. unfold try_except. rewrite bind_unfold. unfold objects_get.
    unfold written_cache_only. world_fields. by rewrite Hjob. }
  unfold exec, result. rewrite Hrun. cbn [fst snd]. unfold written_cache_only. world_fields.
  repeat (split; [done |]).
  rewrite get_job_status_eq. world_fields. by rewrite Hjob.
Qed.

Lemma pipeline_for_unknown_job_witness :
  job_statuses (exec (run_separation_pipeline sample_env "ghost") empty_world) !! "ghost"
    = Some (mkSnapshot "failed" "error" 0
              "Processing failed: ProcessingJob matching query does not exist.")
  ∧ result (get_job_status false "ghost")
      (exec (run_separation_pipeline sample_env "ghost") empty_world) = Val not_found_status.
Proof.
  destruct (pipeline_for_unknown_job sample_env empty_world "ghost")
    as (_ & _ & Hcache & _ & _ & Hread); [reflexivity |].
  split; [by rewrite Hcache, lookup_insert_eq | exact Hread].
Defined.

(** X17: when the upload of a job that is not cancelled is not on disk,
    the run returns normally and ends the job as 'failed' at step 'error'
    with progress 0, the error message "Input file not found: <path>",
    [completed_at] now and [started_at] now unless it was already set; the
    cache entry carries "Processing failed: Input file not found: <path>";
    no file and no track is written. *)
Theorem pipeline_without_upload_fails
    (env : Env) (w : World) (job_id : string) (job : ProcessingJob) :
  db_jobs w !! job_id = Some job →
  job_cancellations w !! job_id = None →
  files w !! uploaded_file_path job = None →
  let w' := exec (run_separation_pipeline env job_id) w in
  let reason := "Input file not found: " +:+ uploaded_file_path job in
  result (run_separation_pipeline env job_id) w = Val tt
  ∧ db_jobs w' !! job_id =
      Some (mkJob (uploaded_file_path job) "failed" "error" 0 (speaker_count job)
              (output_directory job) (Some reason)
              (Some (default (clock w) (started_at job))) (Some (clock w)))
  ∧ job_statuses w' !! job_id
      = Some (mkSnapshot "failed" "error" 0 ("Processing failed: " +:+ reason))
  ∧ files w' = files w
  ∧ db_tracks w' = db_tracks w.
Proof.
  intros Hjob Hflag Hfile. cbv zeta.
  set (reason := "Input file not found: " +:+ uploaded_file_path job).
  set (job1 := updated_job (clock w) "processing" "initializing" 5 job).
  set (w1 := written job_id "processing" "initializing" 5
               "Starting audio processing pipeline..." job w).
  set (job2 := updated_job (clock w) "processing" "converting" 10 job1).
  set (w2 := written job_id "processing" "converting" 10
               "Starting audio conversion to WAV format..." job1 w1).
  set (job3 := updated_job (clock w) "failed" "error" 0 job2).
  set (w3 := written job_id "failed" "error" 0 ("Processing failed: " +:+ reason) job2 w2).
  assert (run_separation_pipeline env job_id w =
            (with_db_jobs (insert job_id (set_error_message reason job3)) w3, Val tt)) as Hrun.
  { unfold run_separation_pipeline, run_separation_pipeline_with, try_except, pipeline_stages.
    rewrite bind_unfold. unfold objects_get at 1. rewrite Hjob. cbv beta iota.
    rewrite bind_unfold, (update_job_status_written _ _ _ _ _ _ job Hflag Hjob).
    fold w1. cbv beta iota. rewrite bind_unfold. step_ret. cbv beta iota.
    rewrite bind_unfold. unfold convert_to_wav at 1, try_except.
    rewrite bind_unfold.
    assert (job_cancellations w1 !! job_id = None) as Hflag1 by exact Hflag.
    assert (db_jobs w1 !! job_id = Some job1) as Hjob1 by apply lookup_insert_eq.
    rewrite (raise_if_cancelled_live w1 job_id) by (split; [done | by eexists]).
    cbv beta iota.
    rewrite bind_unfold, (update_job_status_written _ _ _ _ _ _ job1 Hflag1 Hjob1).
    fold w2. cbv beta iota.
    assert (job_cancellations w2 !! job_id = None) as Hflag2 by exact Hflag.
    assert (db_jobs w2 !! job_id = Some job2) as Hjob2 by apply lookup_insert_eq.
    rewrite bind_unfold. unfold path_exists at 1, gets at 1. cbv beta iota.
    replace (files w2 !! uploaded_file_path job) with (@None AudioSegment.t)
      by (symmetry; exact Hfile).
    rewrite bool_decide_eq_false_2 by (by intros [? ?]). cbn [negb].
    unfold raise at 1 2. cbv beta iota.
    fold reason. unfold pipeline_failed.
    rewrite bind_unfold. cbn [exn_str].
    rewrite (update_job_status_written _ _ _ _ _ _ job2 Hflag2 Hjob2).
    fold w3. cbv beta iota. unfold try_except.
    rewrite bind_unfold. unfold objects_get.
    replace (db_jobs w3 !! job_id) with (Some job3) by (symmetry; apply lookup_insert_eq).
    reflexivity. }
  unfold exec, result. rewrite Hrun. cbn [fst snd]. split; [done |].
  split; [| split; [| done]].
  - world_fields. rewrite lookup_insert_eq. f_equal.
    unfold job3, job2, job1. destruct job as [path st sp pr sc od em [started |] done_at];
      reflexivity.
  - unfold w3, written. world_fields. by rewrite lookup_insert_eq.
Qed.

(** Transcribing with an engine that transcribes, for a live job whose
    converted file is there: the transcript of the engine, and nothing
    written but status. *)
Lemma run_whisperx_transcription_engine_live env wav_path job_id w0 w audio
    segments align diarize :
  engine env = Transcribes segments align diarize →
  same_job_data job_id w0 w →
  live job_id w →
  files w !! wav_path = Some audio →
  ∃ w', run_whisperx_transcription env wav_path job_id w
          = (w', Val (transcript_of segments align diarize))
        ∧ stores w' = stores w
        ∧ same_job_data job_id w0 w'
        ∧ live job_id w'.
Proof.
  intros Hengine Hsame Hlive Hwav.
  remember (stores w) as fs eqn:Hfiles. symmetry in Hfiles.
  assert (files w = fs.1) as Hfs by (by rewrite <- Hfiles).
  unfold run_whisperx_transcription, try_except.
  live_check Hlive.
  live_update Hlive Hfiles Hsame.
  rewrite bind_unfold, (path_exists_found _ _ audio)
    by (by rewrite (f_equal fst Hfiles : files _ = fs.1), <- Hfs).
  cbv beta iota. cbn [negb]. rewrite Hengine.
  live_update Hlive Hfiles Hsame.
  live_check Hlive.
  live_update Hlive Hfiles Hsame.
  unfold align_and_diarize.
  live_check Hlive.
  live_update Hlive Hfiles Hsame.
  cbv zeta.
  live_check Hlive.
  live_update Hlive Hfiles Hsame.
  destruct diarize as [n assigned | [n |] | [n |]]; cbn [transcript_of].
  - live_update Hlive Hfiles Hsame. step_ret. by eexists.
  - rewrite bind_unfold. live_update Hlive Hfiles Hsame. step_ret. by eexists.
  - rewrite bind_unfold. step_ret. cbv beta iota. step_ret. by eexists.
  - rewrite bind_unfold. live_update Hlive Hfiles Hsame. step_ret. by eexists.
  - rewrite bind_unfold. step_ret. cbv beta iota. step_ret. by eexists.
Qed.

(** The cache entry after a status write for a live job. *)
Lemma update_job_status_cache_entry w job_id status step progress message :
  live job_id w →
  job_statuses (update_job_status job_id status step progress message w).1 !! job_id
    = Some (mkSnapshot status step progress message).
Proof.
  intros [Hflag [job Hjob]].
  rewrite (update_job_status_written _ _ _ _ _ _ job Hflag Hjob). cbn [fst].
  unfold written. world_fields. apply lookup_insert_eq.
Qed.

(** X19: when the engine transcribes but the transcript it gives has no
    segment, a run for a job that is not cancelled and whose upload decodes
    does not complete: Separating writes no file, Finalizing raises on the
    first of the speaker files, and the job ends as 'failed' at step 'error'
    with progress 0 and the error message "list index out of range"; no
    track is written, the speaker count stays what it was, and the converted
    file is left in the temporary directory. *)
Theorem pipeline_with_empty_transcript_fails
    (env : Env) (w : World) (job_id : string) (job : ProcessingJob) (audio : AudioSegment.t)
    (segments : list Segment) (align : AlignOutcome) (diarize : DiarizeOutcome) :
  db_jobs w !! job_id = Some job →
  job_cancellations w !! job_id = None →
  files w !! uploaded_file_path job = Some audio →
  decodes env →
  export_ok env (converted_path env job_id) = true →
  engine env = Transcribes segments align diarize →
  transcript_of segments align diarize = [] →
  let w' := exec (run_separation_pipeline env job_id) w in
  result (run_separation_pipeline env job_id) w = Val tt
  ∧ (∃ job', db_jobs w' !! job_id = Some job'
             ∧ job_status job' = "failed"
             ∧ current_step job' = "error"
             ∧ progress_percentage job' = 0
             ∧ error_message job' = Some "list index out of range"
             ∧ speaker_count job' = speaker_count job)
  ∧ job_statuses w' !! job_id
      = Some (mkSnapshot "failed" "error" 0 "Processing failed: list index out of range")
  ∧ db_tracks w' = db_tracks w
  ∧ files w' = <[converted_path env job_id := audio]> (files w).
Proof.
  intros Hjob Hflag Hinput Hdecodes Hexport Hengine Hempty. cbv zeta.
  assert (live job_id w) as Hlive by (split; [done | by eexists]).
  pose proof (same_job_data_refl job_id w) as Hsame.
  assert (stores w = (files w, db_tracks w)) as Hstores by reflexivity.
  assert (∃ w' job',
            run_separation_pipeline env job_id w = (w', Val tt)
            ∧ db_jobs w' !! job_id = Some job'
            ∧ job_status job' = "failed"
            ∧ current_step job' = "error"
            ∧ progress_percentage job' = 0
            ∧ error_message job' = Some "list index out of range"
            ∧ speaker_count job' = speaker_count job
            ∧ job_statuses w' !! job_id
                = Some (mkSnapshot "failed" "error" 0
                          "Processing failed: list index out of range")
            ∧ stores w' = (<[converted_path env job_id := audio]> (files w), db_tracks w))
    as (w' & job' & Heq & Hjob' & Hstatus & Hstep & Hprogress & Herror & Hcount & Hcache & Hst).
  { unfold run_separation_pipeline, run_separation_pipeline_with, try_except, pipeline_stages.
    step_bind. unfold objects_get at 1. rewrite Hjob. cbv beta iota.
    live_update Hlive Hstores Hsame.
    step_bind. step_ret. cbv beta iota.
    step_bind.
    lazymatch goal with
    | |- context [convert_to_wav env ?input ?id ?w1] =>
        destruct (convert_to_wav_live env input id w w1 audio Hsame Hlive)
          as (w2 & -> & Hstores2 & Hsame2 & Hlive2);
          [by rewrite (stores_files _ _ _ Hstores) | done | done |]
    end.
    rewrite (stores_files _ _ _ Hstores), (stores_tracks _ _ _ Hstores) in Hstores2.
    clear Hstores Hsame Hlive. cbv beta iota.
    step_bind. step_ret. cbv beta iota.
    step_bind.
    destruct (run_whisperx_transcription_engine_live env (converted_path env job_id) job_id
                w w2 audio segments align diarize Hengine Hsame2 Hlive2)
      as (w3 & -> & Hstores3 & Hsame3 & Hlive3);
      [by rewrite (stores_files _ _ _ Hstores2), lookup_insert_eq |].
    rewrite Hstores2 in Hstores3. clear Hstores2 Hsame2 Hlive2. cbv beta iota.
    rewrite Hempty.
    step_bind. step_ret. cbv beta iota.
    step_bind. unfold separate_speakers at 1, try_except.
    live_check Hlive3.
    live_update Hlive3 Hstores3 Hsame3.
    rewrite bind_unfold, (path_exists_found _ _ audio)
      by (by rewrite (stores_files _ _ _ Hstores3), lookup_insert_eq).
    cbv beta iota. cbn [negb].
    rewrite bind_unfold, (read_audio_found _ _ audio)
      by (by rewrite (stores_files _ _ _ Hstores3), lookup_insert_eq).
    cbv beta iota zeta. cbn [group_by_speaker foldl separate_loop]. step_ret. cbv beta iota.
    step_bind. step_ret. cbv beta iota.
    step_bind. unfold finalize_processing at 1, try_except.
    live_update Hlive3 Hstores3 Hsame3.
    pose proof Hlive3 as [Hflag3 [job3 Hjob3]].
    rewrite bind_unfold. unfold objects_get at 1. rewrite Hjob3. cbv beta iota zeta.
    rewrite bind_unfold. unfold lift at 1. cbv beta iota.
    unfold raise at 1. cbv beta iota.
    unfold pipeline_failed. cbn [exn_str].
    rewrite bind_unfold.
    lazymatch goal with
    | |- context [update_job_status ?id ?st ?sp ?p ?m ?w1] =>
        destruct (update_job_status_live w1 id st sp p m Hlive3)
          as (wz & Hupdate & Hstoresz & Hsamez & jobz & Hjobz & Hstatusz & Hstepz & Hprogressz);
        pose proof (update_job_status_cache_entry w1 id st sp p m Hlive3) as Hcachez
    end.
    rewrite Hupdate in Hcachez |- *. cbv beta iota. cbn [fst] in Hcachez.
    unfold try_except. rewrite bind_unfold. unfold objects_get. rewrite Hjobz.
    cbv beta iota. unfold save, modify.
    eexists _, (set_error_message "list index out of range" jobz).
    split; [reflexivity |]. world_fields.
    split; [apply lookup_insert_eq |].
    split; [exact Hstatusz |]. split; [exact Hstepz |]. split; [exact Hprogressz |].
    split; [done |].
    split.
    { pose proof (same_job_data_trans _ _ _ _ Hsame3 Hsamez) as (_ & _ & Hkeeps).
      destruct (Hkeeps _ Hjob) as (job5 & Hjob5 & _ & Hcount5 & _).
      rewrite Hjobz in Hjob5. injection Hjob5 as <-. exact Hcount5. }
    split; [exact Hcachez |].
    rewrite <- Hstores3, <- Hstoresz. reflexivity. }
  unfold exec, result. rewrite Heq. cbn [fst snd].
  split; [done |]. split; [by exists job' |]. split; [done |].
  split; [exact (stores_tracks _ _ _ Hst) | exact (stores_files _ _ _ Hst)].
Qed.

Lemma pipeline_without_upload_fails_witness :
  db_jobs (exec (run_separation_pipeline sample_env "job-1") lost_upload_world) !! "job-1" =
    Some (mkJob "/uploads/job-1.mp3" "failed" "error" 0 None None
            (Some "Input file not found: /uploads/job-1.mp3") (Some 1000) (Some 1000)).
Proof.
  destruct (pipeline_without_upload_fails sample_env lost_upload_world "job-1" sample_job)
    as (_ & Hrecord & _); [reflexivity | reflexivity | reflexivity | exact Hrecord].
Defined.

Lemma pipeline_with_empty_transcript_fails_witness :
  ∃ job', db_jobs (exec (run_separation_pipeline silent_env "job-1") sample_world) !! "job-1"
            = Some job'
          ∧ job_status job' = "failed"
          ∧ error_message job' = Some "list index out of range".
Proof.
  destruct (pipeline_with_empty_transcript_fails silent_env sample_world "job-1" sample_job
              (replicate 2000%nat 7) [] AlignError (DiarizeOk 0 []))
    as (_ & (job' & Hjob' & Hstatus & _ & _ & Herror & _) & _);
    [reflexivity | reflexivity | reflexivity | by left | reflexivity | reflexivity
    | reflexivity |].
  exists job'. split; [exact Hjob' |]. split; [exact Hstatus | exact Herror].
Defined.

(** ** Grouping, the fallback and the audio of a speaker *)

Lemma append_segment_keys (d : SpeakerSegments) (segment : Segment) :
  (append_segment d segment).*1 =
    if decide (speaker_of segment ∈ d.*1) then d.*1 else d.*1 ++ [speaker_of segment].
Proof.
  unfold append_segment, has_key. fold (speaker_of segment).
  destruct (decide (speaker_of segment ∈ d.*1)) as [Hin | Hnin].
  - rewrite bool_decide_eq_true_2 by done.
    rewrite <- list_fmap_compose. apply list_fmap_ext. intros i [k v] _. cbn.
    by destruct (String_eqb k (speaker_of segment)).
  - rewrite bool_decide_eq_false_2 by done. by rewrite fmap_app.
Qed.

Lemma group_by_speaker_keys_from (segments : list Segment) : ∀ d : SpeakerSegments,
  (foldl append_segment d segments).*1
    = d.*1 ++ first_occurrences d.*1 (speaker_of <$> segments).
Proof.
  induction segments as [| segment rest IH]; intros d; cbn [foldl fmap list_fmap first_occurrences].
  - by rewrite app_nil_r.
  - rewrite IH, append_segment_keys.
    destruct (decide (speaker_of segment ∈ d.*1)); [done |].
    by rewrite <- app_assoc.
Qed.

Lemma first_occurrences_spec (l : list string) : ∀ seen,
  NoDup seen →
  NoDup (seen ++ first_occurrences seen l)
  ∧ ∀ x, x ∈ seen ++ first_occurrences seen l ↔ x ∈ seen ∨ x ∈ l.
Proof.
  induction l as [| y rest IH]; intros seen Hseen; cbn [first_occurrences].
  - rewrite app_nil_r. split; [done |]. intros x. rewrite elem_of_nil. tauto.
  - destruct (decide (y ∈ seen)) as [Hin | Hnin].
    + destruct (IH seen Hseen) as [Hnodup Hmem]. split; [done |].
      intros x. rewrite Hmem, elem_of_cons. split; [tauto |].
      intros [? | [-> | ?]]; tauto.
    + assert (NoDup (seen ++ [y])) as Hseen'.
      { apply NoDup_app. split; [done |]. split; [| apply NoDup_singleton].
        intros x Hx ->%list_elem_of_singleton. done. }
      destruct (IH (seen ++ [y]) Hseen') as [Hnodup Hmem].
      rewrite <- app_assoc in Hnodup, Hmem. cbn [app] in Hnodup, Hmem.
      split; [done |]. intros x. rewrite Hmem, elem_of_app, list_elem_of_singleton, elem_of_cons.
      tauto.
Qed.

(** X22: grouping the segments by speaker (a segment without speaker goes
    to 'UNKNOWN') gives one group for each speaker that occurs, in the order
    in which the speakers first occur and each speaker once; the group of a
    speaker holds exactly the segments of that speaker, in the order of the
    transcript, and is never empty; a speaker that does not occur has no
    segments. *)
Theorem group_by_speaker_partitions (segments : list Segment) :
  let groups := group_by_speaker segments in
  groups.*1 = first_occurrences [] (speaker_of <$> segments)
  ∧ NoDup groups.*1
  ∧ (∀ speaker, speaker ∈ groups.*1 ↔ ∃ segment, segment ∈ segments ∧ speaker_of segment = speaker)
  ∧ (∀ speaker group,
       (speaker, group) ∈ groups →
       group = filter (λ segment, speaker_of segment = speaker) segments ∧ group ≠ [])
  ∧ (∀ speaker,
       segments_of groups speaker = filter (λ segment, speaker_of segment = speaker) segments).
Proof.
  cbv zeta.
  assert ((group_by_speaker segments).*1 = first_occurrences [] (speaker_of <$> segments))
    as Hkeys by apply (group_by_speaker_keys_from segments []).
  destruct (first_occurrences_spec (speaker_of <$> segments) [] (NoDup_nil_2))
    as [Hnodup Hmem]. cbn [app] in Hnodup, Hmem.
  assert (∀ speaker, speaker ∈ (group_by_speaker segments).*1
                     ↔ ∃ segment, segment ∈ segments ∧ speaker_of segment = speaker) as Hin.
  { intros speaker. rewrite Hkeys, Hmem, elem_of_nil, list_elem_of_fmap.
    split.
    - intros [[] | (segment & -> & Hsegment)]. by exists segment.
    - intros (segment & Hsegment & <-). right. by exists segment. }
  split; [exact Hkeys |]. split; [by rewrite Hkeys |]. split; [exact Hin |].
  split; [| apply segments_of_group_by_speaker].
  intros speaker group Hgroup.
  assert (segments_of (group_by_speaker segments) speaker = group) as Hfound.
  { rewrite <- Hkeys in Hnodup. revert Hnodup Hgroup. clear.
    induction (group_by_speaker segments) as [| [k v] d IH]; intros Hnodup Hgroup.
    - by apply elem_of_nil in Hgroup.
    - cbn [fmap list_fmap fst] in Hnodup. apply NoDup_cons in Hnodup as [Hfresh Hnodup].
      rewrite segments_of_cons.
      apply elem_of_cons in Hgroup as [[= <- <-] | Hgroup].
      + by rewrite (proj2 (String_eqb_eq _ _) eq_refl).
      + destruct (String_eqb k speaker) eqn:Hk; [| by apply IH].
        apply String_eqb_eq in Hk. subst k. exfalso. apply Hfresh.
        apply list_elem_of_fmap. by exists (speaker, group). }
  rewrite segments_of_group_by_speaker in Hfound. split; [done |].
  assert (speaker ∈ (group_by_speaker segments).*1) as Hkey
    by (apply list_elem_of_fmap; by exists (speaker, group)).
  apply Hin in Hkey as (segment & Hsegment & Hspeaker).
  intros ->.
  assert (segment ∈ filter (λ segment, speaker_of segment = speaker) segments) as Hfiltered
    by (by apply list_elem_of_filter).
  rewrite Hfound in Hfiltered. by apply elem_of_nil in Hfiltered.
Qed.

Lemma fallback_loop_relabels (segments : list Segment) : ∀ cs le,
  cs = 0 ∨ cs = 1 → Forall2 relabelled segments (fallback_loop cs le segments).
Proof.
  induction segments as [| segment rest IH]; intros cs le Hcs; [constructor |].
  rewrite fallback_loop_cons. constructor.
  - destruct (next_speaker_bit cs le segment Hcs) as [-> | ->]; [by left | by right].
  - apply IH. by apply next_speaker_bit.
Qed.

Lemma fallback_relabels (segments : list Segment) :
  Forall2 relabelled segments (fallback_speaker_assignment segments).
Proof.
  unfold fallback_speaker_assignment. destruct (1 <? length segments)%nat.
  - apply fallback_loop_relabels. by left.
  - apply Forall2_fmap_r, Forall_Forall2_diag, Forall_forall. intros segment _. by left.
Qed.

(** Subtracting the float 0.0 changes no float, so the first test of the
    loop, [start_time - 0 > 2.0], is a test on the start itself. *)
Lemma gtb_sub_zero (x : float) : gtb (PrimFloat.sub x 0) 2 = gtb x 2.
Proof.
  unfold gtb. rewrite !FloatAxioms.ltb_spec, FloatAxioms.sub_spec.
  change (FloatOps.Prim2SF 0) with (SpecFloat.S754_zero false).
  destruct (FloatOps.Prim2SF x) as [[] | [] | | s m e]; reflexivity.
Qed.

(** X21: the fallback speaker assignment keeps the number and the order of
    the segments and, in each, the start, the end and the text; every
    segment gets SPEAKER_00 or SPEAKER_01, so that grouping its result gives
    at most two speakers, however many people speak. In a transcript of more
    than one segment the first segment gets SPEAKER_01 exactly when it
    starts more than 2.0 seconds into the recording, else SPEAKER_00. *)
Theorem fallback_uses_two_speakers (segments : list Segment) :
  let assigned := fallback_speaker_assignment segments in
  length assigned = length segments
  ∧ Forall2 (λ segment out,
       seg_start out = seg_start segment
       ∧ seg_end out = seg_end segment
       ∧ seg_text out = seg_text segment
       ∧ (seg_speaker out = Some "SPEAKER_00" ∨ seg_speaker out = Some "SPEAKER_01"))
      segments assigned
  ∧ (length (group_by_speaker assigned) ≤ 2)%nat
  ∧ (∀ first rest,
       segments = first :: rest → rest ≠ [] →
       (speaker_at assigned 0 = Some "SPEAKER_01" ↔ gtb (start_time first) 2 = true)
       ∧ (speaker_at assigned 0 = Some "SPEAKER_00" ↔ ¬ gtb (start_time first) 2 = true)).
Proof.
  cbv zeta. pose proof (fallback_relabels segments) as Hrel.
  split; [symmetry; by eapply Forall2_length |].
  split; [| split].
  - eapply Forall2_impl; [exact Hrel |].
    intros segment out [-> | ->]; cbn; auto.
  - assert (∀ speaker, speaker ∈ (group_by_speaker (fallback_speaker_assignment segments)).*1 →
              speaker ∈ ["SPEAKER_00"; "SPEAKER_01"]) as Hkeys.
    { intros speaker Hin.
      rewrite (group_by_speaker_keys_from _ []) in Hin. cbn [fmap list_fmap app] in Hin.
      apply (first_occurrences_spec _ [] NoDup_nil_2) in Hin as [Hin | Hin];
        [by apply elem_of_nil in Hin |].
      apply list_elem_of_fmap in Hin as (out & -> & Hout).
      apply list_elem_of_lookup in Hout as [i Hi].
      destruct (Forall2_lookup_r _ _ _ _ _ Hrel Hi) as (segment & _ & [-> | ->]); cbn.
      - apply list_elem_of_here.
      - apply list_elem_of_further, list_elem_of_here. }
    assert (NoDup (group_by_speaker (fallback_speaker_assignment segments)).*1) as Hnodup.
    { rewrite (group_by_speaker_keys_from _ []). cbn [fmap list_fmap app].
      apply (first_occurrences_spec _ [] NoDup_nil_2). }
    pose proof (submseteq_length _ _ (NoDup_submseteq _ _ Hnodup Hkeys)) as Hlen.
    by rewrite length_fmap in Hlen.
  - intros first rest -> Hrest.
    unfold fallback_speaker_assignment, speaker_at.
    destruct rest as [| second rest]; [done |].
    cbn [length Nat.ltb Nat.leb]. rewrite fallback_loop_cons.
    cbn [lookup list_lookup mbind option_bind seg_speaker with_speaker].
    unfold next_speaker. rewrite gtb_sub_zero.
    destruct (gtb (start_time first) 2).
    + split; split; done.
    + split; split; done.
Qed.

Lemma has_times_cases (segment : Segment) :
  has_times segment
  ∨ ∀ audio speaker_audio rest,
      ∃ e, time_error e
           ∧ speaker_track_audio audio speaker_audio (segment :: rest) = Raise e.
Proof.
  destruct segment as [[start |] end0 text speaker].
  - destruct (finite (PrimFloat.mul start 1000)) eqn:Hfs.
    + destruct end0 as [end_ |].
      * destruct (finite (PrimFloat.mul end_ 1000)) eqn:Hfe.
        -- left. by exists start, end_.
        -- right. intros audio speaker_audio rest.
           cbn [speaker_track_audio seg_start seg_end field].
           rewrite (milliseconds_finite _ Hfs).
           destruct (milliseconds_not_finite _ Hfe) as [-> | ->]; eexists;
             (split; [| reflexivity]); unfold time_error; auto.
      * right. intros audio speaker_audio rest.
        cbn [speaker_track_audio seg_start seg_end field].
        rewrite (milliseconds_finite _ Hfs).
        eexists. split; [| reflexivity]. unfold time_error; auto.
    + right. intros audio speaker_audio rest.
      cbn [speaker_track_audio seg_start seg_end field].
      destruct (milliseconds_not_finite _ Hfs) as [-> | ->]; eexists;
        (split; [| reflexivity]); unfold time_error; auto.
  - right. intros audio speaker_audio rest.
    cbn [speaker_track_audio seg_start seg_end field].
    eexists. split; [| reflexivity]. unfold time_error; auto.
Qed.

Lemma speaker_track_audio_cons (audio speaker_audio : AudioSegment.t) segment rest :
  has_times segment →
  speaker_track_audio audio speaker_audio (segment :: rest)
    = speaker_track_audio audio
        (speaker_audio ++ span audio segment ++ AudioSegment.silent 500) rest.
Proof.
  intros (start & end_ & Hstart & Hend & Hfs & Hfe).
  destruct segment as [seg_start0 seg_end0 text speaker]. simpl in Hstart, Hend. subst.
  cbn [speaker_track_audio seg_start seg_end field].
  rewrite (milliseconds_finite _ Hfs), (milliseconds_finite _ Hfe).
  unfold AudioSegment.add, span, start_time.
  cbn [default from_option id seg_start seg_end].
  by rewrite <- !app_assoc.
Qed.

Lemma speaker_track_audio_bad_time (audio : AudioSegment.t) (segments : list Segment) :
  ∀ speaker_audio,
    ¬ Forall has_times segments →
    ∃ e, time_error e ∧ speaker_track_audio audio speaker_audio segments = Raise e.
Proof.
  induction segments as [| segment rest IH]; intros speaker_audio Hmissing.
  - destruct Hmissing. constructor.
  - destruct (has_times_cases segment) as [Htimes | Hraise]; [| apply Hraise].
    rewrite (speaker_track_audio_cons _ _ _ _ Htimes).
    apply IH. intros Hrest. apply Hmissing. by constructor.
Qed.

Lemma spans_each_followed_by_gap_cons (audio : AudioSegment.t) segment rest :
  spans_each_followed_by_gap audio (segment :: rest)
    = (span audio segment ++ AudioSegment.silent 500) ++ spans_each_followed_by_gap audio rest.
Proof. reflexivity. Qed.

Lemma len_spans_each_followed_by_gap (audio : AudioSegment.t) (segments : list Segment) :
  AudioSegment.len (spans_each_followed_by_gap audio segments)
    = sum_Z ((λ segment, AudioSegment.len (span audio segment)) <$> segments)
      + 500 * Z.of_nat (length segments).
Proof.
  induction segments as [| segment rest IH]; [reflexivity |].
  rewrite spans_each_followed_by_gap_cons, fmap_cons.
  unfold AudioSegment.len in *. rewrite !length_app, !Nat2Z.inj_add, IH.
  replace (length (AudioSegment.silent 500)) with 500%nat by reflexivity.
  unfold sum_Z. cbn [foldr length]. lia.
Qed.

(** X23: the audio built for one speaker. When every segment has a start
    and an end that are still finite once multiplied by 1000, it is the span
    of each segment, from [int(start * 1000)] to [int(end * 1000)] in
    binary64 arithmetic, followed by 500 ms of silence, the last one
    included, so its length is the total length of the spans plus 500 ms for
    each segment; otherwise building the audio raises: the KeyError of the
    key that lacks, the OverflowError of an infinite time or the ValueError
    of a time that is NaN. A start of 0.009 gives 9 ms, 0.009 * 1000 being
    9.0 in binary64. *)
Theorem speaker_track_has_silence_after_every_span
    (audio : AudioSegment.t) (segments : list Segment) :
  (Forall has_times segments →
   speaker_track_audio audio AudioSegment.empty segments
     = Val (spans_each_followed_by_gap audio segments)
   ∧ AudioSegment.len (spans_each_followed_by_gap audio segments)
       = sum_Z ((λ segment, AudioSegment.len (span audio segment)) <$> segments)
         + 500 * Z.of_nat (length segments))
  ∧ (¬ Forall has_times segments →
     ∃ e, time_error e
          ∧ speaker_track_audio audio AudioSegment.empty segments = Raise e)
  ∧ milliseconds nine_thousandths = Val 9.
Proof.
  split; [| split].
  - intros Htimes. split; [| apply len_spans_each_followed_by_gap].
    by rewrite speaker_track_audio_eq.
  - apply speaker_track_audio_bad_time.
  - reflexivity.
Qed.

(** ** What Transcribing returns *)

Lemma status_only_refl w : status_only w w.
Proof. done. Qed.

Lemma status_only_trans w1 w2 w3 : status_only w1 w2 → status_only w2 w3 → status_only w1 w3.
Proof. intros (? & ? & ?) (? & ? & ?). repeat split; congruence. Qed.

Lemma status_only_cancelled job_id w w' :
  status_only w w' → cancelled job_id w' = cancelled job_id w.
Proof. intros (Hflags & _). unfold cancelled. by rewrite Hflags. Qed.

Lemma update_job_status_status_only w job_id status step progress message :
  ∃ w', update_job_status job_id status step progress message w = (w', Val tt)
        ∧ status_only w w'.
Proof.
  rewrite update_job_status_eq.
  destruct (discarded w job_id status); [by eexists |].
  destruct (db_jobs w !! job_id); by eexists.
Qed.

Lemma raise_if_cancelled_cases job_id w :
  raise_if_cancelled job_id w
    = (w, if cancelled job_id w then Raise cancelled_error else Val tt).
Proof.
  unfold raise_if_cancelled. rewrite bind_unfold. unfold check_job_cancelled, gets, cancelled.
  by destruct (default false (job_cancellations w !! job_id)).
Qed.

(** The next status write of the goal, with [Hso] relating the first world
    to the current one. *)
Ltac status_update Hso :=
  rewrite ?bind_unfold;
  lazymatch goal with
  | |- context [update_job_status ?id ?st ?sp ?p ?m ?w] =>
      let w' := fresh "w" in
      let Heq := fresh "Heq" in
      let Hs := fresh "Hs" in
      destruct (update_job_status_status_only w id st sp p m) as (w' & Heq & Hs);
      rewrite Heq; clear Heq; cbv beta iota;
      pose proof (status_only_trans _ _ _ Hso Hs) as Hso';
      clear Hso Hs; rename Hso' into Hso
  end.

(** The next cancellation check of the goal, for a job that is not
    cancelled in the first world. *)
Ltac status_check Hso Hlive :=
  rewrite ?bind_unfold;
  lazymatch goal with
  | |- context [raise_if_cancelled ?id ?w] =>
      rewrite (raise_if_cancelled_cases id w), (status_only_cancelled id _ _ Hso), Hlive;
      cbv beta iota
  end.

Lemma _run_mock_whisperx_status_only job_id w0 w :
  status_only w0 w →
  ∃ w', _run_mock_whisperx job_id w = (w', Val mock_result) ∧ status_only w0 w'.
Proof.
  intros Hso. unfold _run_mock_whisperx. status_update Hso.
  rewrite bind_unfold. cbn [for_each].
  do 5 status_update Hso.
  by eexists.
Qed.

(** Transcribing, in every world: it returns, what it returns depends on the
    flag, on the converted file and on the engine only, and it changes
    nothing but the status of jobs. *)
Lemma run_whisperx_transcription_cases env wav_path job_id w :
  ∃ w', run_whisperx_transcription env wav_path job_id w
          = (w', Val (transcript_for env job_id wav_path w))
        ∧ status_only w w'.
Proof.
  pose proof (status_only_refl w) as Hso.
  unfold run_whisperx_transcription, try_except, transcript_for.
  rewrite bind_unfold, raise_if_cancelled_cases.
  destruct (cancelled job_id w) eqn:Hlive; cbv beta iota;
    [by apply _run_mock_whisperx_status_only |].
  status_update Hso.
  rewrite bind_unfold. unfold path_exists at 1, gets at 1. cbv beta iota.
  lazymatch goal with
  | |- context [files ?w1 !! wav_path] =>
      replace (files w1 !! wav_path) with (files w !! wav_path)
        by (destruct Hso as (_ & -> & _); done)
  end.
  destruct (files w !! wav_path) as [audio |].
  2: { rewrite bool_decide_eq_false_2 by (by intros [? ?]). cbn [negb].
       unfold raise at 1. cbv beta iota. by apply _run_mock_whisperx_status_only. }
  rewrite bool_decide_eq_true_2 by (by eexists). cbn [negb].
  destruct (engine env) as [| | | segments align diarize].
  - lazymatch goal with
    | |- context [_run_mock_whisperx job_id ?w1] =>
        destruct (_run_mock_whisperx_status_only job_id w w1 Hso) as (w' & -> & Hso')
    end.
    by exists w'.
  - status_update Hso. unfold raise at 1. cbv beta iota.
    by apply _run_mock_whisperx_status_only.
  - status_update Hso. status_check Hso Hlive. status_update Hso.
    unfold raise at 1. cbv beta iota. by apply _run_mock_whisperx_status_only.
  - status_update Hso. status_check Hso Hlive. status_update Hso.
    unfold align_and_diarize.
    status_check Hso Hlive. status_update Hso. cbv zeta.
    status_check Hso Hlive. status_update Hso.
    destruct diarize as [n assigned | [n |] | [n |]]; cbn [transcript_of].
    + status_update Hso. step_ret. by eexists.
    + rewrite bind_unfold. status_update Hso. step_ret. by eexists.
    + rewrite bind_unfold. step_ret. cbv beta iota. step_ret. by eexists.
    + rewrite bind_unfold. status_update Hso. step_ret. by eexists.
    + rewrite bind_unfold. step_ret. cbv beta iota. step_ret. by eexists.
Qed.

(** X20: Transcribing never raises and writes nothing but the status of the
    job. What it returns is determined by the cancellation flag, the
    converted file and the engine: the fixed transcript of the mock when the
    job is cancelled, when the converted file is missing or when the engine
    fails; the diarized segments when the engine transcribes and diarizes;
    and, when the diarization fails, the fallback assignment on the aligned
    segments, which compares binary64 floats as the code does. *)
Theorem transcribing_never_raises (env : Env) (wav_path job_id : string) (w : World) :
  let w' := exec (run_whisperx_transcription env wav_path job_id) w in
  result (run_whisperx_transcription env wav_path job_id) w
    = Val (transcript_for env job_id wav_path w)
  ∧ (job_cancellations w !! job_id = Some true →
     result (run_whisperx_transcription env wav_path job_id) w = Val mock_result)
  ∧ (files w !! wav_path = None →
     result (run_whisperx_transcription env wav_path job_id) w = Val mock_result)
  ∧ (∀ audio segments align assigned n,
       job_cancellations w !! job_id = None →
       files w !! wav_path = Some audio →
       engine env = Transcribes segments align (DiarizeOk n assigned) →
       result (run_whisperx_transcription env wav_path job_id) w = Val assigned)
  ∧ (∀ audio segments aligned diarize,
       job_cancellations w !! job_id = None →
       files w !! wav_path = Some audio →
       engine env = Transcribes segments (AlignOk aligned) diarize →
       (∀ n assigned, diarize ≠ DiarizeOk n assigned) →
       result (run_whisperx_transcription env wav_path job_id) w
         = Val (fallback_speaker_assignment aligned))
  ∧ job_cancellations w' = job_cancellations w
  ∧ files w' = files w
  ∧ db_tracks w' = db_tracks w.
Proof.
  cbv zeta. unfold exec, result.
  destruct (run_whisperx_transcription_cases env wav_path job_id w) as (w' & -> & Hso).
  cbn [fst snd]. split; [done |].
  split; [| split; [| split; [| split; [| exact Hso]]]].
  - intros Hflag. unfold transcript_for, cancelled. by rewrite Hflag.
  - intros Hfile. unfold transcript_for. rewrite Hfile. by destruct (cancelled job_id w).
  - intros audio segments align assigned n Hflag Hfile Hengine.
    unfold transcript_for, cancelled. by rewrite Hflag, Hfile, Hengine.
  - intros audio segments aligned diarize Hflag Hfile Hengine Hfailed.
    unfold transcript_for, cancelled. rewrite Hflag, Hfile, Hengine. cbn.
    destruct diarize as [n assigned | |]; [| done | done].
    by destruct (Hfailed n assigned).
Qed.

(** ** A cancel request during a run *)

Section Cancelled.
Context (env : Env) (job_id : string) (stage : Stage).

Lemma cancelled_update {P} status step progress message :
  pipeline_write status progress →
  preserves (failed_once_cancelled job_id) P
    (update_job_status job_id status step progress message) anything.
Proof.
  intros Hwrite w HI _. split; [| done].
  destruct (update_job_status_log w job_id status step progress message) as (_ & Hflags & _).
  intros Hflag job' Hjob'. rewrite Hflags in Hflag. revert Hjob'.
  unfold exec. rewrite update_job_status_eq.
  destruct Hwrite as [-> | [-> | [-> ->]]].
  - rewrite discarded_when_flag_set by done. by apply HI.
  - rewrite discarded_when_flag_set by done. by apply HI.
  - rewrite failed_is_never_discarded.
    destruct (db_jobs w !! job_id) as [job |] eqn:Hjob; cbn [fst].
    + unfold written. world_fields. rewrite lookup_insert_eq. intros [= <-].
      destruct (updated_job_status (clock w) "failed" step 0 job) as (? & _ & ?). done.
    + unfold written_cache_only. world_fields. congruence.
Qed.

Lemma cancelled_files {P} f :
  preserves (failed_once_cancelled job_id) P (modify (with_files f)) anything.
Proof. intros w HI _. split; [| done]. exact HI. Qed.

Lemma cancelled_export {P} path audio :
  preserves (failed_once_cancelled job_id) P (export env path audio) anything.
Proof.
  intros w HI _. split; [| done]. unfold exec, export.
  destruct (export_ok env path); exact HI.
Qed.

Lemma cancelled_track_create {P} speaker_id track :
  preserves (failed_once_cancelled job_id) P (track_create job_id speaker_id track) anything.
Proof.
  intros w HI _. split; [| done]. unfold exec, track_create.
  destruct (db_tracks w !! (job_id, speaker_id)); exact HI.
Qed.

Lemma cancelled_save (job job' : ProcessingJob) :
  job_status job' = job_status job →
  progress_percentage job' = progress_percentage job →
  preserves (failed_once_cancelled job_id) (λ w, db_jobs w !! job_id = Some job)
    (save job_id job') anything.
Proof.
  intros Hstatus Hprogress w HI Hjob. split; [| done].
  intros Hflag job0. unfold exec, save, modify. cbn [fst]. world_fields.
  rewrite lookup_insert_eq. intros [= <-]. rewrite Hstatus, Hprogress. by apply HI.
Qed.

Lemma cancelled_between s :
  preserves (failed_once_cancelled job_id) anywhere (cancel_before stage job_id s) anything.
Proof.
  intros w HI _. split; [| done]. unfold cancel_before.
  destruct (bool_decide (s = stage)); [| exact HI].
  unfold exec. rewrite bind_unfold, cancel_job_eq. cbv beta iota. step_ret. cbn [fst].
  intros _ job. unfold after_cancel. world_fields.
  destruct (db_jobs w !! job_id) as [job0 |] eqn:Hjob0; [| congruence].
  rewrite lookup_insert_eq. by intros [= <-].
Qed.

Lemma cancelled_run_separation_pipeline :
  preserves (failed_once_cancelled job_id) anywhere
    (run_separation_pipeline_with env (cancel_before stage job_id) job_id) anything.
Proof.
  apply preserves_run_separation_pipeline.
  - intros P status step progress message. apply cancelled_update.
  - intros P audio. apply cancelled_export.
  - intros P speaker_id audio. apply cancelled_export.
  - intros P. apply cancelled_files.
  - intros P speaker_id track. apply cancelled_track_create.
  - intros n dir job. by apply cancelled_save.
  - intros msg job. by apply cancelled_save.
  - apply cancelled_between.
Qed.
End Cancelled.

Lemma run_separation_pipeline_with_returns env between job_id w :
  result (run_separation_pipeline_with env between job_id) w = Val tt.
Proof.
  unfold result, run_separation_pipeline_with, try_except.
  destruct (pipeline_stages env between job_id w) as [w1 [[] | e]]; [done |].
  apply pipeline_failed_returns.
Qed.

Lemma run_job_records env between job_id w :
  db_jobs (exec (run_job env between job_id) w)
    = db_jobs (exec (run_separation_pipeline_with env between job_id) w).
Proof.
  unfold exec, run_job, try_finally, try_except.
  by destruct (run_separation_pipeline_with env between job_id w) as [w1 [[] | e]].
Qed.

(** X24: a cancel request served at a stage boundary of a run. The run
    returns normally, and if the request was served (the flag of the job is
    set when the run ends) the record of the job is 'failed' with progress 0
    at the end, whatever the stage, the engine and the codec do: no later
    step completes the job or reports progress on its record; the record the
    thread leaves is that one. For a request served before Converting the
    record is 'failed' at step 'error' with the message "Job cancelled by
    user", and no file or track is written. *)
Theorem cancel_during_run_ends_failed
    (env : Env) (stage : Stage) (job_id : string) (w : World) :
  job_cancellations w !! job_id = None →
  let run := run_separation_pipeline_with env (cancel_before stage job_id) job_id in
  result run w = Val tt
  ∧ (job_cancellations (exec run w) !! job_id = Some true →
     ∀ job', db_jobs (exec run w) !! job_id = Some job' →
             job_status job' = "failed" ∧ progress_percentage job' = 0)
  ∧ db_jobs (exec (run_job env (cancel_before stage job_id) job_id) w) = db_jobs (exec run w)
  ∧ (∀ job, stage = Converting →
       db_jobs w !! job_id = Some job →
       job_cancellations (exec run w) !! job_id = Some true
       ∧ db_jobs (exec run w) !! job_id =
           Some (mkJob (uploaded_file_path job) "failed" "error" 0 (speaker_count job)
                   (output_directory job) (Some "Job cancelled by user")
                   (Some (default (clock w) (started_at job))) (Some (clock w)))
       ∧ files (exec run w) = files w
       ∧ db_tracks (exec run w) = db_tracks w).
Proof.
  intros Hflag. cbv zeta.
  split; [apply run_separation_pipeline_with_returns |].
  split; [| split; [apply run_job_records |]].
  - apply (cancelled_run_separation_pipeline env job_id stage w); [| done].
    intros Hset. congruence.
  - intros job -> Hjob.
    set (job1 := updated_job (clock w) "processing" "initializing" 5 job).
    set (w1 := written job_id "processing" "initializing" 5
                 "Starting audio processing pipeline..." job w).
    set (w2 := after_cancel job_id w1).
    set (job2 := cancelled_job (clock w) job1).
    set (job3 := updated_job (clock w) "failed" "error" 0 job2).
    set (w3 := written job_id "failed" "error" 0
                 "Processing failed: Job cancelled by user" job2 w2).
    assert (job_cancellations w2 !! job_id = Some true) as Hflag2 by apply lookup_insert_eq.
    assert (db_jobs w2 !! job_id = Some job2) as Hjob2.
    { unfold w2, after_cancel. world_fields.
      replace (db_jobs w1 !! job_id) with (Some job1) by (symmetry; apply lookup_insert_eq).
      apply lookup_insert_eq. }
    assert (run_separation_pipeline_with env (cancel_before Converting job_id) job_id w =
              (with_db_jobs (insert job_id (set_error_message "Job cancelled by user" job3)) w3,
               Val tt)) as Hrun.
    { unfold run_separation_pipeline_with, try_except, pipeline_stages.
      rewrite bind_unfold. unfold objects_get at 1. rewrite Hjob. cbv beta iota.
      rewrite bind_unfold, (update_job_status_written _ _ _ _ _ _ job Hflag Hjob).
      fold w1. cbv beta iota.
      rewrite bind_unfold. unfold cancel_before at 1.
      rewrite bool_decide_eq_true_2 by done.
      rewrite bind_unfold, cancel_job_eq. fold w2. cbv beta iota. step_ret. cbv beta iota.
      rewrite bind_unfold, (convert_to_wav_cancelled _ _ _ _ Hflag2).
      unfold pipeline_failed. cbn [exn_str cancelled_error].
      rewrite bind_unfold, update_job_status_eq, failed_is_never_discarded, Hjob2.
      fold w3. cbv beta iota. unfold try_except. rewrite bind_unfold. unfold objects_get.
      replace (db_jobs w3 !! job_id) with (Some job3) by (symmetry; apply lookup_insert_eq).
      reflexivity. }
    unfold exec. rewrite Hrun. cbn [fst]. world_fields.
    split; [exact Hflag2 |]. split; [| done].
    rewrite lookup_insert_eq. f_equal.
    unfold job3, job2, job1. destruct job as [path st sp pr sc od em [started |] done_at];
      reflexivity.
Qed.

Lemma cancel_during_run_ends_failed_witness :
  ∃ job', db_jobs (exec cancelled_run sample_world) !! "job-1" = Some job'
          ∧ job_status job' = "failed"
          ∧ progress_percentage job' = 0.
Proof.
  destruct (cancel_during_run_ends_failed sample_env Separating "job-1" sample_world)
    as (_ & Hfailed & _); [reflexivity |].
  destruct (db_jobs (exec cancelled_run sample_world) !! "job-1") as [job' |] eqn:Hjob';
    [| vm_compute in Hjob'; discriminate Hjob'].
  exists job'. split; [reflexivity |].
  apply Hfailed; [vm_compute; reflexivity | exact Hjob'].
Defined.

(** ** Runs that complete *)


Lemma rsplit_app_none (c : ascii) (a b : string) :
  rsplit c a = None → rsplit c b = None → rsplit c (a +:+ b) = None.
Proof.
  intros Ha Hb. induction a as [| x a IH]; [done |].
  change (rsplit c (String x (a +:+ b)) = None).
  cbn [rsplit] in Ha |- *. destruct (rsplit c a) as [[l r] |]; [discriminate |].
  rewrite IH by done. by destruct (bool_decide (x = c)).
Qed.









(** The other files after the exports. *)
Lemma with_speaker_files_other env job_id audio (items : SpeakerSegments) :
  ∀ fs path,
    (∀ speaker, path ≠ speaker_path env job_id speaker) →
    with_speaker_files env job_id audio items fs !! path = fs !! path.
Proof.
  induction items as [| [k v] rest IH]; intros fs path Hpath; [done |].
  unfold with_speaker_files. cbn [foldl fst snd].
  fold (with_speaker_files env job_id audio rest
          (<[speaker_path env job_id k := spans_each_followed_by_gap audio v]> fs)).
  rewrite IH by done. rewrite lookup_insert_ne; [done |]. intros Heq. by apply (Hpath k).
Qed.







(** ** Uploads *)

Lemma string_filter_length keep s :
  (String.length (string_filter keep s) ≤ String.length s)%nat.
Proof.
  induction s as [|c s IH]; cbn [string_filter String.length]; [lia |].
  destruct (keep c); cbn [String.length]; lia.
Qed.

Lemma string_filter_id keep s :
  string_filter keep s = s ↔ string_forallb keep s = true.
Proof.
  induction s as [|c s IH]; cbn [string_filter string_forallb]; [done |].
  destruct (keep c) eqn:Hc; cbn [andb].
  - rewrite <- IH. split; [intros [= H]; done | intros ->; done].
  - split; [| discriminate]. intros H.
    pose proof (string_filter_length keep s) as Hlen.
    rewrite H in Hlen. cbn [String.length] in Hlen. lia.
Qed.

Lemma string_take_length n s :
  String.length (string_take n s) = Nat.min n (String.length s).
Proof.
  revert s; induction n as [|n IH]; intros [|c s]; cbn [string_take String.length Nat.min];
    try done.
  by rewrite IH.
Qed.

Lemma prefix_string_take m n s :
  String.prefix m (string_take n s) = true → String.prefix m s = true.
Proof.
  revert n s; induction m as [|a m IH]; intros n s; [by destruct s |].
  destruct n as [|n], s as [|c s]; cbn [string_take String.prefix]; try done.
  destruct (Ascii.ascii_dec a c); [apply IH | done].
Qed.

Lemma string_drop_take k n s :
  string_drop k (string_take (k + n) s) = string_take n (string_drop k s).
Proof.
  revert s; induction k as [|k IH]; intros s; cbn [string_drop Nat.add]; [by destruct n, s |].
  destruct s as [|c s]; cbn [string_take string_drop]; [by destruct n |].
  apply IH.
Qed.

Lemma string_take_take n k s :
  string_take n (string_take (n + k) s) = string_take n s.
Proof.
  revert s; induction n as [|n IH]; intros s; cbn [string_take Nat.add]; [done |].
  destruct s as [|c s]; cbn [string_take]; [done |]. by rewrite IH.
Qed.

Lemma rsplit_none_forallb c s :
  string_forallb (λ x, negb (bool_decide (x = c))) s = true → rsplit c s = None.
Proof.
  induction s as [|x s IH]; cbn [string_forallb rsplit]; [done |].
  intros [Hx Hs]%andb_true_iff. rewrite (IH Hs).
  apply negb_true_iff in Hx. by rewrite Hx.
Qed.

Lemma string_forallb_impl (p q : ascii → bool) s :
  (∀ c, p c = true → q c = true) →
  string_forallb p s = true → string_forallb q s = true.
Proof.
  intros Hpq. induction s as [|c s IH]; cbn [string_forallb]; [done |].
  intros [Hc Hs]%andb_true_iff. by rewrite (Hpq c Hc), (IH Hs).
Qed.

Lemma allowed_extension_cases ext :
  in_list ext ALLOWED_AUDIO_FORMATS = true →
  ext = ".mp3" ∨ ext = ".wav" ∨ ext = ".flac" ∨ ext = ".m4a" ∨ ext = ".aac" ∨ ext = ".ogg".
Proof.
  unfold in_list, ALLOWED_AUDIO_FORMATS. intros H%bool_decide_eq_true.
  repeat (apply elem_of_cons in H as [-> | H]; [tauto |]).
  by apply elem_of_nil in H.
Qed.

Lemma allowed_extension_is_safe ext :
  in_list ext ALLOWED_AUDIO_FORMATS = true →
  string_filter filename_char ext = ext ∧ ext ≠ "".
Proof.
  intros H. destruct (allowed_extension_cases ext H) as [-> | [-> | [-> | [-> | [-> | ->]]]]];
    by split.
Qed.

(** What the form accepts, read off [clean_audio_file]. *)
Lemma file_upload_form_accepts settings data f :
  file_upload_form settings data = inr f →
  data = Some f
  ∧ upload_name f ≠ ""
  ∧ 1024 ≤ upload_size f ≤ MAX_UPLOAD_SIZE settings
  ∧ string_forallb filename_char (upload_name f) = true
  ∧ in_list (lower (splitext_ext (upload_name f))) ALLOWED_AUDIO_FORMATS = true
  ∧ existsb (λ magic, String.prefix magic (header f))
      (magic_numbers (lower (splitext_ext (upload_name f)))) = true
  ∧ (lower (splitext_ext (upload_name f)) = ".wav" →
     string_take 4 (string_drop 8 (header f)) = "WAVE").
Proof.
  unfold file_upload_form, clean_file_field. destruct data as [g|]; [| discriminate].
  unfold String_eqb. case_bool_decide as Hname; [discriminate |].
  case_bool_decide as Hzero; [discriminate |].
  unfold clean_audio_file, String_eqb. rewrite (bool_decide_eq_false_2 _ Hname).
  case_bool_decide as Hmax; [discriminate |].
  case_bool_decide as Hmin; [discriminate |].
  cbv zeta. case_bool_decide as Hempty; cbn [orb]; [discriminate |].
  case_bool_decide as Hsafe; cbn [negb]; [| discriminate].
  destruct (in_list _ ALLOWED_AUDIO_FORMATS) eqn:Hext; cbn [negb]; [| discriminate].
  set (ext := lower (splitext_ext (upload_name g))) in *.
  assert (Hmagic : magic_numbers ext ≠ []).
  { destruct (allowed_extension_cases ext Hext) as [-> | [-> | [-> | [-> | [-> | ->]]]]];
      discriminate. }
  destruct (magic_numbers ext) as [|magic magics] eqn:Hm; [done |].
  destruct (existsb _ (magic :: magics)) eqn:Hhead; cbn [negb andb]; [| discriminate].
  assert (Hlen : (12 ≤ String.length (header g))%nat).
  { unfold header. rewrite string_take_length. unfold upload_size in Hmin. lia. }
  rewrite (bool_decide_eq_true_2 _ Hlen), andb_true_r.
  apply string_filter_id in Hsafe.
  case_bool_decide as Hwav; cbn [andb].
  - case_bool_decide as Hwave; cbn [negb]; [| discriminate].
    intros [= <-]. fold ext. rewrite Hm. repeat split; try done; lia.
  - intros [= <-]. fold ext. rewrite Hm. repeat split; try done; lia.
Qed.

Lemma string_prefix_take m n s :
  (String.length m ≤ n)%nat →
  String.prefix m s = true → String.prefix m (string_take n s) = true.
Proof.
  revert n s; induction m as [|a m IH]; intros n s Hlen; [by destruct (string_take n s) |].
  cbn [String.length] in Hlen. destruct n as [|n]; [lia |].
  destruct s as [|c s]; cbn [string_take String.prefix]; [done |].
  destruct (Ascii.ascii_dec a c); [apply IH; lia | done].
Qed.

Lemma magic_numbers_short ext magic :
  magic ∈ magic_numbers ext → (String.length magic ≤ 4)%nat.
Proof.
  unfold magic_numbers, String_eqb. intros H.
  repeat case_bool_decide;
    repeat (apply elem_of_cons in H as [-> | H]; [cbn; lia |]);
    by apply elem_of_nil in H.
Qed.

Lemma header_wave f :
  string_take 4 (string_drop 8 (header f)) = string_take 4 (string_drop 8 (upload_content f)).
Proof.
  unfold header. change 16%nat with (8 + (4 + 4))%nat.
  by rewrite string_drop_take, string_take_take.
Qed.

(** X26: the upload form accepts a request exactly when it carries a file of
    at least 1 KB and at most [MAX_UPLOAD_SIZE] bytes whose name is made of
    letters, digits, underscores, hyphens and dots only, whose extension,
    in lower case, is one of the six audio formats, whose content starts
    with one of the signatures of that format and, for a WAV file, has 'WAVE'
    at offset 8. The name of an accepted file therefore holds no slash,
    backslash, space or null character, and the file the form hands on is
    the file of the request. This is for a file whose name is made of ASCII
    characters: the letters and digits are then those of ASCII, where
    Python's [\w] also admits the letters and digits of other scripts. *)
Theorem upload_form_accepts_only_audio (settings : Settings) (f : UploadedFile) :
  ascii_text (upload_name f) →
  let ext := lower (splitext_ext (upload_name f)) in
  (file_upload_form settings (Some f) = inr f
   ↔ 1024 ≤ upload_size f ≤ MAX_UPLOAD_SIZE settings
     ∧ string_forallb filename_char (upload_name f) = true
     ∧ ext ∈ ALLOWED_AUDIO_FORMATS
     ∧ (∃ magic, magic ∈ magic_numbers ext ∧ String.prefix magic (upload_content f) = true)
     ∧ (ext = ".wav" → string_take 4 (string_drop 8 (upload_content f)) = "WAVE"))
  ∧ (∀ data g, file_upload_form settings data = inr g → data = Some g)
  ∧ (string_forallb filename_char (upload_name f) = true →
     rsplit "/" (upload_name f) = None
     ∧ rsplit "\" (upload_name f) = None
     ∧ rsplit " " (upload_name f) = None
     ∧ has_null (upload_name f) = false).
Proof.
  intros _ ext. split; [split |].
  - intros (_ & _ & Hsize & Hname & Hext & Hmagic & Hwav)%file_upload_form_accepts.
    fold ext in Hext, Hmagic, Hwav.
    repeat split; try done; try lia.
    + by apply bool_decide_eq_true in Hext.
    + apply existsb_exists in Hmagic as (magic & Hin & Hprefix).
      exists magic. split; [by apply list_elem_of_In |].
      by apply prefix_string_take in Hprefix.
    + intros H. rewrite <- header_wave. by apply Hwav.
  - intros (Hsize & Hname & Hext & (magic & Hin & Hprefix) & Hwav).
    assert (Hne : upload_name f ≠ "").
    { intros Heq. unfold ext in Hext. rewrite Heq in Hext.
      apply (bool_decide_eq_true_2 _) in Hext. vm_compute in Hext. discriminate. }
    unfold file_upload_form, clean_file_field, String_eqb.
    rewrite (bool_decide_eq_false_2 _ Hne).
    rewrite bool_decide_eq_false_2 by (unfold upload_size in *; lia).
    unfold clean_audio_file, String_eqb. rewrite (bool_decide_eq_false_2 _ Hne).
    rewrite bool_decide_eq_false_2 by lia.
    rewrite bool_decide_eq_false_2 by lia.
    cbv zeta. apply string_filter_id in Hname. rewrite Hname.
    rewrite (bool_decide_eq_false_2 _ Hne), (bool_decide_eq_true_2 _ eq_refl).
    cbn [orb negb]. fold ext. unfold in_list.
    rewrite (bool_decide_eq_true_2 _ Hext). cbn [negb].
    assert (Hex : existsb (λ magic, String.prefix magic (header f)) (magic_numbers ext) = true).
    { apply existsb_exists. exists magic. split; [by apply list_elem_of_In |].
      apply string_prefix_take; [| done].
      pose proof (magic_numbers_short _ _ Hin). lia. }
    rewrite Hex. destruct (magic_numbers ext) as [|m ms]; [by apply elem_of_nil in Hin |].
    cbn [negb andb].
    case_bool_decide as Hw; cbn [andb]; [| done].
    rewrite header_wave, (Hwav Hw), (bool_decide_eq_true_2 _ eq_refl).
    cbn [negb]. by rewrite andb_false_r.
  - split.
    + intros data g (-> & _)%file_upload_form_accepts. done.
    + intros Hname. repeat split.
      * apply rsplit_none_forallb. revert Hname. apply string_forallb_impl.
        intros c Hc. apply negb_true_iff, bool_decide_eq_false. intros ->. discriminate.
      * apply rsplit_none_forallb. revert Hname. apply string_forallb_impl.
        intros c Hc. apply negb_true_iff, bool_decide_eq_false. intros ->. discriminate.
      * apply rsplit_none_forallb. revert Hname. apply string_forallb_impl.
        intros c Hc. apply negb_true_iff, bool_decide_eq_false. intros ->. discriminate.
      * unfold has_null. apply negb_false_iff. revert Hname. apply string_forallb_impl.
        intros c Hc. apply negb_true_iff, N.eqb_neq. intros Hz.
        unfold filename_char, word_char in Hc. rewrite Hz in Hc. discriminate.
Qed.

(** X26, on an example: a 1 KB WAV file with an upper-case extension is
    accepted under the settings of production. *)
Lemma upload_form_accepts_only_audio_witness :
  file_upload_form production_settings (Some wav_upload) = inr wav_upload.
Proof.
  apply (proj1 (upload_form_accepts_only_audio production_settings wav_upload eq_refl)).
  split; [split; vm_compute; discriminate |].
  split; [vm_compute; reflexivity |].
  split; [apply (bool_decide_unpack _); vm_compute; exact I |].
  split; [exists "RIFF"; split; [apply list_elem_of_here | vm_compute; reflexivity] |].
  intros _. vm_compute. reflexivity.
Defined.

Lemma save_uploaded_file_eq settings uuid_ok f job_id w :
  save_uploaded_file settings uuid_ok f job_id w =
    let safe_extension :=
      string_filter filename_char (lower (splitext_ext (upload_name f))) in
    if negb uuid_ok then (w, Raise (Exception ("Invalid job ID format: " +:+ job_id)))
    else if String_eqb safe_extension "" || negb (in_list safe_extension ALLOWED_AUDIO_FORMATS)
    then (w, Raise (Exception ("Invalid or unsafe file extension: " +:+ safe_extension)))
    else
      let file_path := AUDIO_UPLOAD_PATH settings +:+ "/" +:+ job_id +:+ safe_extension in
      (with_files (insert file_path (upload_audio f)) w, Val file_path).
Proof.
  unfold save_uploaded_file, try_except. cbv zeta.
  destruct uuid_ok; cbn [negb]; [| reflexivity].
  destruct (_ || _); reflexivity.
Qed.

(** X27: [save_uploaded_file] writes one file or none. When the id is a UUID
    and the sanitized lower-case extension of the upload is one of the six
    formats, it stores the upload as <upload directory>/<job id><extension>
    and returns that path; the name the client sent contributes its extension
    and nothing else, so for an id without slash the file lies directly in
    the upload directory. In every other case it raises and writes nothing.
    For a file the form has accepted the sanitizing changes nothing and the
    extension is allowed, so saving it under a UUID does not raise. *)
Theorem save_uploaded_file_effect (settings : Settings) (uuid_ok : bool) (f : UploadedFile)
    (job_id : string) (w : World) :
  let safe_extension := string_filter filename_char (lower (splitext_ext (upload_name f))) in
  let file_path := AUDIO_UPLOAD_PATH settings +:+ "/" +:+ job_id +:+ safe_extension in
  (uuid_ok = true ∧ safe_extension ∈ ALLOWED_AUDIO_FORMATS →
   save_uploaded_file settings uuid_ok f job_id w
     = (with_files (insert file_path (upload_audio f)) w, Val file_path)
   ∧ (rsplit "/" job_id = None →
      rsplit "/" file_path = Some (AUDIO_UPLOAD_PATH settings, job_id +:+ safe_extension)))
  ∧ (uuid_ok = false ∨ safe_extension ∉ ALLOWED_AUDIO_FORMATS →
     ∃ msg, save_uploaded_file settings uuid_ok f job_id w = (w, Raise (Exception msg)))
  ∧ (file_upload_form settings (Some f) = inr f →
     safe_extension = lower (splitext_ext (upload_name f))
     ∧ safe_extension ∈ ALLOWED_AUDIO_FORMATS).
Proof.
  intros safe_extension file_path. rewrite save_uploaded_file_eq. cbv zeta.
  fold safe_extension. fold file_path. repeat split.
  - destruct H as [-> Hext]. cbn [negb].
    pose proof (bool_decide_eq_true_2 _ Hext) as Hin. fold (in_list safe_extension ALLOWED_AUDIO_FORMATS) in Hin.
    destruct (allowed_extension_is_safe _ Hin) as [_ Hne].
    by rewrite Hin, (proj2 (String_eqb_neq _ _) Hne).
  - destruct H as [_ Hext]. intros Hid.
    pose proof (bool_decide_eq_true_2 _ Hext) as Hin. fold (in_list safe_extension ALLOWED_AUDIO_FORMATS) in Hin.
    unfold file_path.
    change ("/" +:+ job_id +:+ safe_extension) with (String "/" (job_id +:+ safe_extension)).
    apply rsplit_app, rsplit_app_none; [done |].
    destruct (allowed_extension_cases _ Hin) as [-> | [-> | [-> | [-> | [-> | ->]]]]];
      reflexivity.
  - intros [-> | Hext]; cbn [negb]; [by eexists |].
    destruct uuid_ok; cbn [negb]; [| by eexists].
    unfold in_list. rewrite (bool_decide_eq_false_2 _ Hext), orb_true_r. by eexists.
  - apply file_upload_form_accepts in H as (_ & _ & _ & _ & Hext & _).
    unfold safe_extension. by apply allowed_extension_is_safe.
  - apply file_upload_form_accepts in H as (_ & _ & _ & _ & Hext & _).
    unfold safe_extension. rewrite (proj1 (allowed_extension_is_safe _ Hext)).
    by apply bool_decide_eq_true in Hext.
Qed.

Lemma save_accepted_upload settings data f job_id w :
  file_upload_form settings data = inr f →
  save_uploaded_file settings true f job_id w
    = (after_save settings f job_id w, Val (upload_path settings f job_id)).
Proof.
  intros (_ & _ & _ & _ & Hext & _)%file_upload_form_accepts.
  rewrite save_uploaded_file_eq. cbv zeta. cbn [negb].
  destruct (allowed_extension_is_safe _ Hext) as [Hsafe Hne].
  rewrite Hsafe, Hext, (proj2 (String_eqb_neq _ _) Hne). cbn [orb negb].
  unfold after_save, upload_path. by rewrite Hsafe.
Qed.

Lemma create_processing_job_eq settings data f job_id w :
  file_upload_form settings data = inr f →
  create_processing_job settings f job_id w =
    match db_jobs w !! job_id with
    | None =>
        (with_job_statuses (insert job_id uploaded_status)
           (with_db_jobs (insert job_id (new_job (upload_path settings f job_id)))
              (after_save settings f job_id w)),
         Val (job_id, new_job (upload_path settings f job_id)))
    | Some _ => (after_save settings f job_id w, Raise IntegrityError)
    end.
Proof.
  intros Hform. unfold create_processing_job, try_except.
  rewrite bind_unfold, (save_accepted_upload _ _ _ _ _ Hform).
  rewrite bind_unfold. unfold objects_create at 1.
  change (db_jobs (after_save settings f job_id w)) with (db_jobs w).
  destruct (db_jobs w !! job_id); reflexivity.
Qed.

(** X28: the upload view never raises. For a request whose file, if any,
    has a name of ASCII characters: a request the form refuses is
    answered with the error of the form (status 400) and changes nothing.
    A request the form accepts, with an id that no job has yet, stores the
    file under the id, creates the record of the job as 'pending' at step
    'uploaded' with progress 0 and that path, caches the snapshot "File
    uploaded successfully", registers the thread and answers with the id
    and the address of the status page; nothing else changes. If the id is
    taken, the answer is the unexpected error (status 500): no record or
    cache entry is written and no thread is started, but the file has been
    stored. *)
Theorem upload_file_effect (settings : Settings) (reverse_status : string → string)
    (data : option UploadedFile) (job_id : string) (w : World) :
  (∀ f, data = Some f → ascii_text (upload_name f)) →
  (∀ error, file_upload_form settings data = inl error →
     upload_file settings reverse_status data job_id w = (w, Val (UploadInvalid [error])))
  ∧ (∀ f, file_upload_form settings data = inr f →
       (db_jobs w !! job_id = None →
        upload_file settings reverse_status data job_id w
          = (after_upload settings f job_id w,
             Val (UploadStarted job_id (reverse_status job_id))))
       ∧ (is_Some (db_jobs w !! job_id) →
          upload_file settings reverse_status data job_id w
            = (after_save settings f job_id w, Val UploadUnexpected)))
  ∧ (∀ e, result (upload_file settings reverse_status data job_id) w ≠ Raise e).
Proof.
  intros _.
  assert (Hview : upload_file settings reverse_status data job_id w =
                    match file_upload_form settings data with
                    | inl error => (w, Val (UploadInvalid [error]))
                    | inr f =>
                        match db_jobs w !! job_id with
                        | None => (after_upload settings f job_id w,
                                   Val (UploadStarted job_id (reverse_status job_id)))
                        | Some _ => (after_save settings f job_id w, Val UploadUnexpected)
                        end
                    end).
  { unfold upload_file, try_except.
    destruct (file_upload_form settings data) as [error | f] eqn:Hform; [reflexivity |].
    rewrite bind_unfold, (create_processing_job_eq _ _ _ _ _ Hform).
    destruct (db_jobs w !! job_id); reflexivity. }
  split; [| split].
  - intros error Hform. by rewrite Hview, Hform.
  - intros f Hform. split.
    + intros Hfresh. by rewrite Hview, Hform, Hfresh.
    + intros [job Hjob]. by rewrite Hview, Hform, Hjob.
  - intros e. unfold result. rewrite Hview.
    destruct (file_upload_form settings data); [done |].
    by destruct (db_jobs w !! job_id).
Qed.

(** X28, on an example: the example file uploaded into an empty system
    starts a job. *)
Lemma upload_file_effect_witness :
  upload_file production_settings (λ job_id, "/status/" +:+ job_id +:+ "/") (Some wav_upload)
      "0b5c2a6e-4c1d-4f6e-9a37-2d8e5f1c7b90" empty_world
    = (after_upload production_settings wav_upload "0b5c2a6e-4c1d-4f6e-9a37-2d8e5f1c7b90"
         empty_world,
       Val (UploadStarted "0b5c2a6e-4c1d-4f6e-9a37-2d8e5f1c7b90"
              "/status/0b5c2a6e-4c1d-4f6e-9a37-2d8e5f1c7b90/")).
Proof.
  destruct (upload_file_effect production_settings (λ job_id, "/status/" +:+ job_id +:+ "/")
              (Some wav_upload) "0b5c2a6e-4c1d-4f6e-9a37-2d8e5f1c7b90" empty_world)
    as (_ & Hstarted & _).
  - intros f [= <-]. reflexivity.
  - destruct (Hstarted wav_upload) as [Hfresh _]; [vm_compute; reflexivity |].
    apply Hfresh. reflexivity.
Defined.




